(** * NetLens: capture store, classifier, body loader, redaction engine,
      context builder and replay executor

    A shallow embedding of the core of the NetLens DevTools extension
    (TypeScript) and the properties of its capture -> classify -> redact ->
    contextualize -> replay pipeline.

    Conventions of the embedding.
    - A JavaScript string is a list of characters ([str]); [lit "..."] writes
      a literal.  Characters are 8-bit: the code units below 256, which are
      the characters of Latin-1.  On these, [trim], the class [\s] and
      [toLowerCase] are those of JavaScript, and so is [toUpperCase] but for
      the micro sign and the y with diaeresis, whose capitals lie outside the
      alphabet and which it leaves as they are.
    - A JavaScript number is an integer ([Z]), or a rational ([Q]) where it
      is a duration in milliseconds.  The difference and the two products
      that [replayRequest] computes in binary floating point, the two
      formatting helpers of [format.ts] that compute in it ([formatBytes],
      [formatDuration]) and the host functions ([JSON.parse],
      [JSON.stringify], [RegExp], [URL], [fetch]) are taken as parameters of
      the components that call them.  The total duration of the summary
      section, which is read by its formatting helper alone, is the exact
      sum.
    - [Record<string, string>] is the list of the own entries of the object
      in the order of [Object.entries]: the array indices in ascending order,
      then the other keys in the order of their creation ([JS.is_record]).
      An assignment [obj[k] = v] follows that order, and creates no property
      for the key [__proto__], which it hands to the setter of
      [Object.prototype].  [Set<string>] is a finite set ([gset]).
    - A host call that may throw returns an [option] or a [Completion];
      where the source threads exceptions through a loop, so does the
      embedding, and a function that catches every exception of its body on
      the spot is a total function. *)

From Stdlib Require Import ZArith QArith Qround List Ascii String Bool Lia.
From Stdlib Require Import Numbers.DecimalString.
From stdpp Require Import base gmap sets list strings.

Local Open Scope Z_scope.

(* ================================================================== *)
(** * Part I: the embedding *)
(* ================================================================== *)

(** ** JavaScript strings and arrays *)

Abbreviation str := (list ascii).

Definition lit (s : string) : str := list_ascii_of_string s.
Arguments lit : simpl never.

Module JS.

(** Relative index of [Array.prototype.slice] / [String.prototype.slice]:
    a negative index counts from the end, and the result is clamped to
    [0 .. len]. *)
Definition rel_index (len k : Z) : Z :=
  if k <? 0 then Z.max (len + k) 0 else Z.min k len.

(** [l.slice(start, end)] *)
Definition slice {A} (l : list A) (start end_ : Z) : list A :=
  let len := Z.of_nat (length l) in
  let from := rel_index len start in
  let to := rel_index len end_ in
  take (Z.to_nat (to - from)) (drop (Z.to_nat from) l).

(** [l.slice(start)] *)
Definition slice_from {A} (l : list A) (start : Z) : list A :=
  slice l start (Z.of_nat (length l)).

Definition is_upper (c : ascii) : bool :=
  let n := nat_of_ascii c in (65 <=? n)%nat && (n <=? 90)%nat.

Definition is_lower (c : ascii) : bool :=
  let n := nat_of_ascii c in (97 <=? n)%nat && (n <=? 122)%nat.

(** The capital and the small letters of Latin-1 beyond ASCII: 192 to 222
    without the multiplication sign, and 224 to 254 without the division
    sign. *)
Definition is_upper_latin1 (c : ascii) : bool :=
  let n := nat_of_ascii c in
  (192 <=? n)%nat && (n <=? 222)%nat && negb (n =? 215)%nat.

Definition is_lower_latin1 (c : ascii) : bool :=
  let n := nat_of_ascii c in
  (224 <=? n)%nat && (n <=? 254)%nat && negb (n =? 247)%nat.

Definition lower_char (c : ascii) : ascii :=
  if is_upper c || is_upper_latin1 c
  then ascii_of_nat (nat_of_ascii c + 32) else c.

(** The capital of a character, where it is one character of the alphabet;
    this is also the canonical form under the flag [i] of a regular
    expression. *)
Definition upper_char (c : ascii) : ascii :=
  if is_lower c || is_lower_latin1 c
  then ascii_of_nat (nat_of_ascii c - 32) else c.

(** The sharp s, whose capital is [SS]. *)
Definition sharp_s : ascii := ascii_of_nat 223.

Definition toLowerCase (s : str) : str := map lower_char s.
Definition toUpperCase (s : str) : str :=
  flat_map (λ c, if Ascii.eqb c sharp_s then lit "SS" else [upper_char c]) s.

Definition str_eqb (a b : str) : bool := bool_decide (a = b).

(** [s.startsWith(p)] *)
Fixpoint startsWith (s p : str) : bool :=
  match p, s with
  | [], _ => true
  | _ :: _, [] => false
  | c :: p', d :: s' => Ascii.eqb c d && startsWith s' p'
  end.

Fixpoint indexOf_from (s p : str) (i : Z) : Z :=
  if startsWith s p then i
  else match s with
       | [] => -1
       | _ :: s' => indexOf_from s' p (i + 1)
       end.

(** [s.indexOf(p)]: the first position at which [p] occurs, or [-1]. *)
Definition indexOf (s p : str) : Z := indexOf_from s p 0.

Fixpoint lastIndexOf_from (s p : str) (i : Z) : Z :=
  match s with
  | [] => if startsWith [] p then i else -1
  | _ :: s' =>
      let later := lastIndexOf_from s' p (i + 1) in
      if later =? -1 then (if startsWith s p then i else -1) else later
  end.

(** [s.lastIndexOf(p)]: the last position at which [p] occurs, or [-1]. *)
Definition lastIndexOf (s p : str) : Z := lastIndexOf_from s p 0.

(** [s.includes(p)] *)
Definition includes (s p : str) : bool := negb (indexOf s p =? -1).

(** White space and line terminators, which [String.prototype.trim] removes
    and the class [\s] matches: tab to carriage return, the space and the
    no-break space. *)
Definition is_space (c : ascii) : bool :=
  let n := nat_of_ascii c in
  ((9 <=? n)%nat && (n <=? 13)%nat) || (n =? 32)%nat || (n =? 160)%nat.

Fixpoint trimStart (s : str) : str :=
  match s with
  | c :: s' => if is_space c then trimStart s' else s
  | [] => []
  end.

Definition trim (s : str) : str := rev (trimStart (rev (trimStart s))).

(** [parts.join(sep)] *)
Fixpoint join (sep : str) (parts : list str) : str :=
  match parts with
  | [] => []
  | [p] => p
  | p :: rest => p ++ sep ++ join sep rest
  end.

(** [String(n)] for an integer [n]. *)
Definition Number_toString (n : Z) : str :=
  lit (NilEmpty.string_of_int (Z.to_int n)).

(** Truthiness of a string: only the empty string is falsy. *)
Definition truthy (s : str) : bool :=
  match s with [] => false | _ => true end.

(** Truthiness of [string | null]. *)
Definition truthy_opt (s : option str) : bool :=
  match s with Some (_ :: _) => true | _ => false end.

Definition is_digit (c : ascii) : bool :=
  let n := nat_of_ascii c in (48 <=? n)%nat && (n <=? 57)%nat.

(** The number that a string of decimal digits denotes. *)
Definition digits_value (s : str) : Z :=
  fold_left (λ acc c, 10 * acc + (Z.of_nat (nat_of_ascii c) - 48)) s 0.

(** Array indices: the keys that are canonical numeric strings, which
    [String(Number(k))] gives back, for an integer from 0 to 2^32 - 2.  An
    object lists them before its other keys, in ascending order. *)
Definition array_index (k : str) : option Z :=
  let n := digits_value k in
  if truthy k && forallb is_digit k && str_eqb (Number_toString n) k
     && (n <=? 4294967294)
  then Some n
  else None.

(** May the key [k] be listed before the key [k']?  An array index is
    listed before the larger ones and before the other keys. *)
Definition key_before (k k' : str) : bool :=
  match array_index k, array_index k' with
  | Some n, Some m => n <? m
  | None, Some _ => false
  | _, None => true
  end.

(** The order of [Object.entries] on a list of keys. *)
Fixpoint keys_ordered (keys : list str) : bool :=
  match keys with
  | [] => true
  | k :: rest => forallb (key_before k) rest && keys_ordered rest
  end.

(** The lists of entries that are the own entries of an object: the keys are
    distinct and in the order of [Object.entries]. *)
Definition is_record (obj : list (str * str)) : Prop :=
  NoDup (map fst obj) ∧ keys_ordered (map fst obj) = true.

(** [Object.hasOwn(obj, k)] *)
Definition has_own (obj : list (str * str)) (k : str) : bool :=
  existsb (λ kv, str_eqb (fst kv) k) obj.

(** The own property [k] of [obj] takes the value [v] and keeps its place. *)
Fixpoint record_update (obj : list (str * str)) (k v : str)
  : list (str * str) :=
  match obj with
  | [] => []
  | (k', v') :: rest =>
      if str_eqb k' k then (k', v) :: rest
      else (k', v') :: record_update rest k v
  end.

(** A new array index [n] is listed before the first key that is not a
    smaller array index. *)
Fixpoint record_insert_index (obj : list (str * str)) (n : Z) (k v : str)
  : list (str * str) :=
  match obj with
  | [] => [(k, v)]
  | (k', v') :: rest =>
      match array_index k' with
      | Some m =>
          if m <? n then (k', v') :: record_insert_index rest n k v
          else (k, v) :: obj
      | None => (k, v) :: obj
      end
  end.

(** The key that names the accessor of [Object.prototype]. *)
Definition proto_key : str := lit "__proto__".

(** [obj[k] = v] on a [Record<string, string>], an ordinary object whose
    prototype is [Object.prototype].  An own property takes the new value.
    Otherwise the key [__proto__] reaches the setter of [Object.prototype],
    which ignores a string and creates no property; any other key becomes a
    new own property, listed in the order of [Object.entries]. *)
Definition record_set (obj : list (str * str)) (k v : str) : list (str * str) :=
  if has_own obj k then record_update obj k v
  else if str_eqb k proto_key then obj
  else
    match array_index k with
    | Some n => record_insert_index obj n k v
    | None => obj ++ [(k, v)]
    end.

(** [obj[k]] for a key that [Object.prototype] does not define, such as
    [content-type]: the value of the own property, [None] for [undefined]. *)
Definition record_get (obj : list (str * str)) (k : str) : option str :=
  option_map snd (List.find (λ kv, str_eqb (fst kv) k) obj).

(** The line feed character. *)
Definition nl : str := [ascii_of_nat 10].

End JS.

(** ** Exceptions

    A computation either completes normally or throws.  A thrown value is an
    [Error] object with its message, or some other value. *)

Inductive Thrown := ErrorObject (message : str) | OtherValue.

Inductive Completion (A : Type) :=
| Normal (a : A)
| Throw (e : Thrown).
Arguments Normal {A} a.
Arguments Throw {A} e.

Global Instance Completion_ret : MRet Completion := λ A a, Normal a.
Global Instance Completion_bind : MBind Completion :=
  λ A B f m, match m with Normal a => f a | Throw e => Throw e end.

(** [try { body } catch (e) { handler(e) }] *)
Definition try_catch {A} (body : Completion A) (handler : Thrown → Completion A)
  : Completion A :=
  match body with
  | Normal a => Normal a
  | Throw e => handler e
  end.

(** ** Data model ([types.ts]) *)

Abbreviation Headers := (list (str * str)).

(** Phase timings and durations are fractional milliseconds ([Q]); sizes,
    status codes and time stamps are integers. *)
Record RequestTiming := {
  blocked : Q; dns : Q; connect : Q; ssl : Q; send : Q; wait : Q; receive : Q
}.

(** The deferred loader [getFullResponseBody] resolves to the content or
    rejects; [loader_result] is what one invocation yields. *)
Record BodyLoader := { loader_result : option str }.

Record NetworkRequest := {
  id : str;
  timestamp : Z;
  method : str;
  url : str;
  requestHeaders : Headers;
  requestBody : option str;
  requestBodySize : Z;
  status : Z;
  statusText : str;
  responseHeaders : Headers;
  responseBody : option str;
  responseBodySize : Z;
  responseMimeType : str;
  timing : RequestTiming;
  duration : Q;
  isGraphQL : bool;
  isWebSocket : bool;
  isReplayed : bool;
  resourceType : str;
  hasFullResponseBody : bool;
  getFullResponseBody : option BodyLoader
}.

(** [request.isGraphQL = b] *)
Definition set_isGraphQL (b : bool) (request : NetworkRequest) : NetworkRequest :=
  {| id := id request;
     timestamp := timestamp request;
     method := method request;
     url := url request;
     requestHeaders := requestHeaders request;
     requestBody := requestBody request;
     requestBodySize := requestBodySize request;
     status := status request;
     statusText := statusText request;
     responseHeaders := responseHeaders request;
     responseBody := responseBody request;
     responseBodySize := responseBodySize request;
     responseMimeType := responseMimeType request;
     timing := timing request;
     duration := duration request;
     isGraphQL := b;
     isWebSocket := isWebSocket request;
     isReplayed := isReplayed request;
     resourceType := resourceType request;
     hasFullResponseBody := hasFullResponseBody request;
     getFullResponseBody := getFullResponseBody request |}.

Record SanitizationRule := {
  rule_id : str;
  name : str;
  pattern : str;
  replacement : str;
  enabled : bool;
  isDefault : bool
}.

(** ** Capture store ([stores/requests.ts]) *)

Module Store.

Record RequestsState := {
  requests : list NetworkRequest;
  favorites : gset str;
  selected : gset str;
  isPaused : bool;
  maxRequests : Z;
  searchQuery : str
}.

Definition initial : RequestsState :=
  {| requests := []; favorites := ∅; selected := ∅;
     isPaused := false; maxRequests := 500; searchQuery := [] |}.

(** [new Set(removed.map((r) => r.id))] *)
Definition idSet (rs : list NetworkRequest) : gset str :=
  list_to_set (map id rs).

(** [new Set([...s].filter((id) => !removedIds.has(id)))] *)
Definition without (s removedIds : gset str) : gset str :=
  filter (λ i, i ∉ removedIds) s.

Definition addRequest (request : NetworkRequest) (state : RequestsState)
  : RequestsState :=
  if isPaused state then state
  else
    let newRequests := requests state ++ [request] in
    let len := Z.of_nat (length newRequests) in
    if maxRequests state <? len then
      let removed := JS.slice newRequests 0 (len - maxRequests state) in
      let newRequests' := JS.slice_from newRequests (- maxRequests state) in
      let removedIds := idSet removed in
      {| requests := newRequests';
         favorites := without (favorites state) removedIds;
         selected := without (selected state) removedIds;
         isPaused := isPaused state;
         maxRequests := maxRequests state;
         searchQuery := searchQuery state |}
    else
      {| requests := newRequests;
         favorites := favorites state;
         selected := selected state;
         isPaused := isPaused state;
         maxRequests := maxRequests state;
         searchQuery := searchQuery state |}.

Definition removeRequest (i : str) (state : RequestsState) : RequestsState :=
  {| requests := List.filter (λ r, negb (JS.str_eqb (id r) i)) (requests state);
     favorites := favorites state ∖ {[ i ]};
     selected := selected state ∖ {[ i ]};
     isPaused := isPaused state;
     maxRequests := maxRequests state;
     searchQuery := searchQuery state |}.

Definition clearRequests (state : RequestsState) : RequestsState :=
  {| requests := []; favorites := ∅; selected := ∅;
     isPaused := isPaused state;
     maxRequests := maxRequests state;
     searchQuery := searchQuery state |}.

(** [if (s.has(id)) s.delete(id) else s.add(id)] on a copy of the set. *)
Definition toggle (i : str) (s : gset str) : gset str :=
  if decide (i ∈ s) then s ∖ {[ i ]} else s ∪ {[ i ]}.

Definition toggleSelected (i : str) (state : RequestsState) : RequestsState :=
  {| requests := requests state;
     favorites := favorites state;
     selected := toggle i (selected state);
     isPaused := isPaused state;
     maxRequests := maxRequests state;
     searchQuery := searchQuery state |}.

Definition toggleFavorite (i : str) (state : RequestsState) : RequestsState :=
  {| requests := requests state;
     favorites := toggle i (favorites state);
     selected := selected state;
     isPaused := isPaused state;
     maxRequests := maxRequests state;
     searchQuery := searchQuery state |}.

Definition getFilteredRequests (state : RequestsState) : list NetworkRequest :=
  if negb (JS.truthy (JS.trim (searchQuery state))) then requests state
  else
    let query := JS.toLowerCase (searchQuery state) in
    List.filter
      (λ r, JS.includes (JS.toLowerCase (url r)) query
            || JS.includes (JS.toLowerCase (method r)) query
            || JS.includes (JS.Number_toString (status r)) query)
      (requests state).

Definition with_selected (sel : gset str) (state : RequestsState)
  : RequestsState :=
  {| requests := requests state;
     favorites := favorites state;
     selected := sel;
     isPaused := isPaused state;
     maxRequests := maxRequests state;
     searchQuery := searchQuery state |}.

Definition selectAll (state : RequestsState) : RequestsState :=
  with_selected (idSet (getFilteredRequests state)) state.

Definition deselectAll (state : RequestsState) : RequestsState :=
  with_selected ∅ state.

Definition setSelected (ids : list str) (state : RequestsState)
  : RequestsState :=
  with_selected (list_to_set ids) state.

Definition clearFavorites (state : RequestsState) : RequestsState :=
  {| requests := requests state;
     favorites := ∅;
     selected := selected state;
     isPaused := isPaused state;
     maxRequests := maxRequests state;
     searchQuery := searchQuery state |}.

Definition setPaused (paused : bool) (state : RequestsState) : RequestsState :=
  {| requests := requests state;
     favorites := favorites state;
     selected := selected state;
     isPaused := paused;
     maxRequests := maxRequests state;
     searchQuery := searchQuery state |}.

Definition setMaxRequests (max : Z) (state : RequestsState) : RequestsState :=
  let len := Z.of_nat (length (requests state)) in
  if max <? len then
    let removed := JS.slice (requests state) 0 (len - max) in
    let removedIds := idSet removed in
    {| requests := JS.slice_from (requests state) (- max);
       favorites := without (favorites state) removedIds;
       selected := without (selected state) removedIds;
       isPaused := isPaused state;
       maxRequests := max;
       searchQuery := searchQuery state |}
  else
    {| requests := requests state;
       favorites := favorites state;
       selected := selected state;
       isPaused := isPaused state;
       maxRequests := max;
       searchQuery := searchQuery state |}.

Definition setSearchQuery (query : str) (state : RequestsState)
  : RequestsState :=
  {| requests := requests state;
     favorites := favorites state;
     selected := selected state;
     isPaused := isPaused state;
     maxRequests := maxRequests state;
     searchQuery := query |}.

Definition getSelectedRequests (state : RequestsState) : list NetworkRequest :=
  List.filter (λ r, bool_decide (id r ∈ selected state)) (requests state).

Definition getFavoriteRequests (state : RequestsState) : list NetworkRequest :=
  List.filter (λ r, bool_decide (id r ∈ favorites state)) (requests state).

Definition getRequestById (i : str) (state : RequestsState)
  : option NetworkRequest :=
  List.find (λ r, JS.str_eqb (id r) i) (requests state).

(** The mutating actions of the store. *)
Inductive Action :=
| AddRequest (request : NetworkRequest)
| RemoveRequest (i : str)
| ClearRequests
| ToggleSelected (i : str)
| SelectAll
| DeselectAll
| SetSelected (ids : list str)
| ToggleFavorite (i : str)
| ClearFavorites
| SetPaused (paused : bool)
| SetMaxRequests (max : Z)
| SetSearchQuery (query : str).

Definition step (a : Action) (state : RequestsState) : RequestsState :=
  match a with
  | AddRequest r => addRequest r state
  | RemoveRequest i => removeRequest i state
  | ClearRequests => clearRequests state
  | ToggleSelected i => toggleSelected i state
  | SelectAll => selectAll state
  | DeselectAll => deselectAll state
  | SetSelected ids => setSelected ids state
  | ToggleFavorite i => toggleFavorite i state
  | ClearFavorites => clearFavorites state
  | SetPaused p => setPaused p state
  | SetMaxRequests m => setMaxRequests m state
  | SetSearchQuery q => setSearchQuery q state
  end.

(** The number of records at the front of a sequence of [n] records that
    exceed a bound of [c]. *)
Definition excess (n c : nat) : nat := (n - c)%nat.

(** A sequence of [addRequest] calls, in order. *)
Definition admitAll (rs : list NetworkRequest) (state : RequestsState)
  : RequestsState :=
  fold_left (λ s r, addRequest r s) rs state.

(** Ids present in the sequence. *)
Definition present (i : str) (state : RequestsState) : Prop :=
  ∃ r, r ∈ requests state ∧ id r = i.

(** Side tables only name records of the sequence. *)
Definition side_tables_ok (state : RequestsState) : Prop :=
  (∀ i, i ∈ favorites state → present i state) ∧
  (∀ i, i ∈ selected state → present i state).

(** The sequence is within the bound. *)
Definition within_capacity (state : RequestsState) : Prop :=
  Z.of_nat (length (requests state)) <= maxRequests state.

(** The ids an action adds to a side table, if any, are ids of records of the
    sequence. *)
Definition targets_present (a : Action) (state : RequestsState) : Prop :=
  match a with
  | ToggleSelected i | ToggleFavorite i => present i state
  | SetSelected ids => ∀ i, i ∈ ids → present i state
  | _ => True
  end.

End Store.

(** ** JSON values, as produced by [JSON.parse] *)

#[warnings="-register-all"]
Inductive JSON :=
| JNull
| JBool (b : bool)
| JNumber (n : Z)
| JString (s : str)
| JArray (items : list JSON)
| JObject (members : list (str * JSON)).

Module Json.

(** Truthiness of a parsed value. *)
Definition truthy (v : JSON) : bool :=
  match v with
  | JNull => false
  | JBool b => b
  | JNumber n => negb (n =? 0)
  | JString s => JS.truthy s
  | JArray _ | JObject _ => true
  end.

(** [typeof v === "object"] *)
Definition is_object (v : JSON) : bool :=
  match v with
  | JNull | JArray _ | JObject _ => true
  | _ => false
  end.

Fixpoint lookup_last (k : str) (members : list (str * JSON)) : option JSON :=
  match members with
  | [] => None
  | (k', v) :: rest =>
      match lookup_last k rest with
      | Some w => Some w
      | None => if JS.str_eqb k' k then Some v else None
      end
  end.

(** [v.key] for a non-index key: [None] is [undefined].  A key repeated in
    the text is bound to its last value. *)
Definition get (v : JSON) (k : str) : option JSON :=
  match v with
  | JObject members => lookup_last k members
  | _ => None
  end.

(** [typeof x === "string"], with the string. *)
Definition as_string (x : option JSON) : option str :=
  match x with
  | Some (JString s) => Some s
  | _ => None
  end.

End Json.

(** ** Request classifier ([lib/utils/graphql.ts]) *)

Module Classifier.
Section WithParser.

(** [JSON.parse]; [None] when it throws. *)
Variable JSON_parse : str → option JSON.

(** [safeJsonParse] of [format.ts]: [null] on failure. *)
Definition safeJsonParse (s : str) : JSON :=
match JSON_parse s with
| Some v => v
| None => JNull
end.

(** [Object.entries(headers).find(([key]) => key.toLowerCase() === name)?.[1]] *)
Definition findHeader (name : str) (headers : Headers) : option str :=
option_map snd
  (List.find (λ kv, JS.str_eqb (JS.toLowerCase (fst kv)) name) headers).

Definition hasGraphQLUrl (request : NetworkRequest) : bool :=
JS.includes (JS.toLowerCase (url request)) (lit "/graphql").

(** [contentType?.includes("application/json")]; [undefined] is falsy. *)
Definition isJsonContent (request : NetworkRequest) : bool :=
match findHeader (lit "content-type") (requestHeaders request) with
| Some contentType => JS.includes contentType (lit "application/json")
| None => false
end.

(** The body check of [isGraphQLRequest]: the block guarded by
  [request.requestBody && isJsonContent]. *)
Definition bodyLooksGraphQL (request : NetworkRequest) : bool :=
match requestBody request with
| Some body =>
    if JS.truthy body && isJsonContent request then
      let parsed := safeJsonParse body in
      if Json.truthy parsed && Json.is_object parsed then
        let query := Json.as_string (Json.get parsed (lit "query")) in
        let hasQuery := match query with Some _ => true | None => false end in
        let hasMutation :=
          match query with
          | Some q => JS.startsWith (JS.trim q) (lit "mutation")
          | None => false
          end in
        hasQuery || hasMutation
      else false
    else false
| None => false
end.

Definition isGraphQLRequest (request : NetworkRequest) : bool :=
if bodyLooksGraphQL request then true
else if hasGraphQLUrl request
        && JS.str_eqb (method request) (lit "POST")
        && isJsonContent request
     then true
     else false.

End WithParser.
End Classifier.

(** ** Body loader and HAR parser ([lib/network/parser.ts]) *)

Module Parser.

(** Maximum body size to store in memory (500KB); larger bodies are
    lazy-loaded. *)
Definition MAX_BODY_SIZE : Z := 500 * 1024.

Record HarTimings := {
  t_blocked : option Q; t_dns : option Q; t_connect : option Q;
  t_ssl : option Q; t_send : option Q; t_wait : option Q;
  t_receive : option Q
}.

Record PostData := {
  text : option str;
  params : option (list (str * option str))
}.

(** The fields of a [chrome.devtools.network.Request] that the parser
    reads.  [getContent] is the content handed to the callback of
    [entry.getContent]: [None] when the callback receives [undefined] or
    the call itself fails. *)
Record HarEntry := {
  startedDateTime : Z;
  time : option Q;
  timings : option HarTimings;
  _resourceType : option str;
  request_method : str;
  request_url : str;
  request_headers : list (str * str);
  postData : option PostData;
  response_status : Z;
  response_statusText : str;
  response_headers : list (str * str);
  content_size : option Z;
  content_mimeType : option str;
  getContent : option str
}.

(** [x || 0] on an optional duration, then [Math.max(0, _)]. *)
Definition nonneg (x : option Q) : Q :=
  match x with
  | Some q => if Qle_bool 0 q then q else 0%Q
  | None => 0%Q
  end.

Definition parseTiming (entry : HarEntry) : RequestTiming :=
  match timings entry with
  | None =>
      {| blocked := 0; dns := 0; connect := 0; ssl := 0;
         send := 0; wait := 0; receive := 0 |}
  | Some t =>
      {| blocked := nonneg (t_blocked t); dns := nonneg (t_dns t);
         connect := nonneg (t_connect t); ssl := nonneg (t_ssl t);
         send := nonneg (t_send t); wait := nonneg (t_wait t);
         receive := nonneg (t_receive t) |}
  end.

Definition parseHeaders (headers : list (str * str)) : Headers :=
  fold_left (λ result h, JS.record_set result (fst h) (snd h)) headers [].

Definition getRequestBody (entry : HarEntry) : option str :=
  match postData entry with
  | None => None
  | Some pd =>
      if JS.truthy_opt (text pd) then text pd
      else
        match params pd with
        | Some (p :: ps) =>
            Some (JS.join (lit "&")
                    (map (λ nv, fst nv ++ lit "=" ++ default [] (snd nv))
                         (p :: ps)))
        | _ => None
        end
  end.

Section WithHost.

(** [new Blob([s]).size]: the length of the UTF-8 encoding. *)
Variable byteLength : str → Z.

Definition getRequestBodySize (entry : HarEntry) : Z :=
  match postData entry with
  | None => 0
  | Some pd =>
      match text pd with
      | Some (c :: t) => byteLength (c :: t)
      | _ => 0
      end
  end.

Definition getResourceType (entry : HarEntry) : str :=
  if JS.truthy_opt (_resourceType entry) then default [] (_resourceType entry)
  else
    let mimeType := default [] (content_mimeType entry) in
    if JS.includes mimeType (lit "json") then lit "fetch"
    else if JS.includes mimeType (lit "javascript") then lit "script"
    else if JS.includes mimeType (lit "css") then lit "stylesheet"
    else if JS.includes mimeType (lit "html") then lit "document"
    else if JS.includes mimeType (lit "image") then lit "image"
    else if JS.includes mimeType (lit "font") then lit "font"
    else lit "other".

Definition isWebSocketRequest (entry : HarEntry) : bool :=
  match List.find (λ h, JS.str_eqb (JS.toLowerCase (fst h)) (lit "upgrade"))
                  (request_headers entry) with
  | Some h => JS.str_eqb (JS.toLowerCase (snd h)) (lit "websocket")
  | None => false
  end.

Variable JSON_parse : str → option JSON.

(** [parseHarEntry]; [newId] is the value of [generateId()].  The
    [try]/[catch] around the inline fetch turns a rejected fetch into an
    absent body. *)
Definition parseHarEntry (newId : str) (entry : HarEntry) : NetworkRequest :=
  let requestHeaders_ := parseHeaders (request_headers entry) in
  let responseHeaders_ := parseHeaders (response_headers entry) in
  let requestBody_ := getRequestBody entry in
  let timing_ := parseTiming entry in
  let duration_ :=
    match time entry with
    | Some t => if Qeq_bool t 0 then 0%Q else t
    | None => 0%Q
    end in
  let responseBodySize_ :=
    match content_size entry with
    | Some n => n
    | None => 0
    end in
  let shouldLoadBody := responseBodySize_ <=? MAX_BODY_SIZE in
  let '(responseBody_, hasFullResponseBody_) :=
    if shouldLoadBody then
      match getContent entry with
      | Some content => (Some content, true)
      | None => (None, false)
      end
    else (None, false) in
  let getFullResponseBody_ :=
    if negb shouldLoadBody
    then Some {| loader_result := getContent entry |}
    else None in
  let request :=
    {| id := newId;
       timestamp := startedDateTime entry;
       method := request_method entry;
       url := request_url entry;
       requestHeaders := requestHeaders_;
       requestBody := requestBody_;
       requestBodySize := getRequestBodySize entry;
       status := response_status entry;
       statusText := response_statusText entry;
       responseHeaders := responseHeaders_;
       responseBody := responseBody_;
       responseBodySize := responseBodySize_;
       responseMimeType := default [] (content_mimeType entry);
       timing := timing_;
       duration := duration_;
       isGraphQL := false;
       isWebSocket := isWebSocketRequest entry;
       isReplayed := false;
       resourceType := getResourceType entry;
       hasFullResponseBody := hasFullResponseBody_;
       getFullResponseBody := getFullResponseBody_ |} in
  set_isGraphQL (Classifier.isGraphQLRequest JSON_parse request) request.

End WithHost.

End Parser.

(** ** Redaction engine ([lib/sanitizer/index.ts]) *)

(** The regular-expression engine of the host.  [compile p] is
    [new RegExp(p, "gi")], [None] when the constructor throws a syntax error;
    [test re s] is [re.test(s)] on a freshly built expression; [replace re s t]
    is [s.replace(re, t)], which for a global expression rewrites every match
    and starts from the beginning of [s]. *)
Class RegExpEngine := {
  RegExp : Type;
  compile : str → option RegExp;
  test : RegExp → str → bool;
  replace : RegExp → str → str → str
}.

(** What every engine guarantees and the properties below rely on: a string in
    which the expression has no match is returned unchanged. *)
Class RegExpLaws (E : RegExpEngine) : Prop := {
  replace_no_match :
    ∀ (re : RegExp) (s t : str), test re s = false → replace re s t = s
}.

Module Sanitizer.

(** A sanitized version of [NetworkRequest] (without lazy loading
    functions). *)
Record SanitizedRequest := {
  s_id : str;
  s_timestamp : Z;
  s_method : str;
  s_url : str;
  s_status : Z;
  s_statusText : str;
  s_duration : Q;
  s_requestHeaders : Headers;
  s_requestBody : option str;
  s_requestBodySize : Z;
  s_responseHeaders : Headers;
  s_responseBody : option str;
  s_responseBodySize : Z;
  s_responseMimeType : str;
  s_isGraphQL : bool;
  s_isWebSocket : bool
}.

Record SanitizationPreview := {
  original : str;
  sanitized : str;
  matchedRules : list str;
  hasChanges : bool
}.

Section WithEngine.

Context {E : RegExpEngine}.

(** [new RegExp(pattern, "gi")] *)
Definition new_RegExp (p : str) : Completion RegExp :=
  match compile p with
  | Some re => Normal re
  | None => Throw (ErrorObject (lit "Invalid regular expression"))
  end.

(** One iteration of the loop of [sanitizeValue]: the [try] block and its
    [catch], which warns and leaves [sanitized] as it was. *)
Definition sanitizeStep (sanitized : str) (rule : SanitizationRule)
  : Completion str :=
  try_catch
    (regex ← new_RegExp (pattern rule);
     mret (replace regex sanitized (replacement rule)))
    (λ _, mret sanitized).

Fixpoint sanitizeLoop (enabledRules : list SanitizationRule) (sanitized : str)
  : Completion str :=
  match enabledRules with
  | [] => mret sanitized
  | rule :: rest =>
      sanitized' ← sanitizeStep sanitized rule;
      sanitizeLoop rest sanitized'
  end.

Definition sanitizeValue (value : str) (rules : list SanitizationRule)
  : Completion str :=
  if negb (JS.truthy value) then mret value
  else sanitizeLoop (List.filter enabled rules) value.

Fixpoint sanitizeEntries (entries : list (str * str))
    (rules : list SanitizationRule) (sanitized : Headers)
  : Completion Headers :=
  match entries with
  | [] => mret sanitized
  | (key, value) :: rest =>
      v ← sanitizeValue value rules;
      sanitizeEntries rest rules (JS.record_set sanitized key v)
  end.

Definition sanitizeHeaders (headers : Headers) (rules : list SanitizationRule)
  : Completion Headers :=
  sanitizeEntries headers rules [].

(** [body ? sanitizeValue(body, rules) : null] *)
Definition sanitizeBody (body : option str) (rules : list SanitizationRule)
  : Completion (option str) :=
  match body with
  | Some (c :: b) => v ← sanitizeValue (c :: b) rules; mret (Some v)
  | _ => mret None
  end.

Definition sanitizeRequest (request : NetworkRequest)
    (rules : list SanitizationRule) : Completion SanitizedRequest :=
  url' ← sanitizeValue (url request) rules;
  requestHeaders' ← sanitizeHeaders (requestHeaders request) rules;
  requestBody' ← sanitizeBody (requestBody request) rules;
  responseHeaders' ← sanitizeHeaders (responseHeaders request) rules;
  responseBody' ← sanitizeBody (responseBody request) rules;
  mret {| s_id := id request;
          s_timestamp := timestamp request;
          s_method := method request;
          s_url := url';
          s_status := status request;
          s_statusText := statusText request;
          s_duration := duration request;
          s_requestHeaders := requestHeaders';
          s_requestBody := requestBody';
          s_requestBodySize := requestBodySize request;
          s_responseHeaders := responseHeaders';
          s_responseBody := responseBody';
          s_responseBodySize := responseBodySize request;
          s_responseMimeType := responseMimeType request;
          s_isGraphQL := isGraphQL request;
          s_isWebSocket := isWebSocket request |}.

Fixpoint sanitizeRequests (requests : list NetworkRequest)
    (rules : list SanitizationRule) : Completion (list SanitizedRequest) :=
  match requests with
  | [] => mret []
  | r :: rest =>
      r' ← sanitizeRequest r rules;
      rest' ← sanitizeRequests rest rules;
      mret (r' :: rest')
  end.

(** One iteration of the loop of [previewSanitization]; the state is
    [(sanitized, matchedRules)]. *)
Definition previewStep (value : str) (st : str * list str)
    (rule : SanitizationRule) : Completion (str * list str) :=
  try_catch
    (regex ← new_RegExp (pattern rule);
     let matched :=
       if test regex value then snd st ++ [name rule] else snd st in
     mret (replace regex (fst st) (replacement rule), matched))
    (λ _, mret st).

Fixpoint previewLoop (value : str) (enabledRules : list SanitizationRule)
    (st : str * list str) : Completion (str * list str) :=
  match enabledRules with
  | [] => mret st
  | rule :: rest =>
      st' ← previewStep value st rule;
      previewLoop value rest st'
  end.

Definition previewSanitization (value : str) (rules : list SanitizationRule)
  : Completion SanitizationPreview :=
  st ← previewLoop value (List.filter enabled rules) (value, []);
  mret {| original := value;
          sanitized := fst st;
          matchedRules := snd st;
          hasChanges := negb (JS.str_eqb value (fst st)) |}.

(** The contract of the engine, in the words of the specification: the
    enabled rules, in list order, each a replacement on the output of the
    previous one, a rule that does not compile being skipped. *)
Definition applyRule (acc : str) (rule : SanitizationRule) : str :=
  match compile (pattern rule) with
  | Some re => replace re acc (replacement rule)
  | None => acc
  end.

Definition Sanitize_spec (text : str) (rules : list SanitizationRule) : str :=
  fold_left applyRule (List.filter enabled rules) text.

(** Does the pattern of the rule compile and match the text? *)
Definition rule_matches (value : str) (rule : SanitizationRule) : bool :=
  match compile (pattern rule) with
  | Some re => test re value
  | None => false
  end.

End WithEngine.

Definition createSanitizationRule (newId name_ pattern_ replacement_ : str)
  : SanitizationRule :=
  {| rule_id := newId; name := name_; pattern := pattern_;
     replacement := replacement_; enabled := true; isDefault := false |}.

End Sanitizer.

(** ** A regular-expression engine for a fragment of the pattern language

    The engine of the host is a parameter of the redaction engine.  The
    examples below run on this instance, which implements the host's
    semantics (flags [g] and [i]) for the patterns built from literal
    characters, [.] and a postfix [*] on either.  A pattern that uses any
    other metacharacter is outside the fragment and is not compiled by this
    instance; among those, the patterns used below (a lone opening
    parenthesis) are syntax errors for the host as well. *)

Module Fragment.

Inductive Atom := AChar (c : ascii) | AAny.

Record Item := { atom : Atom; starred : bool }.

Definition is_char (c : ascii) (s : string) : bool :=
  existsb (Ascii.eqb c) (list_ascii_of_string s).

(** The syntax characters of the pattern language. *)
Definition is_meta (c : ascii) : bool := is_char c "\^$.*+?()[]{}|".

Definition atom_of (c : ascii) : option Atom :=
  if is_char c "." then Some AAny
  else if is_meta c then None
  else Some (AChar c).

Fixpoint parse (p : str) : option (list Item) :=
  match p with
  | [] => Some []
  | c :: rest =>
      match atom_of c with
      | None => None
      | Some a =>
          match rest with
          | c' :: rest' =>
              if is_char c' "*"
              then option_map (cons {| atom := a; starred := true |}) (parse rest')
              else option_map (cons {| atom := a; starred := false |}) (parse rest)
          | [] => Some [ {| atom := a; starred := false |} ]
          end
      end
  end.

(** Line terminators, which [.] does not match. *)
Definition is_line_terminator (c : ascii) : bool :=
  let n := nat_of_ascii c in (n =? 10)%nat || (n =? 13)%nat.

(** Character comparison under the [i] flag. *)
Definition atom_matches (a : Atom) (c : ascii) : bool :=
  match a with
  | AChar d => Ascii.eqb (JS.upper_char d) (JS.upper_char c)
  | AAny => negb (is_line_terminator c)
  end.

(** [match_here items s]: the length of the match of [items] at the start of
    [s] that the backtracking matcher finds first ([*] is greedy), if any. *)
Fixpoint match_here (items : list Item) (s : str) : option nat :=
  match items with
  | [] => Some 0%nat
  | it :: rest =>
      if starred it then
        (fix star (s : str) : option nat :=
           match s with
           | c :: s' =>
               if atom_matches (atom it) c then
                 match star s' with
                 | Some n => Some (S n)
                 | None => match_here rest s
                 end
               else match_here rest s
           | [] => match_here rest s
           end) s
      else
        match s with
        | c :: s' =>
            if atom_matches (atom it) c
            then option_map S (match_here rest s')
            else None
        | [] => None
        end
  end.

(** [re.test(s)]: is there a match starting anywhere in [s]? *)
Fixpoint test_from (items : list Item) (s : str) : bool :=
  match match_here items s with
  | Some _ => true
  | None =>
      match s with
      | [] => false
      | _ :: s' => test_from items s'
      end
  end.

(** The replacement text for one match (an expression without capture
    groups): [$$] is a dollar sign, [$&] the match, [$`] the text before it,
    [$'] the text after it; any other use of [$] stands for itself. *)
Fixpoint substitute (template before matched after : str) : str :=
  match template with
  | [] => []
  | d :: tl =>
      if is_char d "$" then
        match tl with
        | c :: tl' =>
            if is_char c "$" then d :: substitute tl' before matched after
            else if is_char c "&" then matched ++ substitute tl' before matched after
            else if is_char c "`" then before ++ substitute tl' before matched after
            else if is_char c "'" then after ++ substitute tl' before matched after
            else d :: substitute tl before matched after
        | [] => [d]
        end
      else d :: substitute tl before matched after
  end.

(** [s.replace(re, template)] for a global expression.  [before_rev] holds the
    characters already passed, last first; [skip] counts the characters of
    the current match still to pass.  After an empty match the scan moves on
    by one character, which is copied. *)
Fixpoint replace_from (items : list Item) (template before_rev s : str)
    (skip : nat) : str :=
  match skip with
  | S k =>
      match s with
      | [] => []
      | c :: s' => replace_from items template (c :: before_rev) s' k
      end
  | O =>
      match match_here items s with
      | Some n =>
          substitute template (rev before_rev) (take n s) (drop n s)
          ++ match s with
             | [] => []
             | c :: s' =>
                 match n with
                 | O => c :: replace_from items template (c :: before_rev) s' 0
                 | S k => replace_from items template (c :: before_rev) s' k
                 end
             end
      | None =>
          match s with
          | [] => []
          | c :: s' => c :: replace_from items template (c :: before_rev) s' 0
          end
      end
  end.

Definition engine : RegExpEngine :=
  {| RegExp := list Item;
     compile := parse;
     test := test_from;
     replace := λ items s template, replace_from items template [] s 0 |}.

End Fragment.

(** ** Context builder ([lib/llm/context.ts]) *)

Module Context.

Import Sanitizer.

(** Approximate token count for a string, ~4 characters per token:
    [Math.ceil(text.length / 4)]. *)
Definition estimateTokenCount (text : str) : Z :=
  (Z.of_nat (length text) + 3) / 4.

(** Maximum tokens to use for context. *)
Definition MAX_CONTEXT_TOKENS : Z := 50000.

(** The separator between sections. *)
Definition separator : str := JS.nl ++ JS.nl ++ lit "---" ++ JS.nl ++ JS.nl.

Definition notice_context : str :=
  JS.nl ++ JS.nl ++ lit "[Context truncated due to size]".
Definition notice_details : str :=
  JS.nl ++ JS.nl ++ lit "[Request details truncated due to size]".
Definition notice_some : str :=
  JS.nl ++ JS.nl ++ lit "[Some requests truncated due to size]".

(** Truncate context to fit within token limit. *)
Definition truncateContext (context : str) (maxTokens : Z) : str :=
  let maxChars := maxTokens * 4 in
  if Z.of_nat (length context) <=? maxChars then context
  else
    let summaryEnd := JS.indexOf context separator in
    if summaryEnd =? -1 then JS.slice context 0 maxChars ++ notice_context
    else
      let summary := JS.slice context 0 summaryEnd in
      let remaining := JS.slice_from context summaryEnd in
      let remainingMaxChars := maxChars - Z.of_nat (length summary) - 50 in
      if remainingMaxChars <=? 0 then summary ++ notice_details
      else
        let truncatedRemaining := JS.slice remaining 0 remainingMaxChars in
        let lastRequestBoundary := JS.lastIndexOf truncatedRemaining separator in
        if 0 <? lastRequestBoundary then
          summary ++ JS.slice truncatedRemaining 0 lastRequestBoundary
          ++ notice_some
        else summary ++ truncatedRemaining ++ notice_context.

(** The room left for request sections once the text before the first
    separator, of [e] characters, and 50 characters for the notice are set
    aside. *)
Definition window (maxTokens : Z) (e : nat) : nat :=
  Z.to_nat (maxTokens * 4 - Z.of_nat e - 50).

(** How a truncated document continues after the text before the first
    separator, which is at position [e] of [context]: with a part [middle] of
    the rest of [context] and a [notice].  Either there is no room and
    [middle] is empty; or [middle] ends right before the last separator that
    lies within the window, other than the first; or there is no such
    separator and [middle] is the whole window. *)
Definition truncation_shape (maxTokens : Z) (context : str) (e : nat)
    (middle notice : str) : Prop :=
  let w := window maxTokens e in
  let rest := drop e context in
  (w = 0%nat ∧ middle = [] ∧ notice = notice_details)
  ∨ (∃ k, (0 < k)%nat ∧ (k + length separator <= w)%nat ∧
          middle = take k rest ∧
          JS.startsWith (drop k rest) separator = true ∧
          (∀ j, (k < j)%nat →
                (j + length separator <= Nat.min w (length rest))%nat →
                JS.startsWith (drop j rest) separator = false) ∧
          notice = notice_some)
  ∨ ((0 < w)%nat ∧ middle = take w rest ∧
     (∀ j, (0 < j)%nat →
           (j + length separator <= Nat.min w (length rest))%nat →
           JS.startsWith (drop j rest) separator = false) ∧
     notice = notice_context).

(** [m.set(k, (m.get(k) || 0) + 1)] on a [Map] in insertion order. *)
Fixpoint count_up {K} (eqb : K → K → bool) (m : list (K * Z)) (k : K)
  : list (K * Z) :=
  match m with
  | [] => [(k, 1)]
  | (k', c) :: rest =>
      if eqb k' k then (k', c + 1) :: rest
      else (k', c) :: count_up eqb rest k
  end.

(** [entries.sort((a, b) => a[0] - b[0])] *)
Fixpoint insert_by_key (e : Z * Z) (l : list (Z * Z)) : list (Z * Z) :=
  match l with
  | [] => [e]
  | e' :: rest =>
      if fst e <? fst e' then e :: l else e' :: insert_by_key e rest
  end.

Definition sort_by_key (l : list (Z * Z)) : list (Z * Z) :=
  fold_right insert_by_key [] l.

Definition count_if {A} (f : A → bool) (l : list A) : Z :=
  Z.of_nat (length (List.filter f l)).

Section WithFormat.

(** [formatDuration] and [formatBytes] of [format.ts]. *)
Variable formatDuration : Q → str.
Variable formatBytes : Z → str.
(** [JSON.parse], and [JSON.stringify(_, null, 2)]. *)
Variable JSON_parse : str → option JSON.
Variable JSON_stringify : JSON → str.

Definition buildSummarySection (requests : list SanitizedRequest) : str :=
  let methods :=
    fold_left (λ m req, count_up JS.str_eqb m (s_method req)) requests [] in
  let statusCodes :=
    fold_left (λ m req, count_up Z.eqb m (s_status req)) requests [] in
  let totalDuration := fold_left (λ t req, (t + s_duration req)%Q) requests 0%Q in
  let totalSize := fold_left (λ t req, t + s_responseBodySize req) requests 0 in
  let graphqlCount := count_if s_isGraphQL requests in
  let websocketCount := count_if s_isWebSocket requests in
  let errorCount := count_if (λ req, 400 <=? s_status req) requests in
  let methodsStr :=
    JS.join (lit ", ")
      (map (λ mc, fst mc ++ lit ": " ++ JS.Number_toString (snd mc)) methods) in
  let statusStr :=
    JS.join (lit ", ")
      (map (λ sc, JS.Number_toString (fst sc) ++ lit ": "
                  ++ JS.Number_toString (snd sc))
           (sort_by_key statusCodes)) in
  let summary :=
    lit "# Request Summary" ++ JS.nl ++ JS.nl
    ++ lit "- **Total Requests**: "
    ++ JS.Number_toString (Z.of_nat (length requests)) ++ JS.nl
    ++ lit "- **Methods**: " ++ methodsStr ++ JS.nl
    ++ lit "- **Status Codes**: " ++ statusStr ++ JS.nl
    ++ lit "- **Total Duration**: " ++ formatDuration totalDuration ++ JS.nl
    ++ lit "- **Total Response Size**: " ++ formatBytes totalSize in
  let summary :=
    if 0 <? errorCount
    then summary ++ JS.nl ++ lit "- **Errors**: " ++ JS.Number_toString errorCount
    else summary in
  let summary :=
    if 0 <? graphqlCount
    then summary ++ JS.nl ++ lit "- **GraphQL Requests**: "
         ++ JS.Number_toString graphqlCount
    else summary in
  let summary :=
    if 0 <? websocketCount
    then summary ++ JS.nl ++ lit "- **WebSocket Connections**: "
         ++ JS.Number_toString websocketCount
    else summary in
  summary.

(** Get code language hint based on content type. *)
Definition getBodyLanguage (contentType : str) : str :=
  if negb (JS.truthy contentType) then []
  else
    let ct := JS.toLowerCase contentType in
    if JS.includes ct (lit "json") then lit "json"
    else if JS.includes ct (lit "xml") then lit "xml"
    else if JS.includes ct (lit "html") then lit "html"
    else if JS.includes ct (lit "javascript") then lit "javascript"
    else if JS.includes ct (lit "css") then lit "css"
    else if JS.includes ct (lit "graphql") then lit "graphql"
    else [].

Definition MAX_BODY_LENGTH : Z := 10000.

(** Format and potentially truncate body content. *)
Definition formatBody (body : str) (originalSize : Z) : str :=
  let body :=
    match JSON_parse body with
    | Some parsed => JSON_stringify parsed
    | None => body
    end in
  if MAX_BODY_LENGTH <? Z.of_nat (length body) then
    JS.slice body 0 MAX_BODY_LENGTH ++ JS.nl ++ JS.nl
    ++ lit "... [Truncated - original size: " ++ formatBytes originalSize
    ++ lit "]"
  else body.

Definition headerLines (headers : Headers) : list str :=
  map (λ kv, fst kv ++ lit ": " ++ snd kv) headers.

(** Build section for a single request. *)
Definition buildRequestSection (request : SanitizedRequest) (index : Z) : str :=
  let lines :=
    [ lit "# Request " ++ JS.Number_toString index ++ lit ": "
      ++ s_method request ++ lit " " ++ s_url request;
      [];
      lit "## Basic Info";
      lit "- **Status**: " ++ JS.Number_toString (s_status request) ++ lit " "
      ++ s_statusText request;
      lit "- **Duration**: " ++ formatDuration (s_duration request);
      lit "- **Response Size**: " ++ formatBytes (s_responseBodySize request) ]
    ++ (if s_isGraphQL request then [lit "- **Type**: GraphQL"] else [])
    ++ (if s_isWebSocket request then [lit "- **Type**: WebSocket"] else [])
    ++ [ [] ]
    ++ (match s_requestHeaders request with
        | [] => []
        | reqHeaders =>
            [lit "## Request Headers"; lit "```"] ++ headerLines reqHeaders
            ++ [lit "```"; []]
        end)
    ++ (match s_requestBody request with
        | Some (c :: b) =>
            let bodyLanguage :=
              getBodyLanguage
                (default [] (JS.record_get (s_requestHeaders request)
                                           (lit "content-type"))) in
            [ lit "## Request Body";
              lit "```" ++ bodyLanguage;
              formatBody (c :: b) (s_requestBodySize request);
              lit "```";
              [] ]
        | _ => []
        end)
    ++ (match s_responseHeaders request with
        | [] => []
        | resHeaders =>
            [lit "## Response Headers"; lit "```"] ++ headerLines resHeaders
            ++ [lit "```"; []]
        end)
    ++ (match s_responseBody request with
        | Some (c :: b) =>
            let bodyLanguage := getBodyLanguage (s_responseMimeType request) in
            [ lit "## Response Body";
              lit "```" ++ bodyLanguage;
              formatBody (c :: b) (s_responseBodySize request);
              lit "```" ]
        | _ => []
        end) in
  JS.join JS.nl lines.

(** The individual request sections, numbered from 1. *)
Fixpoint requestSections (requests : list SanitizedRequest) (index : Z)
  : list str :=
  match requests with
  | [] => []
  | r :: rest => buildRequestSection r index :: requestSections rest (index + 1)
  end.

(** Build context string from sanitized requests. *)
Definition buildContext (requests : list SanitizedRequest) : str :=
  match requests with
  | [] => lit "No requests provided."
  | _ =>
      let sections := buildSummarySection requests :: requestSections requests 1 in
      let context := JS.join separator sections in
      let estimatedTokens := estimateTokenCount context in
      if MAX_CONTEXT_TOKENS <? estimatedTokens
      then truncateContext context MAX_CONTEXT_TOKENS
      else context
  end.

End WithFormat.

End Context.

(** ** Replay executor ([lib/network/replay.ts]) *)

Module Replay.

Record ReplayOptions := {
  o_method : str;
  o_url : str;
  o_headers : Headers;
  o_body : option str
}.

Record ReplayResult := {
  success : bool;
  request : option NetworkRequest;
  error : option str
}.

(** Headers that should not be set manually (browser-controlled). *)
Definition FORBIDDEN_HEADERS : list str :=
  map lit
    [ "accept-charset"; "accept-encoding"; "access-control-request-headers";
      "access-control-request-method"; "connection"; "content-length";
      "cookie"; "cookie2"; "date"; "dnt"; "expect"; "host"; "keep-alive";
      "origin"; "referer"; "te"; "trailer"; "transfer-encoding"; "upgrade";
      "via" ]%string.

(** [FORBIDDEN_HEADERS.has(k)] *)
Definition is_forbidden (k : str) : bool :=
  existsb (JS.str_eqb k) FORBIDDEN_HEADERS.

(** The test of [filterHeaders] on one header name. *)
Definition may_send (key : str) : bool :=
  let lowerKey := JS.toLowerCase key in
  negb (is_forbidden lowerKey) && negb (JS.startsWith lowerKey (lit "sec-")).

(** Filter out headers that cannot be set manually. *)
Definition filterHeaders (headers : Headers) : Headers :=
  fold_left
    (λ filtered kv,
       if may_send (fst kv) then JS.record_set filtered (fst kv) (snd kv)
       else filtered)
    headers [].

(** The second argument of [fetch]. *)
Record RequestInit := {
  init_method : str;
  init_headers : Headers;
  init_body : option str;
  init_redirect : str;
  init_credentials : str
}.

(** A response: [text] is the outcome of [response.text()]; [headers] lists
    the header entries as [Headers.forEach] yields them. *)
Record Response := {
  resp_status : Z;
  resp_statusText : str;
  resp_headers : Headers;
  resp_text : Completion str
}.

(** An outbound call: the two arguments of [fetch]. *)
Definition FetchCall : Type := str * RequestInit.

(** Does the method carry a body?
    [["POST", "PUT", "PATCH"].includes(method.toUpperCase())] *)
Definition carries_body (method_ : str) : bool :=
  existsb (JS.str_eqb (JS.toUpperCase method_))
          [lit "POST"; lit "PUT"; lit "PATCH"].

Definition fetchOptions (options : ReplayOptions) : RequestInit :=
  {| init_method := o_method options;
     init_headers := filterHeaders (o_headers options);
     init_body := if carries_body (o_method options) then o_body options else None;
     init_redirect := lit "follow";
     init_credentials := lit "same-origin" |}.

Definition parseResponseHeaders (headers : Headers) : Headers :=
  fold_left (λ result kv, JS.record_set result (fst kv) (snd kv)) headers [].

(** The numbers that the literals [0.8] and [0.2] denote: the nearest
    doubles. *)
Definition double_0_8 : Q := 3602879701896397 # 4503599627370496.
Definition double_0_2 : Q := 3602879701896397 # 18014398509481984.

Section WithHost.

(** Does [new URL(url)] succeed? *)
Variable URL_parses : str → bool.
(** [fetch(url, init)]: the response, or the value the promise rejects with. *)
Variable fetch : str → RequestInit → Completion Response.
(** [JSON.parse] *)
Variable JSON_parse : str → option JSON.
(** [new TextEncoder().encode(s).length] *)
Variable byteLength : str → Z.
(** The subtraction and the multiplication of the host on numbers, in binary
    floating point: the exact result rounded to a double. *)
Variable number_sub : Q → Q → Q.
Variable number_mul : Q → Q → Q.

Definition has_key (k : str) (members : list (str * JSON)) : bool :=
  existsb (λ kv, JS.str_eqb (fst kv) k) members.

(** Simple GraphQL detection for replayed requests.  The [in] operator
    throws on a value that is not an object, which the [catch] turns into
    [false]. *)
Definition isGraphQLRequest (url_ : str) (body : option str) : bool :=
  if JS.includes url_ (lit "/graphql") then true
  else
    match body with
    | Some (c :: b) =>
        match JSON_parse (c :: b) with
        | Some (JObject members) =>
            has_key (lit "query") members || has_key (lit "mutation") members
        | _ => false
        end
    | _ => false
    end.

(** The clock and identifier readings of one call: [performance.now()] before
    and after the fetch, [Date.now()] and [generateId()]. *)
Record Readings := {
  startTime : Q;
  endTime : Q;
  now : Z;
  newId : str
}.

(** [replayRequest]: the result, and the outbound calls it made. *)
Definition replayRequest (env : Readings) (options : ReplayOptions)
  : ReplayResult * list FetchCall :=
  if negb (URL_parses (o_url options)) then
    ({| success := false; request := None; error := Some (lit "Invalid URL") |},
     [])
  else
    let init := fetchOptions options in
    let outcome :=
      response ← fetch (o_url options) init;
      responseText ← resp_text response;
      mret (response, responseText) in
    let result :=
      match outcome with
      | Normal (response, responseText) =>
          let duration_ := number_sub (endTime env) (startTime env) in
          let timing_ :=
            {| blocked := 0; dns := 0; connect := 0; ssl := 0; send := 0;
               wait := number_mul duration_ double_0_8;
               receive := number_mul duration_ double_0_2 |} in
          let contentType :=
            default [] (JS.record_get (resp_headers response)
                                      (lit "content-type")) in
          let replayedRequest :=
            {| id := newId env;
               timestamp := now env;
               method := JS.toUpperCase (o_method options);
               url := o_url options;
               requestHeaders := o_headers options;
               requestBody := o_body options;
               requestBodySize :=
                 match o_body options with
                 | Some (c :: b) => byteLength (c :: b)
                 | _ => 0
                 end;
               status := resp_status response;
               statusText := resp_statusText response;
               responseHeaders := parseResponseHeaders (resp_headers response);
               responseBody := Some responseText;
               responseBodySize := byteLength responseText;
               responseMimeType := contentType;
               timing := timing_;
               duration := duration_;
               isGraphQL := isGraphQLRequest (o_url options) (o_body options);
               isWebSocket := false;
               isReplayed := true;
               resourceType := lit "xhr";
               hasFullResponseBody := true;
               getFullResponseBody := None |} in
          {| success := true; request := Some replayedRequest; error := None |}
      | Throw e =>
          let errorMessage :=
            match e with
            | ErrorObject message => message
            | OtherValue => lit "Request failed"
            end in
          if JS.includes errorMessage (lit "Failed to fetch") then
            {| success := false; request := None;
               error := Some (lit "Request blocked by CORS or network error. Try from a page on the same domain.") |}
          else {| success := false; request := None; error := Some errorMessage |}
      end in
    (result, [(o_url options, init)]).

End WithHost.

(** Create [ReplayOptions] from an existing [NetworkRequest]. *)
Definition createReplayOptions (request : NetworkRequest) : ReplayOptions :=
  {| o_method := method request;
     o_url := url request;
     o_headers := requestHeaders request;
     o_body := requestBody request |}.

End Replay.

(** ** Sample data for the examples *)

Module Sample.

Definition noTiming : RequestTiming :=
  {| blocked := 0; dns := 0; connect := 0; ssl := 0;
     send := 0; wait := 0; receive := 0 |}.

(** A captured [GET] exchange with the given id and URL, without headers or
    bodies. *)
Definition request (i url_ : string) : NetworkRequest :=
  {| id := lit i;
     timestamp := 0;
     method := lit "GET";
     url := lit url_;
     requestHeaders := [];
     requestBody := None;
     requestBodySize := 0;
     status := 200;
     statusText := lit "OK";
     responseHeaders := [];
     responseBody := None;
     responseBodySize := 0;
     responseMimeType := [];
     timing := noTiming;
     duration := 0;
     isGraphQL := false;
     isWebSocket := false;
     isReplayed := false;
     resourceType := lit "fetch";
     hasFullResponseBody := true;
     getFullResponseBody := None |}.

Definition rule (pattern_ replacement_ : string) : SanitizationRule :=
  Sanitizer.createSanitizationRule (lit "rule") (lit "custom") (lit pattern_)
    (lit replacement_).

(** The replay of a login request. *)
Definition login : Replay.ReplayOptions :=
  {| Replay.o_method := lit "POST";
     Replay.o_url := lit "https://api.example.com/login";
     Replay.o_headers := [(lit "Cookie", lit "x=1"); (lit "X-Test", lit "a")];
     Replay.o_body := Some (lit "{}") |}.

Definition readings : Replay.Readings :=
  {| Replay.startTime := 0; Replay.endTime := 10; Replay.now := 0;
     Replay.newId := lit "replay-1" |}.

(** The login replay with a header named [__proto__] supplied as well: the
    headers are the object that [JSON.parse] builds from a text with the two
    members [__proto__] and [X-Test]. *)
Definition protoLogin : Replay.ReplayOptions :=
  {| Replay.o_method := lit "POST";
     Replay.o_url := lit "https://api.example.com/login";
     Replay.o_headers := [(JS.proto_key, lit "x"); (lit "X-Test", lit "a")];
     Replay.o_body := Some (lit "{}") |}.

(** A captured [POST] exchange that carries a token in a request header, in
    the request body and in the URL. *)
Definition tokenRequest : NetworkRequest :=
  {| id := lit "7";
     timestamp := 0;
     method := lit "POST";
     url := lit "https://a.example/?token=abc";
     requestHeaders :=
       [(lit "Authorization", lit "Bearer abc"); (lit "X-Test", lit "a")];
     requestBody := Some (lit "token=abc");
     requestBodySize := 9;
     status := 200;
     statusText := lit "OK";
     responseHeaders := [(lit "content-type", lit "text/plain")];
     responseBody := Some (lit "ok abc");
     responseBodySize := 6;
     responseMimeType := lit "text/plain";
     timing := noTiming;
     duration := 0;
     isGraphQL := false;
     isWebSocket := false;
     isReplayed := false;
     resourceType := lit "fetch";
     hasFullResponseBody := true;
     getFullResponseBody := None |}.

(** A sanitized [GET] exchange with the given URL, without headers or
    bodies, of duration and size zero. *)
Definition sanitized (url_ : str) : Sanitizer.SanitizedRequest :=
  {| Sanitizer.s_id := lit "1";
     Sanitizer.s_timestamp := 0;
     Sanitizer.s_method := lit "GET";
     Sanitizer.s_url := url_;
     Sanitizer.s_status := 200;
     Sanitizer.s_statusText := lit "OK";
     Sanitizer.s_duration := 0;
     Sanitizer.s_requestHeaders := [];
     Sanitizer.s_requestBody := None;
     Sanitizer.s_requestBodySize := 0;
     Sanitizer.s_responseHeaders := [];
     Sanitizer.s_responseBody := None;
     Sanitizer.s_responseBodySize := 0;
     Sanitizer.s_responseMimeType := [];
     Sanitizer.s_isGraphQL := false;
     Sanitizer.s_isWebSocket := false |}.

(** A URL of 200,000 characters, as a [data:] URL or a long query string
    may be. *)
Definition longUrl : str := repeat "a"%char (Z.to_nat 200000).

(** [formatDuration] and [formatBytes] on the arguments for which
    [format.ts] prints a whole number: a duration below one second, which is
    rounded to the nearest millisecond, and a size below 1024 bytes. *)
Definition formatDuration (ms : Q) : str :=
  JS.Number_toString (Qfloor (ms + (1 # 2))) ++ lit "ms".
Definition formatBytes (bytes : Z) : str :=
  if bytes =? 0 then lit "0 B" else JS.Number_toString bytes ++ lit " B".

(** The summary section and the request section of [[sanitized url_]]. *)
Definition summaryText : str :=
  lit "# Request Summary" ++ JS.nl ++ JS.nl
  ++ lit "- **Total Requests**: 1" ++ JS.nl
  ++ lit "- **Methods**: GET: 1" ++ JS.nl
  ++ lit "- **Status Codes**: 200: 1" ++ JS.nl
  ++ lit "- **Total Duration**: 0ms" ++ JS.nl
  ++ lit "- **Total Response Size**: 0 B".

Definition sectionTail : str :=
  JS.nl ++ JS.nl ++ lit "## Basic Info" ++ JS.nl
  ++ lit "- **Status**: 200 OK" ++ JS.nl
  ++ lit "- **Duration**: 0ms" ++ JS.nl
  ++ lit "- **Response Size**: 0 B" ++ JS.nl.

Definition sectionText (url_ : str) : str :=
  lit "# Request 1: GET " ++ url_ ++ sectionTail.

End Sample.

(** ** Further helpers of [lib/utils/format.ts] *)

Module Format.

(** Truncate URL for display. *)
Definition truncateUrl (url_ : str) (maxLength : Z) : str :=
  if Z.of_nat (length url_) <=? maxLength then url_
  else JS.slice url_ 0 (maxLength - 3) ++ lit "...".

End Format.

(** ** GraphQL operations ([lib/utils/graphql.ts]) *)

Module GraphqlOps.

Record GraphQLOperation := {
  op_query : str;
  operationName : option str;
  variables : option JSON
}.

Inductive OperationType := Query | Mutation | Subscription.

Definition type_text (t : OperationType) : str :=
  match t with
  | Query => lit "query"
  | Mutation => lit "mutation"
  | Subscription => lit "subscription"
  end.

(** Extract operation type from GraphQL query. *)
Definition getGraphQLOperationType (query : str) : option OperationType :=
  let trimmed := JS.trim query in
  if JS.startsWith trimmed (lit "mutation") then Some Mutation
  else if JS.startsWith trimmed (lit "subscription") then Some Subscription
  else if JS.startsWith trimmed (lit "query") || JS.startsWith trimmed (lit "{")
  then Some Query
  else None.

(** [\w] *)
Definition is_word (c : ascii) : bool :=
  let n := nat_of_ascii c in
  JS.is_upper c || JS.is_lower c || ((48 <=? n)%nat && (n <=? 57)%nat)
  || (n =? 95)%nat.

Fixpoint takeWord (s : str) : str :=
  match s with
  | c :: s' => if is_word c then c :: takeWord s' else []
  | [] => []
  end.

(** The text after the first of the three keywords that [query] starts
    with. *)
Definition afterKeyword (query : str) : option str :=
  if JS.startsWith query (lit "query") then Some (drop 5 query)
  else if JS.startsWith query (lit "mutation") then Some (drop 8 query)
  else if JS.startsWith query (lit "subscription") then Some (drop 12 query)
  else None.

(** Extract operation name from GraphQL query: the first group of
    [query.match(/^(?:query|mutation|subscription)\s+(\w+)/)]. *)
Definition getGraphQLOperationName (query : str) : option str :=
  match afterKeyword query with
  | Some (c :: rest) =>
      if JS.is_space c then
        match takeWord (JS.trimStart rest) with
        | [] => None
        | w => Some w
        end
      else None
  | _ => None
  end.

(** [s.endsWith(p)] *)
Definition endsWith (s p : str) : bool := JS.startsWith (rev s) (rev p).

Definition quote : ascii := ascii_of_nat 34.
Definition apostrophe : ascii := ascii_of_nat 39.
Definition backslash : ascii := ascii_of_nat 92.
Definition tab : ascii := ascii_of_nat 9.
Definition linefeed : ascii := ascii_of_nat 10.

(** [indent.repeat(n)] with [indent = "  "]: a negative count throws a
    [RangeError], whose message is that of V8. *)
Definition indent_repeat (n : Z) : Completion str :=
  if n <? 0
  then Throw (ErrorObject (lit "Invalid count value: " ++ JS.Number_toString n))
  else Normal (concat (repeat (lit "  ") (Z.to_nat n))).

(** The variables of the loop of [formatGraphQLQuery]. *)
Record FormatState := {
  formatted : str;
  indentLevel : Z;
  inString : bool;
  stringChar : option ascii
}.

(** One iteration of the loop, on the character [char] that follows
    [prevChar] ([None] at the start of the query). *)
Definition formatStep (prevChar : option ascii) (char : ascii) (st : FormatState)
  : Completion FormatState :=
  if (Ascii.eqb char quote || Ascii.eqb char apostrophe)
     && negb (bool_decide (prevChar = Some backslash))
  then
    let '(inString', stringChar') :=
      if negb (inString st) then (true, Some char)
      else if bool_decide (Some char = stringChar st)
           then (false, stringChar st)
           else (inString st, stringChar st) in
    Normal {| formatted := formatted st ++ [char];
              indentLevel := indentLevel st;
              inString := inString';
              stringChar := stringChar' |}
  else if inString st then
    Normal {| formatted := formatted st ++ [char];
              indentLevel := indentLevel st;
              inString := inString st;
              stringChar := stringChar st |}
  else if Ascii.eqb char "{" then
    let level := indentLevel st + 1 in
    pad ← indent_repeat level;
    mret {| formatted := (formatted st ++ lit " {" ++ JS.nl) ++ pad;
            indentLevel := level;
            inString := inString st;
            stringChar := stringChar st |}
  else if Ascii.eqb char "}" then
    let level := indentLevel st - 1 in
    pad ← indent_repeat level;
    mret {| formatted := formatted st ++ (JS.nl ++ pad ++ lit "}");
            indentLevel := level;
            inString := inString st;
            stringChar := stringChar st |}
  else if Ascii.eqb char linefeed then Normal st
  else if Ascii.eqb char " " || Ascii.eqb char tab then
    if JS.truthy (formatted st)
       && negb (endsWith (formatted st) (lit " "))
       && negb (endsWith (formatted st) JS.nl)
    then Normal {| formatted := formatted st ++ lit " ";
                   indentLevel := indentLevel st;
                   inString := inString st;
                   stringChar := stringChar st |}
    else Normal st
  else
    Normal {| formatted := formatted st ++ [char];
              indentLevel := indentLevel st;
              inString := inString st;
              stringChar := stringChar st |}.

Fixpoint formatLoop (prevChar : option ascii) (query : str) (st : FormatState)
  : Completion FormatState :=
  match query with
  | [] => mret st
  | char :: rest =>
      st' ← formatStep prevChar char st;
      formatLoop (Some char) rest st'
  end.

(** Format GraphQL query with proper indentation. *)
Definition formatGraphQLQuery (query : str) : Completion str :=
  st ← formatLoop None query
         {| formatted := []; indentLevel := 0; inString := false;
            stringChar := None |};
  mret (JS.trim (formatted st)).

(** Does some closing brace of [query] come without an opening one before
    it, [level] braces being open at the start? *)
Fixpoint closes_unopened (level : nat) (query : str) : bool :=
  match query with
  | [] => false
  | c :: rest =>
      if Ascii.eqb c "{" then closes_unopened (S level) rest
      else if Ascii.eqb c "}" then
        match level with
        | O => true
        | S l => closes_unopened l rest
        end
      else closes_unopened level rest
  end.

(** A query without string literals: no double quote and no apostrophe. *)
Definition quote_free (query : str) : Prop :=
  Forall (λ c, c ≠ quote ∧ c ≠ apostrophe) query.

(** The text after a run of word characters does not start with one. *)
Definition word_ends (rest : str) : Prop :=
  match rest with
  | [] => True
  | c :: _ => is_word c = false
  end.

Section WithParser.

Variable JSON_parse : str → option JSON.

(** Parse GraphQL operation from request body. *)
Definition parseGraphQLOperation (body : str) : option GraphQLOperation :=
  let parsed := Classifier.safeJsonParse JSON_parse body in
  if negb (Json.truthy parsed) || negb (Json.is_object parsed) then None
  else
    match Json.as_string (Json.get parsed (lit "query")) with
    | None => None
    | Some q =>
        Some {| op_query := q;
                operationName :=
                  Json.as_string (Json.get parsed (lit "operationName"));
                variables :=
                  match Json.get parsed (lit "variables") with
                  | Some (JArray items) => Some (JArray items)
                  | Some (JObject members) => Some (JObject members)
                  | _ => None
                  end |}
    end.

(** Get a summary of GraphQL operation for display. *)
Definition getGraphQLSummary (request : NetworkRequest) : option str :=
  match requestBody request with
  | Some (c :: b) =>
      match parseGraphQLOperation (c :: b) with
      | None => None
      | Some operation =>
          let type := getGraphQLOperationType (op_query operation) in
          let name_ :=
            match operationName operation with
            | Some (n :: ns) => Some (n :: ns)
            | _ => getGraphQLOperationName (op_query operation)
            end in
          match type, name_ with
          | Some t, Some n => Some (type_text t ++ lit " " ++ n)
          | Some t, None => Some (type_text t)
          | None, _ => Some (lit "GraphQL")
          end
      end
  | _ => None
  end.

End WithParser.

End GraphqlOps.

(** ** Exclusion patterns and the capture handler
       ([lib/network/parser.ts], [lib/network/capture.ts]) *)

Module Capture.

(** The characters of the class [[.+^${}()|[\]\\]]. *)
Definition glob_special (c : ascii) : bool := Fragment.is_char c ".+^${}()|[]\".

(** The three replacements that turn a glob-like pattern into a regular
    expression: escape the special characters, then [*] becomes [.*], then
    [?] becomes [.]. *)
Definition escapeSpecial (pattern_ : str) : str :=
  flat_map (λ c, if glob_special c then [GraphqlOps.backslash; c] else [c])
           pattern_.

Definition starToAny (pattern_ : str) : str :=
  flat_map (λ c, if Ascii.eqb c "*" then lit ".*" else [c]) pattern_.

Definition questionToDot (pattern_ : str) : str :=
  flat_map (λ c, if Ascii.eqb c "?" then lit "." else [c]) pattern_.

Definition globRegex (pattern_ : str) : str :=
  questionToDot (starToAny (escapeSpecial pattern_)).

Inductive CaptureScope := ScopePage | ScopePageIframes | ScopeAll.

Section WithHost.

(** The engine compiles a pattern with the flag [i] as it does with [gi]: the
    flags do not bear on the syntax, and [test] on a fresh expression starts
    at the beginning either way. *)
Context {E : RegExpEngine}.

(** One pattern of the loop of [matchesExclusionPattern]: as a regular
    expression first, as a glob if that does not compile, skipped if neither
    does. *)
Definition patternMatches (url_ pattern_ : str) : bool :=
  match compile pattern_ with
  | Some regex => test regex url_
  | None =>
      match compile (globRegex pattern_) with
      | Some regex => test regex url_
      | None => false
      end
  end.

(** Check if URL matches any exclusion pattern. *)
Fixpoint matchesExclusionPattern (url_ : str) (patterns : list str) : bool :=
  match patterns with
  | [] => false
  | pattern_ :: rest =>
      if patternMatches url_ pattern_ then true
      else matchesExclusionPattern url_ rest
  end.

(** [new URL(url).origin], [None] when the constructor throws. *)
Variable URL_origin : str → option str.
Variable byteLength : str → Z.
Variable JSON_parse : str → option JSON.

(** Get the origin of a URL. *)
Definition getOrigin (url_ : str) : str := default [] (URL_origin url_).

(** Check if a request should be captured based on scope. *)
Definition shouldCaptureRequest (entry : Parser.HarEntry) (scope : CaptureScope)
    (pageUrl : str) : bool :=
  let pageOrigin := getOrigin pageUrl in
  let requestOrigin := getOrigin (Parser.request_url entry) in
  match scope with
  | ScopePage => JS.str_eqb requestOrigin pageOrigin
  | ScopePageIframes => JS.str_eqb requestOrigin pageOrigin
  | ScopeAll => true
  end.

(** The state of one capture: the closure variables of [startCapture] and
    its options. *)
Record CaptureState := {
  isCapturing : bool;
  pageUrl : str;
  scope : CaptureScope;
  exclusionPatterns : list str
}.

(** [handleRequestFinished], with the store's [addRequest] as its
    [onRequest] callback, as [useNetworkCapture] installs it: the record
    handed to the callback, if any. *)
Definition capturedRequest (cap : CaptureState) (newId : str)
    (entry : Parser.HarEntry) : option NetworkRequest :=
  if negb (isCapturing cap) then None
  else if matchesExclusionPattern (Parser.request_url entry)
            (exclusionPatterns cap)
  then None
  else if JS.truthy (pageUrl cap)
          && negb (shouldCaptureRequest entry (scope cap) (pageUrl cap))
  then None
  else Some (Parser.parseHarEntry byteLength JSON_parse newId entry).

Definition handleRequestFinished (cap : CaptureState) (newId : str)
    (entry : Parser.HarEntry) (store : Store.RequestsState)
  : Store.RequestsState :=
  match capturedRequest cap newId entry with
  | Some networkRequest => Store.addRequest networkRequest store
  | None => store
  end.

End WithHost.

End Capture.

(** ** Settings store: rules and exclusion patterns ([stores/settings.ts]) *)

Module Settings.

(** [Partial<SanitizationRule>] *)
Record RuleUpdates := {
  u_id : option str;
  u_name : option str;
  u_pattern : option str;
  u_replacement : option str;
  u_enabled : option bool;
  u_isDefault : option bool
}.

(** [{ ...r, ...updates }] *)
Definition applyUpdates (r : SanitizationRule) (updates : RuleUpdates)
  : SanitizationRule :=
  {| rule_id := default (rule_id r) (u_id updates);
     name := default (name r) (u_name updates);
     pattern := default (pattern r) (u_pattern updates);
     replacement := default (replacement r) (u_replacement updates);
     enabled := default (enabled r) (u_enabled updates);
     isDefault := default (isDefault r) (u_isDefault updates) |}.

(** [addSanitizationRule]; [newId] is the value of [generateId()]. *)
Definition addSanitizationRule (newId : str) (rule : SanitizationRule)
    (rules : list SanitizationRule) : list SanitizationRule :=
  rules ++ [ {| rule_id := newId; name := name rule; pattern := pattern rule;
                replacement := replacement rule; enabled := enabled rule;
                isDefault := false |} ].

Definition updateSanitizationRule (i : str) (updates : RuleUpdates)
    (rules : list SanitizationRule) : list SanitizationRule :=
  map (λ r, if JS.str_eqb (rule_id r) i then applyUpdates r updates else r) rules.

Definition removeSanitizationRule (i : str) (rules : list SanitizationRule)
  : list SanitizationRule :=
  List.filter (λ r, negb (JS.str_eqb (rule_id r) i) || isDefault r) rules.

(** [new Map(rules.map((r) => [r.id, r])).get(i)]: the last rule with the
    id. *)
Fixpoint ruleMap_get (rules : list SanitizationRule) (i : str)
  : option SanitizationRule :=
  match rules with
  | [] => None
  | r :: rest =>
      match ruleMap_get rest i with
      | Some r' => Some r'
      | None => if JS.str_eqb (rule_id r) i then Some r else None
      end
  end.

(** [ruleIds.map((id) => ruleMap.get(id)).filter(Boolean)] *)
Definition reorderSanitizationRules (ruleIds : list str)
    (rules : list SanitizationRule) : list SanitizationRule :=
  flat_map (λ i, match ruleMap_get rules i with
                 | Some r => [r]
                 | None => []
                 end) ruleIds.

Definition addExclusionPattern (pattern_ : str) (patterns : list str)
  : list str := patterns ++ [pattern_].

Definition removeExclusionPattern (pattern_ : str) (patterns : list str)
  : list str :=
  List.filter (λ p, negb (JS.str_eqb p pattern_)) patterns.

End Settings.

(* ================================================================== *)
(** * Part II: properties *)
(* ================================================================== *)
(** ** Array slices *)

Section SliceFacts.

Context {A : Type}.
Implicit Types l : list A.

Lemma slice_prefix l k :
  0 <= k <= Z.of_nat (length l) → JS.slice l 0 k = take (Z.to_nat k) l.
Proof.
  intros Hk. unfold JS.slice, JS.rel_index.
  destruct (0 <? 0) eqn:E0; [apply Z.ltb_lt in E0; lia|].
  destruct (k <? 0) eqn:Ek; [apply Z.ltb_lt in Ek; lia|].
  rewrite (Z.min_l 0) by lia. rewrite (Z.min_l k) by lia.
  simpl. rewrite Z.sub_0_r. reflexivity.
Qed.

Lemma slice_from_suffix l m :
  0 < m <= Z.of_nat (length l) →
  JS.slice_from l (- m) = drop (Z.to_nat (Z.of_nat (length l) - m)) l.
Proof.
  intros Hm. unfold JS.slice_from, JS.slice, JS.rel_index.
  destruct (- m <? 0) eqn:Em; [|apply Z.ltb_ge in Em; lia].
  destruct (Z.of_nat (length l) <? 0) eqn:El; [apply Z.ltb_lt in El; lia|].
  rewrite Z.max_l by lia. rewrite Z.min_l by lia.
  apply take_ge. rewrite length_drop. lia.
Qed.

(** With a bound of zero, [slice(-0)] is [slice(0)]: nothing is dropped. *)
Lemma slice_from_zero l : JS.slice_from l (- 0) = l.
Proof.
  unfold JS.slice_from, JS.slice, JS.rel_index.
  change (- 0) with 0. change (0 <? 0) with false.
  destruct (Z.of_nat (length l) <? 0) eqn:El; [apply Z.ltb_lt in El; lia|].
  rewrite Z.min_l by lia. rewrite Z.min_l by lia.
  rewrite Z.sub_0_r, Nat2Z.id. apply firstn_all.
Qed.

End SliceFacts.

(** ** Capture store *)

Section StoreFacts.

Import Store.

Lemma without_empty (s : gset str) : without s ∅ = s.
Proof.
  unfold without. apply set_eq. intros x. rewrite elem_of_filter.
  split; [tauto|]. intros Hx. split; [apply not_elem_of_empty | exact Hx].
Qed.

Lemma elem_of_without (s removedIds : gset str) i :
  i ∈ without s removedIds ↔ i ∈ s ∧ i ∉ removedIds.
Proof. unfold without. rewrite elem_of_filter. tauto. Qed.

Lemma elem_of_idSet rs i : i ∈ idSet rs ↔ ∃ r, r ∈ rs ∧ id r = i.
Proof.
  unfold idSet. rewrite elem_of_list_to_set, list_elem_of_fmap.
  split; intros (r & H1 & H2); exists r; auto.
Qed.

(** One admission on an un-paused store with a positive bound. *)
Lemma addRequest_unpaused r s :
  isPaused s = false → 0 < maxRequests s →
  let c := Z.to_nat (maxRequests s) in
  let all := requests s ++ [r] in
  let k := Store.excess (length all) c in
  requests (addRequest r s) = drop k all ∧
  favorites (addRequest r s) = without (favorites s) (idSet (take k all)) ∧
  selected (addRequest r s) = without (selected s) (idSet (take k all)) ∧
  isPaused (addRequest r s) = false ∧
  maxRequests (addRequest r s) = maxRequests s.
Proof.
  intros Hp Hc c all k. unfold addRequest. rewrite Hp.
  fold all.
  destruct (maxRequests s <? Z.of_nat (length all)) eqn:E.
  - apply Z.ltb_lt in E. simpl.
    rewrite slice_prefix by lia.
    rewrite slice_from_suffix by lia.
    assert (Hk : Z.to_nat (Z.of_nat (length all) - maxRequests s) = k)
      by (unfold k, Store.excess, c; lia).
    rewrite Hk. auto.
  - apply Z.ltb_ge in E. simpl.
    assert (Hk : k = 0%nat) by (unfold k, Store.excess, c; lia).
    rewrite Hk. simpl. unfold idSet. simpl.
    rewrite !without_empty. auto.
Qed.

Lemma admitAll_cons r rs s : admitAll (r :: rs) s = admitAll rs (addRequest r s).
Proof. reflexivity. Qed.

(** A run of admissions on an un-paused store whose sequence is within a
    positive bound [C]: what is kept, and what the side tables lose. *)
Lemma admitAll_unpaused rs : ∀ s,
  isPaused s = false → 0 < maxRequests s →
  (length (requests s) <= Z.to_nat (maxRequests s))%nat →
  let c := Z.to_nat (maxRequests s) in
  let all := requests s ++ rs in
  let k := Store.excess (length all) c in
  requests (admitAll rs s) = drop k all ∧
  favorites (admitAll rs s) ⊆ favorites s ∧
  selected (admitAll rs s) ⊆ selected s ∧
  (∀ x, x ∈ take k all →
        (id x ∉ favorites (admitAll rs s)) ∧ (id x ∉ selected (admitAll rs s))).
Proof.
  induction rs as [|r rs IH]; intros s Hp Hc Hlen c all k.
  - simpl. subst all k c. rewrite app_nil_r. unfold Store.excess.
    replace (length (requests s) - Z.to_nat (maxRequests s))%nat with 0%nat by lia.
    simpl. repeat split; try set_solver.
  - rewrite admitAll_cons.
    destruct (addRequest_unpaused r s Hp Hc) as (Hr & Hf & Hs & Hp1 & Hm1).
    set (s1 := addRequest r s) in *.
    set (d := Store.excess (length (requests s ++ [r])) (Z.to_nat (maxRequests s))) in *.
    assert (Hlen1 : (length (requests s1) <= Z.to_nat (maxRequests s1))%nat).
    { rewrite Hr, Hm1, length_drop. unfold d, Store.excess.
      rewrite length_app. simpl. lia. }
    assert (Hc1 : 0 < maxRequests s1) by lia.
    specialize (IH s1 Hp1 Hc1 Hlen1). simpl in IH.
    destruct IH as (IHr & IHf & IHs & IHe).
    assert (Hall : requests s1 ++ rs = drop d all).
    { rewrite Hr. unfold all.
      replace (requests s ++ r :: rs) with ((requests s ++ [r]) ++ rs)
        by (rewrite <- app_assoc; reflexivity).
      rewrite (drop_app_le (requests s ++ [r]) rs d); [reflexivity|].
      unfold d, Store.excess. lia. }
    assert (Hd : (d <= length all)%nat).
    { unfold d, Store.excess, all. rewrite !length_app. simpl. lia. }
    assert (Hk : (Store.excess (length (requests s1 ++ rs)) (Z.to_nat (maxRequests s1)) + d)%nat = k).
    { rewrite Hall, Hm1, length_drop. unfold k, Store.excess, c.
      unfold d, Store.excess, all in *. rewrite !length_app in *. simpl in *. lia. }
    set (a := Store.excess (length (requests s1 ++ rs)) (Z.to_nat (maxRequests s1))) in *.
    assert (Hsplit : take k all = take d (requests s ++ [r])
                                  ++ take a (requests s1 ++ rs)).
    { rewrite <- Hk, Nat.add_comm, <- (take_drop d all) at 1.
      rewrite take_app_add' by (rewrite length_take; lia).
      rewrite Hall. f_equal. unfold all.
      replace (requests s ++ r :: rs) with ((requests s ++ [r]) ++ rs)
        by (rewrite <- app_assoc; reflexivity).
      apply (take_app_le (requests s ++ [r]) rs d). unfold d, Store.excess. lia. }
    split; [|split; [|split]].
    + rewrite IHr, Hall, drop_drop. f_equal. lia.
    + rewrite Hf in IHf. intros i Hi. apply IHf in Hi.
      apply elem_of_without in Hi. tauto.
    + rewrite Hs in IHs. intros i Hi. apply IHs in Hi.
      apply elem_of_without in Hi. tauto.
    + intros x Hx. rewrite Hsplit in Hx.
      apply elem_of_app in Hx as [Hx|Hx]; [|apply IHe; exact Hx].
      assert (Hid : id x ∈ idSet (take d (requests s ++ [r])))
        by (apply elem_of_idSet; exists x; auto).
      split; intros Hi.
      * apply IHf in Hi. rewrite Hf in Hi.
        apply elem_of_without in Hi as [_ Hi]. exact (Hi Hid).
      * apply IHs in Hi. rewrite Hs in Hi.
        apply elem_of_without in Hi as [_ Hi]. exact (Hi Hid).
Qed.

(** C1.  On an un-paused store with a positive bound [C] that holds at most
    [C] records, after any sequence of admissions that brings the number of
    records admitted so far above [C], the store holds exactly the [C] most
    recent of them, in arrival order, and the id of no evicted record is left
    in the favorites set or in the selected set. *)
Theorem addRequest_fifo_eviction (C : Z) (s : RequestsState)
    (rs : list NetworkRequest) :
  0 < C → isPaused s = false → maxRequests s = C →
  Z.of_nat (length (requests s)) <= C →
  C < Z.of_nat (length (requests s ++ rs)) →
  let all := requests s ++ rs in
  let evicted := take (length all - Z.to_nat C) all in
  let s' := admitAll rs s in
  requests s' = drop (length all - Z.to_nat C) all ∧
  Z.of_nat (length (requests s')) = C ∧
  (∀ r, r ∈ evicted → (id r ∉ favorites s') ∧ (id r ∉ selected s')).
Proof.
  intros HC Hp Hm Hlen Hover all evicted s'.
  destruct (admitAll_unpaused rs s Hp) as (Hr & _ & _ & He); [lia|lia|].
  rewrite Hm in Hr, He. unfold Store.excess in Hr, He.
  split; [exact Hr|]. split; [|exact He].
  unfold s'. rewrite Hr, length_drop. fold all. unfold all in *. lia.
Qed.

(** Three admissions under a bound of two, the first record being a
    favorite and selected. *)
Lemma addRequest_fifo_eviction_witness :
  let s := toggleSelected (lit "a")
             (toggleFavorite (lit "a") (setMaxRequests 2 initial)) in
  let rs := [Sample.request "a" "/1"; Sample.request "b" "/2";
             Sample.request "c" "/3"] in
  requests (admitAll rs s) = drop (length (requests s ++ rs) - Z.to_nat 2)
                                  (requests s ++ rs) ∧
  Z.of_nat (length (requests (admitAll rs s))) = 2 ∧
  (∀ r, r ∈ take (length (requests s ++ rs) - Z.to_nat 2) (requests s ++ rs) →
     (id r ∉ favorites (admitAll rs s)) ∧ (id r ∉ selected (admitAll rs s))).
Proof.
  intros s rs.
  apply (addRequest_fifo_eviction 2 s rs);
    [lia | reflexivity | reflexivity | simpl; lia | simpl; lia].
Defined.

(** With a bound of zero nothing is evicted: [slice(-0)] keeps the whole
    sequence, so the store grows with every admission. *)
Lemma addRequest_zero_bound r s :
  isPaused s = false → maxRequests s = 0 →
  requests (addRequest r s) = requests s ++ [r].
Proof.
  intros Hp Hm. unfold addRequest. rewrite Hp, Hm.
  destruct (0 <? Z.of_nat (length (requests s ++ [r]))) eqn:E; [|reflexivity].
  simpl. apply slice_from_zero.
Qed.

End StoreFacts.

Section StoreInvariant.

Import Store.

Lemma slice_all {A} (l : list A) k :
  Z.of_nat (length l) <= k → JS.slice l 0 k = l.
Proof.
  intros Hk. unfold JS.slice, JS.rel_index.
  change (0 <? 0) with false.
  destruct (k <? 0) eqn:Ek; [apply Z.ltb_lt in Ek; lia|].
  rewrite (Z.min_l 0) by lia. rewrite (Z.min_r k) by lia.
  rewrite Z.sub_0_r, Nat2Z.id. apply firstn_all.
Qed.

Lemma slice_from_all {A} (l : list A) m :
  Z.of_nat (length l) <= m → JS.slice_from l (- m) = l.
Proof.
  intros Hm. unfold JS.slice_from, JS.slice, JS.rel_index.
  destruct (Z.of_nat (length l) <? 0) eqn:El; [apply Z.ltb_lt in El; lia|].
  rewrite Z.min_id.
  destruct (- m <? 0) eqn:Em.
  - rewrite Z.max_r by lia. rewrite Z.sub_0_r, Nat2Z.id. apply firstn_all.
  - apply Z.ltb_ge in Em.
    assert (m = 0) by lia. subst m. assert (length l = 0%nat) by lia.
    destruct l; [reflexivity | discriminate].
Qed.

(** Whatever the bound, a record of the sequence is among the removed ones
    or among the kept ones. *)
Lemma slice_cover {A} (l : list A) (m : Z) (x : A) :
  x ∈ l →
  x ∈ JS.slice l 0 (Z.of_nat (length l) - m) ∨ x ∈ JS.slice_from l (- m).
Proof.
  intros Hx.
  destruct (Z_le_gt_dec m 0) as [Hm|Hm].
  - left. rewrite slice_all by lia. exact Hx.
  - destruct (Z_le_gt_dec m (Z.of_nat (length l))) as [Hl|Hl].
    + rewrite slice_prefix by lia. rewrite slice_from_suffix by lia.
      rewrite <- (take_drop (Z.to_nat (Z.of_nat (length l) - m)) l) in Hx at 1.
      apply elem_of_app in Hx. exact Hx.
    + right. rewrite slice_from_all by lia. exact Hx.
Qed.

Lemma slice_from_subset {A} (l : list A) (m : Z) (x : A) :
  x ∈ JS.slice_from l m → x ∈ l.
Proof.
  unfold JS.slice_from, JS.slice. intros Hx.
  apply (subseteq_drop (Z.to_nat (JS.rel_index (Z.of_nat (length l)) m)) l).
  eapply subseteq_take. exact Hx.
Qed.

(** Trimming a sequence and purging the ids of the removed records keeps the
    side tables within the sequence. *)
Lemma trim_keeps_side_table (l : list NetworkRequest) (m : Z) (tbl : gset str) i :
  (∀ j, j ∈ tbl → ∃ r, r ∈ l ∧ id r = j) →
  i ∈ without tbl (idSet (JS.slice l 0 (Z.of_nat (length l) - m))) →
  ∃ r, r ∈ JS.slice_from l (- m) ∧ id r = i.
Proof.
  intros Htbl Hi. apply elem_of_without in Hi as [Hi Hn].
  destruct (Htbl i Hi) as (r & Hr & Hid).
  destruct (slice_cover l m r Hr) as [Hrem|Hkeep].
  - exfalso. apply Hn. apply elem_of_idSet. exists r. auto.
  - exists r. auto.
Qed.

Lemma present_app_l i (l : list NetworkRequest) r :
  (∃ x, x ∈ l ∧ id x = i) → ∃ x, x ∈ l ++ [r] ∧ id x = i.
Proof. intros (x & Hx & Hid). exists x. split; [apply elem_of_app; auto | exact Hid]. Qed.

Lemma addRequest_side_tables r s :
  side_tables_ok s → side_tables_ok (addRequest r s).
Proof.
  intros [Hf Hs]. unfold addRequest.
  destruct (isPaused s); [split; assumption|].
  destruct (maxRequests s <? Z.of_nat (length (requests s ++ [r]))).
  - split; intros i Hi; simpl in Hi; unfold present; simpl;
      eapply trim_keeps_side_table; try exact Hi;
      intros j Hj; apply present_app_l; [apply Hf | apply Hs]; exact Hj.
  - split; intros i Hi; simpl in Hi; unfold present; simpl;
      apply present_app_l; [apply Hf | apply Hs]; exact Hi.
Qed.

Lemma setMaxRequests_side_tables m s :
  side_tables_ok s → side_tables_ok (setMaxRequests m s).
Proof.
  intros [Hf Hs]. unfold setMaxRequests.
  destruct (m <? Z.of_nat (length (requests s))).
  - split; intros i Hi; simpl in Hi; unfold present; simpl;
      eapply trim_keeps_side_table; try exact Hi; assumption.
  - split; assumption.
Qed.

Lemma removeRequest_side_tables i s :
  side_tables_ok s → side_tables_ok (removeRequest i s).
Proof.
  intros [Hf Hs].
  assert (Hkeep : ∀ j, j ≠ i → present j s → present j (removeRequest i s)).
  { intros j Hne (r & Hr & Hid). exists r. split; [|exact Hid]. simpl.
    apply list_elem_of_In, filter_In. split; [apply list_elem_of_In, Hr|].
    unfold JS.str_eqb. rewrite bool_decide_eq_false_2; [reflexivity|congruence]. }
  split; intros j Hj; simpl in Hj; apply elem_of_difference in Hj as [Hj Hne];
    (apply Hkeep; [set_solver|]); [apply Hf | apply Hs]; exact Hj.
Qed.

Lemma getFilteredRequests_subset s r :
  r ∈ getFilteredRequests s → r ∈ requests s.
Proof.
  unfold getFilteredRequests.
  destruct (negb (JS.truthy (JS.trim (searchQuery s)))); [auto|].
  intros Hr. apply list_elem_of_In, filter_In in Hr as [Hr _].
  apply list_elem_of_In, Hr.
Qed.

Lemma elem_of_toggle (i j : str) (tbl : gset str) :
  j ∈ toggle i tbl ↔ (j ≠ i ∧ j ∈ tbl) ∨ (j = i ∧ i ∉ tbl).
Proof.
  unfold toggle. destruct (decide (i ∈ tbl)) as [Hi|Hi].
  - rewrite elem_of_difference, elem_of_singleton. split.
    + intros [H1 H2]. left. auto.
    + intros [[H1 H2]|[H1 H2]]; [auto | contradiction].
  - rewrite elem_of_union, elem_of_singleton. split.
    + intros [H|H]; [left | right; auto].
      split; [intros ->; contradiction | exact H].
    + intros [[H1 H2]|[H1 H2]]; auto.
Qed.

(** C5, as the store implements it.  Every action keeps the favorites and
    the selected set within the ids of the sequence, provided the ids that a
    toggle or [setSelected] is given are ids of records of the sequence; the
    toggles themselves do not look at the sequence: they flip the membership
    of the id they are given, whether or not a record carries it. *)
Theorem side_tables_preserved (a : Action) (s : RequestsState) :
  side_tables_ok s →
  (targets_present a s → side_tables_ok (step a s)) ∧
  (∀ i j, (j ∈ favorites (toggleFavorite i s)
           ↔ (j ≠ i ∧ j ∈ favorites s) ∨ (j = i ∧ i ∉ favorites s)) ∧
          (j ∈ selected (toggleSelected i s)
           ↔ (j ≠ i ∧ j ∈ selected s) ∨ (j = i ∧ i ∉ selected s))).
Proof.
  intros Hok. split; [|intros i j; split; apply elem_of_toggle].
  intros Ht. destruct Hok as [Hf Hs].
  destruct a; simpl in *.
  - apply addRequest_side_tables. split; assumption.
  - apply removeRequest_side_tables. split; assumption.
  - split; intros j Hj; simpl in Hj; set_solver.
  - split; [exact Hf|]. intros j Hj. simpl in Hj.
    apply elem_of_toggle in Hj as [[_ Hj]|[-> _]]; [apply Hs, Hj | exact Ht].
  - split; [exact Hf|]. intros j Hj. simpl in Hj.
    apply elem_of_idSet in Hj as (r & Hr & Hid).
    exists r. split; [apply getFilteredRequests_subset, Hr | exact Hid].
  - split; [exact Hf|]. intros j Hj. simpl in Hj. set_solver.
  - split; [exact Hf|]. intros j Hj. simpl in Hj.
    apply elem_of_list_to_set in Hj. apply Ht, Hj.
  - split; [|exact Hs]. intros j Hj. simpl in Hj.
    apply elem_of_toggle in Hj as [[_ Hj]|[-> _]]; [apply Hf, Hj | exact Ht].
  - split; [|exact Hs]. intros j Hj. simpl in Hj. set_solver.
  - split; assumption.
  - apply setMaxRequests_side_tables. split; assumption.
  - split; assumption.
Qed.

(** With positive bounds, no action takes the sequence over the bound. *)
Lemma within_capacity_preserved (a : Action) (s : RequestsState) :
  0 < maxRequests s →
  (∀ m, a = SetMaxRequests m → 0 < m) →
  within_capacity s → within_capacity (step a s).
Proof.
  unfold within_capacity. intros Hc Hm Hs. destruct a; simpl; try exact Hs.
  - unfold addRequest. destruct (isPaused s); [exact Hs|].
    destruct (maxRequests s <? Z.of_nat (length (requests s ++ [request])))
      eqn:E; simpl.
    + apply Z.ltb_lt in E. rewrite slice_from_suffix by lia.
      rewrite length_drop. lia.
    + apply Z.ltb_ge in E. exact E.
  - pose proof (List.filter_length_le
                  (λ r, negb (JS.str_eqb (id r) i)) (requests s)). lia.
  - lia.
  - specialize (Hm max eq_refl). unfold setMaxRequests.
    destruct (max <? Z.of_nat (length (requests s))) eqn:E; simpl.
    + apply Z.ltb_lt in E. rewrite slice_from_suffix by lia.
      rewrite length_drop. lia.
    + apply Z.ltb_ge in E. exact E.
Qed.

Lemma initial_side_tables_ok : side_tables_ok initial.
Proof. split; intros i Hi; simpl in Hi; set_solver. Qed.

(** Favoriting a stored record keeps the side tables within the sequence. *)
Lemma side_tables_preserved_witness :
  let s := addRequest (Sample.request "a" "/1") initial in
  let a := ToggleFavorite (lit "a") in
  (targets_present a s → side_tables_ok (step a s)) ∧
  (∀ i j, (j ∈ favorites (toggleFavorite i s)
           ↔ (j ≠ i ∧ j ∈ favorites s) ∨ (j = i ∧ i ∉ favorites s)) ∧
          (j ∈ selected (toggleSelected i s)
           ↔ (j ≠ i ∧ j ∈ selected s) ∨ (j = i ∧ i ∉ selected s))).
Proof.
  intros s a.
  apply (side_tables_preserved a s).
  apply addRequest_side_tables, initial_side_tables_ok.
Defined.

(** C5 as stated fails: toggling an id that no record carries is not a
    no-op.  On the empty store it puts the id into the favorites set (and
    likewise into the selected set), which then names a record that is not
    in the sequence. *)
Lemma toggle_absent_id_not_noop :
  side_tables_ok initial ∧
  ¬ present (lit "ghost") initial ∧
  toggleFavorite (lit "ghost") initial ≠ initial ∧
  lit "ghost" ∈ favorites (toggleFavorite (lit "ghost") initial) ∧
  lit "ghost" ∈ selected (toggleSelected (lit "ghost") initial) ∧
  ¬ side_tables_ok (toggleFavorite (lit "ghost") initial).
Proof.
  assert (Hfav : lit "ghost" ∈ favorites (toggleFavorite (lit "ghost") initial)).
  { simpl. apply elem_of_toggle. right. split; [reflexivity|]. apply not_elem_of_empty. }
  assert (Habs : ¬ present (lit "ghost") initial).
  { intros (r & Hr & _). simpl in Hr. apply elem_of_nil in Hr. exact Hr. }
  split; [exact initial_side_tables_ok|]. split; [exact Habs|].
  split; [|split; [exact Hfav|split]].
  - intros Heq. rewrite Heq in Hfav. simpl in Hfav. set_solver.
  - simpl. apply elem_of_toggle. right. split; [reflexivity|]. apply not_elem_of_empty.
  - intros [Hf _]. apply Habs. destruct (Hf _ Hfav) as (r & Hr & Hid).
    exists r. split; [exact Hr | exact Hid].
Qed.

End StoreInvariant.

(** ** Request classifier *)

Section ClassifierFacts.

Import Classifier.

Variable JSON_parse : str → option JSON.

Lemma str_eqb_eq (a b : str) : JS.str_eqb a b = true ↔ a = b.
Proof. unfold JS.str_eqb. apply bool_decide_eq_true. Qed.

Lemma bodyLooksGraphQL_iff (r : NetworkRequest) :
  bodyLooksGraphQL JSON_parse r = true ↔
  isJsonContent r = true ∧
  ∃ body members q,
    requestBody r = Some body ∧ body ≠ [] ∧
    JSON_parse body = Some (JObject members) ∧
    Json.lookup_last (lit "query") members = Some (JString q).
Proof.
  unfold bodyLooksGraphQL, safeJsonParse. split.
  - destruct (requestBody r) as [body|]; [|discriminate].
    destruct body as [|c b]; [discriminate|]. simpl JS.truthy.
    destruct (isJsonContent r); [|discriminate]. simpl andb.
    destruct (JSON_parse (c :: b)) as [v|] eqn:Ep; [|discriminate].
    destruct v as [ |bb|n|s|items|members]; simpl.
    + intros H; discriminate H.
    + rewrite andb_false_r. simpl. intros H; discriminate H.
    + rewrite andb_false_r. simpl. intros H; discriminate H.
    + rewrite andb_false_r. simpl. intros H; discriminate H.
    + intros H; discriminate H.
    + destruct (Json.lookup_last (lit "query") members) as [w|] eqn:El;
        [|simpl; intros H; discriminate H].
      destruct w as [ |bb|n|q|items|ms]; simpl; try (intros H; discriminate H).
      intros _. split; [reflexivity|]. exists (c :: b), members, q.
      repeat split; congruence.
  - intros [Hj (body & members & q & Hb & Hne & Hp & Hq)].
    rewrite Hb. destruct body as [|c b]; [congruence|]. simpl JS.truthy.
    rewrite Hj, Hp. simpl. rewrite Hq. reflexivity.
Qed.

(** C3, as the classifier implements it.  For captured traffic the flag is
    true exactly when the request has a JSON content type and, in addition,
    either its non-empty body parses to a JSON object with a string-typed
    [query] field, or its URL contains [/graphql] (in any letter case) and
    its method is [POST].  Without a JSON content type the flag is false,
    whatever the URL.  The flag stored at admission is this function applied
    to the parsed entry.  A replayed request is classified by the executor's
    own test: its URL contains [/graphql], or its non-empty body parses to a
    JSON object with a [query] or a [mutation] key. *)
Theorem isGraphQLRequest_iff (r : NetworkRequest) :
  (isGraphQLRequest JSON_parse r = true ↔
   isJsonContent r = true ∧
   ((∃ body members q,
       requestBody r = Some body ∧ body ≠ [] ∧
       JSON_parse body = Some (JObject members) ∧
       Json.lookup_last (lit "query") members = Some (JString q))
    ∨ (hasGraphQLUrl r = true ∧ method r = lit "POST"))) ∧
  (isJsonContent r = false → isGraphQLRequest JSON_parse r = false) ∧
  (∀ byteLength newId entry,
     let parsed := Parser.parseHarEntry byteLength JSON_parse newId entry in
     isGraphQL parsed = isGraphQLRequest JSON_parse parsed) ∧
  (∀ url_ body,
     Replay.isGraphQLRequest JSON_parse url_ body = true ↔
     JS.includes url_ (lit "/graphql") = true
     ∨ ∃ b members,
         body = Some b ∧ b ≠ [] ∧ JSON_parse b = Some (JObject members) ∧
         (Replay.has_key (lit "query") members = true
          ∨ Replay.has_key (lit "mutation") members = true)).
Proof.
  assert (Hiff : isGraphQLRequest JSON_parse r = true ↔
   isJsonContent r = true ∧
   ((∃ body members q,
       requestBody r = Some body ∧ body ≠ [] ∧
       JSON_parse body = Some (JObject members) ∧
       Json.lookup_last (lit "query") members = Some (JString q))
    ∨ (hasGraphQLUrl r = true ∧ method r = lit "POST"))).
  { unfold isGraphQLRequest.
    destruct (bodyLooksGraphQL JSON_parse r) eqn:Eb.
    - apply bodyLooksGraphQL_iff in Eb as [Hj Hb]. split; [|reflexivity].
      intros _. split; [exact Hj | left; exact Hb].
    - split.
      + destruct (hasGraphQLUrl r); [|discriminate].
        destruct (JS.str_eqb (method r) (lit "POST")) eqn:Em; [|discriminate].
        destruct (isJsonContent r); [|discriminate].
        intros _. split; [reflexivity|]. right. split; [reflexivity|].
        apply str_eqb_eq, Em.
      + intros [Hj [Hb|[Hu Hm]]].
        * assert (bodyLooksGraphQL JSON_parse r = true)
            by (apply bodyLooksGraphQL_iff; split; assumption).
          congruence.
        * rewrite Hu, Hj. apply str_eqb_eq in Hm. rewrite Hm. reflexivity. }
  split; [exact Hiff|]. split.
  - intros Hj. apply not_true_is_false. intros E.
    apply Hiff in E as [E _]. congruence.
  - split.
    + intros byteLength newId entry parsed.
      unfold parsed, Parser.parseHarEntry, set_isGraphQL.
      destruct (_ <=? Parser.MAX_BODY_SIZE);
        [destruct (Parser.getContent entry)|]; reflexivity.
    + intros url_ body. unfold Replay.isGraphQLRequest.
      destruct (JS.includes url_ (lit "/graphql")); [tauto|].
      split.
      * destruct body as [[|c b]|]; try discriminate.
        destruct (JSON_parse (c :: b)) as [[ | | | | |members]|] eqn:Ep;
          try discriminate.
        intros H. right. exists (c :: b), members.
        apply orb_true_iff in H. repeat split; [discriminate | exact Ep | exact H].
      * intros [H|(b & members & -> & Hne & Hp & Hk)]; [discriminate|].
        destruct b as [|c b]; [congruence|]. rewrite Hp.
        apply orb_true_iff, Hk.
Qed.

End ClassifierFacts.

(** C3 as stated fails: a [GET] of [https://x/graphql] without headers or
    body has a [/graphql] URL and is not classified as GraphQL, neither by
    the classifier nor by the admission path, whatever the JSON parser. *)
Lemma graphql_url_alone_not_classified :
  let r := Sample.request "1" "https://x/graphql" in
  let entry :=
    {| Parser.startedDateTime := 0; Parser.time := None;
       Parser.timings := None; Parser._resourceType := None;
       Parser.request_method := lit "GET";
       Parser.request_url := lit "https://x/graphql";
       Parser.request_headers := []; Parser.postData := None;
       Parser.response_status := 200; Parser.response_statusText := lit "OK";
       Parser.response_headers := []; Parser.content_size := Some 2;
       Parser.content_mimeType := None; Parser.getContent := Some (lit "ok") |} in
  Classifier.hasGraphQLUrl r = true ∧
  (∀ parse, Classifier.isGraphQLRequest parse r = false) ∧
  (∀ byteLength parse newId,
     isGraphQL (Parser.parseHarEntry byteLength parse newId entry) = false).
Proof.
  split; [vm_compute; reflexivity|]. split.
  - intros parse. reflexivity.
  - intros byteLength parse newId. reflexivity.
Qed.

(** ** Body loader *)

Section ParserFacts.

Import Parser.

Variable byteLength : str → Z.
Variable JSON_parse : str → option JSON.

(** C6, as the parser implements it.  The response body is fetched inline
    exactly when the declared size is at most [MAX_BODY_SIZE] (500 KiB,
    inclusive): then a successful fetch attaches the content with
    [hasFullResponseBody = true], a failed fetch leaves the body absent with
    [hasFullResponseBody = false], and in both cases no deferred loader is
    attached.  Strictly above the threshold the body is left unattached,
    [hasFullResponseBody] is [false] and a deferred loader is attached.  The
    parser returns a record in every case. *)
Theorem parseHarEntry_body_threshold (newId : str) (entry : HarEntry) :
  let size := default 0 (content_size entry) in
  let r := parseHarEntry byteLength JSON_parse newId entry in
  responseBodySize r = size ∧
  (size <= MAX_BODY_SIZE →
     responseBody r = getContent entry ∧
     hasFullResponseBody r = bool_decide (is_Some (getContent entry)) ∧
     getFullResponseBody r = None) ∧
  (MAX_BODY_SIZE < size →
     responseBody r = None ∧
     hasFullResponseBody r = false ∧
     getFullResponseBody r = Some {| loader_result := getContent entry |}).
Proof.
  intros size r. unfold r, parseHarEntry, set_isGraphQL. cbn [responseBodySize].
  assert (Hsize : match content_size entry with Some n => n | None => 0 end = size)
    by (unfold size; destruct (content_size entry); reflexivity).
  rewrite Hsize.
  destruct (size <=? MAX_BODY_SIZE) eqn:E.
  - apply Z.leb_le in E.
    destruct (getContent entry) as [content|]; cbn;
      (split; [destruct (content_size entry); reflexivity|]);
      (split; [intros _; repeat split | intros H; lia]).
  - apply Z.leb_gt in E. cbn.
    split; [destruct (content_size entry); reflexivity|].
    split; [intros H; lia | intros _; repeat split].
Qed.

End ParserFacts.

(** C6 as stated fails at the threshold itself: an entry that declares
    exactly 500 * 1024 bytes has its body fetched and attached inline, with
    no deferred loader. *)
Lemma body_at_threshold_is_inline :
  let entry :=
    {| Parser.startedDateTime := 0; Parser.time := None;
       Parser.timings := None; Parser._resourceType := None;
       Parser.request_method := lit "GET";
       Parser.request_url := lit "https://x/big";
       Parser.request_headers := []; Parser.postData := None;
       Parser.response_status := 200; Parser.response_statusText := lit "OK";
       Parser.response_headers := [];
       Parser.content_size := Some (500 * 1024);
       Parser.content_mimeType := None;
       Parser.getContent := Some (lit "payload") |} in
  default 0 (Parser.content_size entry) = Parser.MAX_BODY_SIZE ∧
  ∀ byteLength parse newId,
    let r := Parser.parseHarEntry byteLength parse newId entry in
    responseBody r = Some (lit "payload") ∧
    hasFullResponseBody r = true ∧
    getFullResponseBody r = None.
Proof.
  intros entry. split; [reflexivity|].
  intros byteLength parse newId r. repeat split.
Qed.

(** ** Records *)

Section RecordFacts.

Lemma has_own_true (obj : Headers) (k : str) :
  JS.has_own obj k = true ↔ k ∈ map fst obj.
Proof.
  unfold JS.has_own. rewrite existsb_exists, list_elem_of_fmap. split.
  - intros (kv & Hin & He). apply str_eqb_eq in He.
    exists kv. split; [congruence|apply list_elem_of_In, Hin].
  - intros (kv & -> & Hin). exists kv.
    split; [apply list_elem_of_In, Hin|apply str_eqb_eq; reflexivity].
Qed.

Lemma has_own_false (obj : Headers) (k : str) :
  JS.has_own obj k = false ↔ k ∉ map fst obj.
Proof.
  rewrite <- has_own_true. destruct (JS.has_own obj k); split; congruence.
Qed.

Lemma str_eqb_neq (a b : str) : JS.str_eqb a b = false ↔ a ≠ b.
Proof. unfold JS.str_eqb. apply bool_decide_eq_false. Qed.



















(** What precedes an array index among the keys of an object. *)
Lemma keys_ordered_before_index (a t : list str) (k : str) (n : Z) :
  JS.keys_ordered (a ++ k :: t) = true → JS.array_index k = Some n →
  Forall (λ k', ∃ m, JS.array_index k' = Some m ∧ m < n) a.
Proof.
  intros Hord Hk. induction a as [|k' a IH]; [constructor|].
  cbn [app JS.keys_ordered] in Hord. apply andb_true_iff in Hord as [Hk' Hord].
  constructor; [|apply IH, Hord].
  rewrite forallb_app in Hk'. apply andb_true_iff in Hk' as [_ Hk'].
  cbn [forallb] in Hk'. apply andb_true_iff in Hk' as [Hk' _].
  unfold JS.key_before in Hk'. rewrite Hk in Hk'.
  destruct (JS.array_index k') as [m|]; [|discriminate].
  exists m. split; [reflexivity|]. apply Z.ltb_lt, Hk'.
Qed.

Lemma keys_ordered_remove (a t : list str) (k : str) :
  JS.keys_ordered (a ++ k :: t) = true → JS.keys_ordered (a ++ t) = true.
Proof.
  induction a as [|k' a IH]; cbn [app JS.keys_ordered]; intros Hord.
  - apply andb_true_iff in Hord as [_ Hord]. exact Hord.
  - apply andb_true_iff in Hord as [Hk' Hord]. rewrite (IH Hord), andb_true_r.
    rewrite forallb_app in *. apply andb_true_iff in Hk' as [H1 H2].
    cbn [forallb] in H2. apply andb_true_iff in H2 as [_ H2].
    rewrite H1, H2. reflexivity.
Qed.

Lemma record_insert_index_last (obj : Headers) (n : Z) (k v : str) :
  Forall (λ k', ∃ m, JS.array_index k' = Some m ∧ m < n) (map fst obj) →
  JS.record_insert_index obj n k v = obj ++ [(k, v)].
Proof.
  induction obj as [|[k' v'] rest IH]; intros H; [reflexivity|].
  cbn [map fst] in H. apply Forall_cons in H as [(m & Hm & Hlt) H].
  cbn [JS.record_insert_index]. rewrite Hm, (proj2 (Z.ltb_lt _ _) Hlt).
  rewrite (IH H). reflexivity.
Qed.

(** Filling an object from the entries of another, in their order: the
    entries that pass the test [f] are appended one by one, with the value
    [g] gives them, but for an entry named [__proto__], which is lost. *)
Lemma fill_from_record (f : str * str → bool) (g : str * str → str)
    (entries : Headers) : ∀ acc : Headers,
  NoDup (map fst acc ++ map fst entries) →
  JS.keys_ordered (map fst acc ++ map fst entries) = true →
  JS.proto_key ∉ map fst acc →
  fold_left (λ obj kv, if f kv then JS.record_set obj (fst kv) (g kv) else obj)
            entries acc
  = acc ++ map (λ kv, (fst kv, g kv))
             (List.filter
                (λ kv, f kv && negb (JS.str_eqb (fst kv) JS.proto_key))
                entries).
Proof.
  induction entries as [|[k v] rest IH]; intros acc Hnd Hord Hproto.
  - cbn. rewrite app_nil_r. reflexivity.
  - cbn [map fst] in Hnd, Hord. cbn [fold_left List.filter fst].
    assert (Hskip : NoDup (map fst acc ++ map fst rest) ∧
                    JS.keys_ordered (map fst acc ++ map fst rest) = true).
    { split; [|apply (keys_ordered_remove _ _ k), Hord].
      apply NoDup_app in Hnd as (Ha & Hd & Hr).
      apply NoDup_cons in Hr as [_ Hr]. apply NoDup_app.
      split; [exact Ha|]. split; [|exact Hr].
      intros x Hx Hx'. apply (Hd x Hx). right. exact Hx'. }
    destruct (f (k, v)); cbn [andb]; [|apply IH; tauto].
    assert (Hfresh : k ∉ map fst acc).
    { apply NoDup_app in Hnd as (_ & Hd & _). intros Hin.
      apply (Hd k Hin). left. }
    assert (Hset : JS.record_set acc k (g (k, v))
                   = if JS.str_eqb k JS.proto_key then acc
                     else acc ++ [(k, g (k, v))]).
    { unfold JS.record_set.
      rewrite (proj2 (has_own_false acc k) Hfresh).
      destruct (JS.str_eqb k JS.proto_key); [reflexivity|].
      destruct (JS.array_index k) as [n|] eqn:Ek; [|reflexivity].
      apply record_insert_index_last.
      apply (keys_ordered_before_index _ (map fst rest) k); assumption. }
    rewrite Hset.
    destruct (JS.str_eqb k JS.proto_key) eqn:Ep; cbn [negb];
      [apply IH; tauto|].
    apply str_eqb_neq in Ep. rewrite IH.
    + cbn [map fst]. rewrite <- app_assoc. reflexivity.
    + rewrite map_app, <- app_assoc. exact Hnd.
    + rewrite map_app, <- app_assoc. exact Hord.
    + rewrite map_app. cbn [map fst].
      rewrite elem_of_app, list_elem_of_singleton.
      intros [H|H]; auto.
Qed.

End RecordFacts.

(** ** Replay executor *)

Section ReplayFacts.

Import Replay.

Lemma filter_keys_subset (f : str * str → bool) (l : Headers) k :
  k ∈ map fst (List.filter f l) → k ∈ map fst l.
Proof.
  induction l as [|kv l IH]; simpl; [auto|].
  destruct (f kv); simpl; intros Hk.
  - apply elem_of_cons in Hk as [->|Hk]; [left | right; auto].
  - right. auto.
Qed.

(** On the entries of an object, [filterHeaders] keeps those that pass the
    test, in order and unchanged, but for an entry named [__proto__], which
    the assignment to the new object loses. *)
Lemma filterHeaders_filter (headers : Headers) :
  JS.is_record headers →
  filterHeaders headers
  = List.filter (λ kv, may_send (fst kv)
                       && negb (JS.str_eqb (fst kv) JS.proto_key)) headers.
Proof.
  intros [Hnd Hord]. unfold filterHeaders.
  rewrite (fill_from_record (λ kv, may_send (fst kv)) snd headers []
             Hnd Hord (not_elem_of_nil _)).
  cbn [app]. induction (List.filter _ headers) as [|[k v] l IH];
    [reflexivity|].
  cbn [map fst snd]. rewrite IH. reflexivity.
Qed.

Lemma may_send_false (k : str) :
  may_send k = false ↔
  JS.toLowerCase k ∈ FORBIDDEN_HEADERS
  ∨ JS.startsWith (JS.toLowerCase k) (lit "sec-") = true.
Proof.
  unfold may_send, is_forbidden.
  rewrite andb_false_iff, !negb_false_iff.
  split; (intros [H|H]; [left | right; exact H]).
  - apply existsb_exists in H as (x & Hx & He).
    apply str_eqb_eq in He. subst x. apply list_elem_of_In, Hx.
  - apply existsb_exists. exists (JS.toLowerCase k).
    split; [apply list_elem_of_In, H | apply str_eqb_eq; reflexivity].
Qed.

Lemma carries_body_iff (m : str) :
  carries_body m = true ↔
  JS.toUpperCase m ∈ [lit "POST"; lit "PUT"; lit "PATCH"].
Proof.
  unfold carries_body. rewrite existsb_exists. split.
  - intros (x & Hx & He). apply str_eqb_eq in He. subst x.
    apply list_elem_of_In, Hx.
  - intros H. exists (JS.toUpperCase m).
    split; [apply list_elem_of_In, H | apply str_eqb_eq; reflexivity].
Qed.

Variable URL_parses : str → bool.
Variable fetch : str → RequestInit → Completion Response.
Variable JSON_parse : str → option JSON.
Variable byteLength : str → Z.
Variable number_sub : Q → Q → Q.
Variable number_mul : Q → Q → Q.

(** X30.  The outbound call of a replay.  For every replay spec, whose
    headers are the entries of an object, [replayRequest] makes no outbound
    call when the URL is malformed, and otherwise exactly one, to the given
    URL and with the given method.  The headers of that call are the
    supplied entries, in order and unchanged, without those whose
    lower-cased name is forbidden or starts with [sec-], and without an
    entry named [__proto__]; among the forbidden names are [cookie], [host]
    and [content-length].  Its body is the supplied body when the
    upper-cased method is [POST], [PUT] or [PATCH], and absent otherwise. *)
Theorem replayRequest_outbound_call (env : Readings) (options : ReplayOptions) :
  JS.is_record (o_headers options) →
  let calls :=
    snd (replayRequest URL_parses fetch JSON_parse byteLength
           number_sub number_mul env options) in
  (URL_parses (o_url options) = false → calls = []) ∧
  (URL_parses (o_url options) = true →
   ∃ init,
     calls = [(o_url options, init)] ∧
     init_method init = o_method options ∧
     init_headers init
     = List.filter (λ kv, may_send (fst kv)
                          && negb (JS.str_eqb (fst kv) JS.proto_key))
                   (o_headers options) ∧
     (∀ k v, (k, v) ∈ init_headers init ↔
             (k, v) ∈ o_headers options ∧
             (JS.toLowerCase k ∉ FORBIDDEN_HEADERS) ∧
             JS.startsWith (JS.toLowerCase k) (lit "sec-") = false ∧
             k ≠ JS.proto_key) ∧
     (lit "cookie" ∈ FORBIDDEN_HEADERS ∧ lit "host" ∈ FORBIDDEN_HEADERS
      ∧ lit "content-length" ∈ FORBIDDEN_HEADERS) ∧
     (JS.toUpperCase (o_method options) ∈ [lit "POST"; lit "PUT"; lit "PATCH"]
      → init_body init = o_body options) ∧
     (JS.toUpperCase (o_method options) ∉ [lit "POST"; lit "PUT"; lit "PATCH"]
      → init_body init = None)).
Proof.
  intros Hrec calls. unfold calls, replayRequest.
  split; intros Hurl; rewrite Hurl.
  { reflexivity. }
  exists (fetchOptions options). simpl.
  split; [reflexivity|]. split; [reflexivity|].
  split; [apply filterHeaders_filter, Hrec|].
  split; [|split; [|split]].
  - intros k v. rewrite (filterHeaders_filter _ Hrec).
    rewrite list_elem_of_In, filter_In, <- list_elem_of_In. simpl.
    rewrite andb_true_iff, negb_true_iff, str_eqb_neq.
    split.
    + intros (Hin & Hs & Hp). split; [exact Hin|].
      destruct (decide (JS.toLowerCase k ∈ FORBIDDEN_HEADERS)) as [Hf|Hf].
      * assert (may_send k = false) by (apply may_send_false; left; exact Hf).
        congruence.
      * split; [exact Hf|]. split; [|exact Hp].
        destruct (JS.startsWith (JS.toLowerCase k) (lit "sec-")) eqn:Es;
          [|reflexivity].
        assert (may_send k = false) by (apply may_send_false; right; exact Es).
        congruence.
    + intros (Hin & Hf & Hs & Hp). split; [exact Hin|]. split; [|exact Hp].
      destruct (may_send k) eqn:Em; [reflexivity|].
      apply may_send_false in Em as [Em|Em]; [contradiction | congruence].
  - repeat split; apply list_elem_of_In; vm_compute; tauto.
  - intros Hm. apply carries_body_iff in Hm. rewrite Hm. reflexivity.
  - intros Hm. destruct (carries_body (o_method options)) eqn:Ec; [|reflexivity].
    apply carries_body_iff in Ec. contradiction.
Qed.

End ReplayFacts.

(** The replay of the login request, on a host that accepts every URL and
    whose network is down: the [Cookie] header is not sent, the [X-Test]
    header and the body are. *)
Lemma replayRequest_outbound_call_witness :
  let URL_parses := λ _ : str, true in
  let calls :=
    snd (Replay.replayRequest URL_parses (λ _ _, Throw OtherValue)
           (λ _, None) (λ _, 0) Qminus Qmult Sample.readings Sample.login) in
  (URL_parses (Replay.o_url Sample.login) = false → calls = []) ∧
  (URL_parses (Replay.o_url Sample.login) = true →
   ∃ init,
     calls = [(Replay.o_url Sample.login, init)] ∧
     Replay.init_method init = Replay.o_method Sample.login ∧
     Replay.init_headers init
     = List.filter (λ kv, Replay.may_send (fst kv)
                          && negb (JS.str_eqb (fst kv) JS.proto_key))
                   (Replay.o_headers Sample.login) ∧
     (∀ k v, (k, v) ∈ Replay.init_headers init ↔
             (k, v) ∈ Replay.o_headers Sample.login ∧
             (JS.toLowerCase k ∉ Replay.FORBIDDEN_HEADERS) ∧
             JS.startsWith (JS.toLowerCase k) (lit "sec-") = false ∧
             k ≠ JS.proto_key) ∧
     (lit "cookie" ∈ Replay.FORBIDDEN_HEADERS
      ∧ lit "host" ∈ Replay.FORBIDDEN_HEADERS
      ∧ lit "content-length" ∈ Replay.FORBIDDEN_HEADERS) ∧
     (JS.toUpperCase (Replay.o_method Sample.login)
        ∈ [lit "POST"; lit "PUT"; lit "PATCH"]
      → Replay.init_body init = Replay.o_body Sample.login) ∧
     (JS.toUpperCase (Replay.o_method Sample.login)
        ∉ [lit "POST"; lit "PUT"; lit "PATCH"]
      → Replay.init_body init = None)).
Proof.
  apply (replayRequest_outbound_call (λ _, true) (λ _ _, Throw OtherValue)
           (λ _, None) (λ _, 0) Qminus Qmult Sample.readings Sample.login).
  split; [|reflexivity].
  refine (bool_decide_eq_true_1 _ _). vm_compute. reflexivity.
Defined.

(** The outbound call of the login replay, computed. *)
Lemma replay_login_example :
  Replay.fetchOptions Sample.login
  = {| Replay.init_method := lit "POST";
       Replay.init_headers := [(lit "X-Test", lit "a")];
       Replay.init_body := Some (lit "{}");
       Replay.init_redirect := lit "follow";
       Replay.init_credentials := lit "same-origin" |}.
Proof. vm_compute. reflexivity. Qed.

(** C8.  The claim fails on a header named [__proto__].  The headers of
    [Sample.protoLogin] are the entries of an object, and [__proto__] is
    neither a forbidden name nor a name that starts with [sec-]; yet on
    every host that accepts the URL the one outbound call of
    [replayRequest] carries the header [X-Test] alone: the supplied header
    [__proto__] is not preserved. *)
Lemma replay_drops_proto_header :
  JS.is_record (Replay.o_headers Sample.protoLogin) ∧
  (JS.proto_key, lit "x") ∈ Replay.o_headers Sample.protoLogin ∧
  Replay.may_send JS.proto_key = true ∧
  ∀ URL_parses fetch JSON_parse byteLength number_sub number_mul env,
    URL_parses (Replay.o_url Sample.protoLogin) = true →
    snd (Replay.replayRequest URL_parses fetch JSON_parse byteLength
           number_sub number_mul env Sample.protoLogin)
    = [(Replay.o_url Sample.protoLogin,
        {| Replay.init_method := lit "POST";
           Replay.init_headers := [(lit "X-Test", lit "a")];
           Replay.init_body := Some (lit "{}");
           Replay.init_redirect := lit "follow";
           Replay.init_credentials := lit "same-origin" |})].
Proof.
  split; [|split; [left|split; [reflexivity|]]].
  - split; [|reflexivity].
    refine (bool_decide_eq_true_1 _ _). vm_compute. reflexivity.
  - intros URL_parses fetch JSON_parse byteLength number_sub number_mul env Hurl.
    unfold Replay.replayRequest. rewrite Hurl. reflexivity.
Qed.

(** ** Redaction engine *)

Section SanitizerFacts.

Import Sanitizer.

Context {E : RegExpEngine}.

Lemma sanitizeStep_applyRule (acc : str) (rule : SanitizationRule) :
  sanitizeStep acc rule = Normal (applyRule acc rule).
Proof.
  unfold sanitizeStep, applyRule, new_RegExp.
  destruct (compile (pattern rule)); reflexivity.
Qed.

(** The loop never throws and computes the fold of the rules. *)
Lemma sanitizeLoop_fold (rules : list SanitizationRule) : ∀ acc,
  sanitizeLoop rules acc = Normal (fold_left applyRule rules acc).
Proof.
  induction rules as [|rule rest IH]; intros acc; [reflexivity|].
  simpl. rewrite sanitizeStep_applyRule. simpl. apply IH.
Qed.

Lemma sanitizeValue_nonempty (value : str) (rules : list SanitizationRule) :
  value ≠ [] → sanitizeValue value rules = Normal (Sanitize_spec value rules).
Proof.
  intros Hne. unfold sanitizeValue, Sanitize_spec.
  destruct value; [congruence|]. simpl. apply sanitizeLoop_fold.
Qed.

Lemma sanitizeValue_empty (rules : list SanitizationRule) :
  sanitizeValue [] rules = Normal [].
Proof. reflexivity. Qed.

Lemma filter_enabled_skip (pre post : list SanitizationRule) r :
  enabled r = false →
  List.filter enabled (pre ++ r :: post) = List.filter enabled (pre ++ post).
Proof.
  intros Hr. rewrite !List.filter_app. simpl. rewrite Hr. reflexivity.
Qed.

Lemma fold_applyRule_skip (pre post : list SanitizationRule) r text :
  compile (pattern r) = None →
  fold_left applyRule (pre ++ r :: post) text
  = fold_left applyRule (pre ++ post) text.
Proof.
  intros Hc. rewrite !fold_left_app. simpl.
  unfold applyRule at 2. rewrite Hc. reflexivity.
Qed.

(** C2, as the engine implements it.  [sanitizeValue] never throws.  The
    empty string is returned as it is, no rule being applied to it.  On a
    non-empty string the result is that of applying the enabled rules in list
    order, each as a replacement on the output of the previous one, a rule
    whose pattern does not compile being skipped; so a disabled rule, and a
    rule whose pattern does not compile, can be removed from the list without
    changing the result. *)
Theorem sanitizeValue_applies_enabled_rules (value : str)
    (rules : list SanitizationRule) :
  (∃ out, sanitizeValue value rules = Normal out) ∧
  sanitizeValue [] rules = Normal [] ∧
  (value ≠ [] →
   sanitizeValue value rules
   = Normal (fold_left
               (λ acc rule,
                  match compile (pattern rule) with
                  | Some re => replace re acc (replacement rule)
                  | None => acc
                  end)
               (List.filter enabled rules) value)) ∧
  (∀ pre r post,
     rules = pre ++ r :: post →
     enabled r = false ∨ compile (pattern r) = None →
     sanitizeValue value rules = sanitizeValue value (pre ++ post)).
Proof.
  split; [|split; [reflexivity|split]].
  - destruct value as [|c v]; [exists []; reflexivity|].
    eexists. apply sanitizeValue_nonempty. discriminate.
  - intros Hne. apply (sanitizeValue_nonempty value rules Hne).
  - intros pre r post -> Hr.
    destruct value as [|c v]; [reflexivity|].
    rewrite !sanitizeValue_nonempty by discriminate. f_equal.
    unfold Sanitize_spec. destruct Hr as [Hr|Hr].
    + rewrite (filter_enabled_skip pre post r Hr). reflexivity.
    + rewrite !List.filter_app. simpl. destruct (enabled r); [|reflexivity].
      apply fold_applyRule_skip, Hr.
Qed.

Lemma previewLoop_fold (value : str) (rules : list SanitizationRule) :
  ∀ st, ∃ matched,
    previewLoop value rules st = Normal (fold_left applyRule rules (fst st), matched).
Proof.
  induction rules as [|rule rest IH]; intros [acc m]; [exists m; reflexivity|].
  simpl. unfold previewStep, new_RegExp, applyRule at 2.
  destruct (compile (pattern rule)) as [re|]; simpl; apply IH.
Qed.

(** Where the preview and [sanitizeValue] agree.  [previewSanitization]
    never throws; its [sanitized] field is the result of applying the enabled
    rules to the input, which is what [sanitizeValue] returns for every
    non-empty input; and [hasChanges] is true exactly when [sanitized]
    differs from the input. *)
Theorem previewSanitization_agrees (value : str) (rules : list SanitizationRule) :
  ∃ p,
    previewSanitization value rules = Normal p ∧
    original p = value ∧
    sanitized p = Sanitize_spec value rules ∧
    (value ≠ [] → sanitizeValue value rules = Normal (sanitized p)) ∧
    (hasChanges p = true ↔ sanitized p ≠ value).
Proof.
  unfold previewSanitization.
  destruct (previewLoop_fold value (List.filter enabled rules) (value, []))
    as [matched Hm].
  rewrite Hm. simpl. eexists. split; [reflexivity|]. simpl.
  split; [reflexivity|]. split; [reflexivity|]. split.
  - intros Hne. apply sanitizeValue_nonempty, Hne.
  - rewrite negb_true_iff. unfold JS.str_eqb. rewrite bool_decide_eq_false.
    unfold Sanitize_spec. split; intros H Heq; apply H; congruence.
Qed.

(** C7, as far as it holds.  A string in which no enabled rule has a match
    is a fixed point of [sanitizeValue]; so sanitizing twice gives the same
    as sanitizing once whenever the first pass leaves no match behind. *)
Theorem sanitizeValue_fixed_point `{!RegExpLaws E} (x y : str)
    (rules : list SanitizationRule) :
  sanitizeValue x rules = Normal y →
  (∀ r re, r ∈ rules → enabled r = true → compile (pattern r) = Some re →
           test re y = false) →
  sanitizeValue y rules = Normal y.
Proof.
  intros _ Hclean. destruct y as [|c y]; [reflexivity|].
  rewrite sanitizeValue_nonempty by discriminate. f_equal.
  unfold Sanitize_spec.
  assert (Hen : ∀ r, r ∈ List.filter enabled rules → r ∈ rules ∧ enabled r = true).
  { intros r Hr. apply list_elem_of_In, filter_In in Hr as [Hr He].
    split; [apply list_elem_of_In, Hr | exact He]. }
  induction (List.filter enabled rules) as [|r rs IH]; [reflexivity|].
  simpl. unfold applyRule at 2.
  destruct (Hen r) as [Hr He]; [left|].
  destruct (compile (pattern r)) as [re|] eqn:Ec.
  - rewrite replace_no_match by (eapply Hclean; eauto).
    apply IH. intros r' Hr'. apply Hen. right. exact Hr'.
  - apply IH. intros r' Hr'. apply Hen. right. exact Hr'.
Qed.

End SanitizerFacts.

(** ** The fragment engine *)

Section FragmentFacts.

Import Fragment.

Lemma replace_from_no_match (items : list Item) (template : str) :
  ∀ s before_rev,
    test_from items s = false →
    replace_from items template before_rev s 0 = s.
Proof.
  induction s as [|c s IH]; intros before_rev Ht; simpl in *.
  - destruct (match_here items []); [discriminate | reflexivity].
  - destruct (match_here items (c :: s)); [discriminate|].
    f_equal. apply IH, Ht.
Qed.

Lemma fragment_engine_laws : RegExpLaws engine.
Proof.
  constructor. intros re s t Ht. simpl in *.
  apply replace_from_no_match, Ht.
Qed.

End FragmentFacts.

(** C2 as stated fails on the empty string: the rule [.*] -> [[REDACTED]]
    rewrites the empty string, and [sanitizeValue] returns the empty string
    without applying it. *)
Lemma sanitizeValue_skips_rules_on_empty :
  let rules := [Sample.rule ".*" "[REDACTED]"] in
  Sanitizer.sanitizeValue (E := Fragment.engine) [] rules = Normal [] ∧
  Sanitizer.Sanitize_spec (E := Fragment.engine) [] rules = lit "[REDACTED]".
Proof. split; reflexivity. Qed.

(** C10.  The preview and [sanitizeValue] differ on the empty string: the
    preview, which has no guard for an empty input, applies the rule
    [.*] -> [[REDACTED]] to it and reports a change, and [sanitizeValue]
    returns the empty string as it is. *)
Lemma preview_differs_on_empty :
  let rules := [Sample.rule ".*" "[REDACTED]"] in
  Sanitizer.previewSanitization (E := Fragment.engine) [] rules
  = Normal {| Sanitizer.original := [];
              Sanitizer.sanitized := lit "[REDACTED]";
              Sanitizer.matchedRules := [lit "custom"];
              Sanitizer.hasChanges := true |} ∧
  Sanitizer.sanitizeValue (E := Fragment.engine) [] rules = Normal [].
Proof. split; reflexivity. Qed.

(** C7 as stated fails: with the single rule [ab] -> [a], whose replacement
    text the pattern does not match, [abb] is sanitized to [ab], and [ab] is
    sanitized to [a]. *)
Lemma sanitize_not_idempotent :
  let rules := [Sample.rule "ab" "a"] in
  (∀ r1 r2 re, r1 ∈ rules → r2 ∈ rules →
     compile (RegExpEngine := Fragment.engine) (pattern r1) = Some re →
     test (RegExpEngine := Fragment.engine) re (replacement r2) = false) ∧
  Sanitizer.sanitizeValue (E := Fragment.engine) (lit "abb") rules
  = Normal (lit "ab") ∧
  Sanitizer.sanitizeValue (E := Fragment.engine) (lit "ab") rules
  = Normal (lit "a").
Proof.
  split; [|split; reflexivity].
  intros r1 r2 re H1 H2 Hc.
  apply list_elem_of_singleton in H1, H2. subst r1 r2.
  vm_compute in Hc. injection Hc as <-. reflexivity.
Qed.

(** A string without a match left is sanitized to itself. *)
Lemma sanitizeValue_fixed_point_witness :
  Sanitizer.sanitizeValue (E := Fragment.engine) (lit "cXd")
    [Sample.rule "ab" "X"] = Normal (lit "cXd").
Proof.
  apply (sanitizeValue_fixed_point (E := Fragment.engine)
           (RegExpLaws0 := fragment_engine_laws)
           (lit "cabd") (lit "cXd") [Sample.rule "ab" "X"]).
  - reflexivity.
  - intros r re Hr _ Hc. apply list_elem_of_singleton in Hr. subst r.
    vm_compute in Hc. injection Hc as <-. reflexivity.
Defined.

(** ** String search *)

Section SearchFacts.

Implicit Types s p t : str.

Lemma startsWith_nil s : JS.startsWith s [] = true.
Proof. destruct s; reflexivity. Qed.

Lemma startsWith_app p t : JS.startsWith (p ++ t) p = true.
Proof.
  induction p as [|c p IH]; [apply startsWith_nil|].
  simpl. rewrite Ascii.eqb_refl. exact IH.
Qed.

Lemma startsWith_prefix s p :
  JS.startsWith s p = true → s = p ++ drop (length p) s.
Proof.
  revert s. induction p as [|c p IH]; intros s H; [reflexivity|].
  destruct s as [|d s]; [discriminate|]. simpl in H.
  apply andb_true_iff in H as [Hc H]. apply Ascii.eqb_eq in Hc. subst d.
  simpl. f_equal. apply IH, H.
Qed.

(** A match inside a prefix of [s] is a match in [s]. *)
Lemma startsWith_take s p n :
  JS.startsWith (take n s) p = true → JS.startsWith s p = true.
Proof.
  intros H. apply startsWith_prefix in H.
  rewrite <- (take_drop n s), H, <- app_assoc. apply startsWith_app.
Qed.

Lemma startsWith_length s p :
  JS.startsWith s p = true → (length p <= length s)%nat.
Proof.
  intros H. apply startsWith_prefix in H.
  rewrite H, length_app. lia.
Qed.

(** [indexOf]: the first position of a match, if there is one. *)
Lemma indexOf_from_spec p : ∀ s i,
  (JS.indexOf_from s p i = -1 ∧
   ∀ j, (j <= length s)%nat → JS.startsWith (drop j s) p = false)
  ∨ (∃ k, JS.indexOf_from s p i = i + Z.of_nat k ∧ (k <= length s)%nat ∧
          JS.startsWith (drop k s) p = true ∧
          ∀ j, (j < k)%nat → JS.startsWith (drop j s) p = false).
Proof.
  induction s as [|c s IH]; intros i.
  - cbn [JS.indexOf_from]. destruct (JS.startsWith [] p) eqn:E.
    + right. exists 0%nat. rewrite Z.add_0_r. split; [reflexivity|].
      split; [reflexivity|]. split; [exact E|]. intros j Hj. lia.
    + left. split; [reflexivity|]. intros j Hj. rewrite drop_nil. exact E.
  - cbn [JS.indexOf_from]. destruct (JS.startsWith (c :: s) p) eqn:E.
    + right. exists 0%nat. rewrite Z.add_0_r. split; [reflexivity|].
      split; [simpl; lia|]. split; [exact E|]. intros j Hj. lia.
    + destruct (IH (i + 1)) as [[Hn Hall]|(k & Hk & Hle & Hm & Hbefore)].
      * left. split; [exact Hn|]. intros [|j] Hj; [exact E|].
        simpl. apply Hall. simpl in Hj. lia.
      * right. exists (S k). split; [rewrite Hk; lia|].
        split; [simpl; lia|]. split; [exact Hm|].
        intros [|j] Hj; [exact E|]. simpl. apply Hbefore. lia.
Qed.

(** [lastIndexOf]: the last position of a match, if there is one. *)
Lemma lastIndexOf_from_spec p : ∀ s i, 0 <= i →
  (JS.lastIndexOf_from s p i = -1 ∧
   ∀ j, (j <= length s)%nat → JS.startsWith (drop j s) p = false)
  ∨ (∃ k, JS.lastIndexOf_from s p i = i + Z.of_nat k ∧ (k <= length s)%nat ∧
          JS.startsWith (drop k s) p = true ∧
          ∀ j, (k < j <= length s)%nat → JS.startsWith (drop j s) p = false).
Proof.
  induction s as [|c s IH]; intros i Hi.
  - cbn [JS.lastIndexOf_from]. destruct (JS.startsWith [] p) eqn:E.
    + right. exists 0%nat. rewrite Z.add_0_r. split; [reflexivity|].
      split; [reflexivity|]. split; [exact E|]. intros j Hj. simpl in Hj. lia.
    + left. split; [reflexivity|]. intros j Hj. rewrite drop_nil. exact E.
  - change (JS.lastIndexOf_from (c :: s) p i)
      with (let later := JS.lastIndexOf_from s p (i + 1) in
            if later =? -1 then (if JS.startsWith (c :: s) p then i else -1)
            else later).
    cbv zeta.
    destruct (IH (i + 1)) as [[Hn Hall]|(k & Hk & Hle & Hm & Hafter)]; [lia| |].
    + rewrite Hn. change (-1 =? -1) with true. cbv iota.
      destruct (JS.startsWith (c :: s) p) eqn:E.
      * right. exists 0%nat. rewrite Z.add_0_r. split; [reflexivity|].
        split; [simpl; lia|]. split; [exact E|].
        intros [|j] Hj; [lia|]. simpl. apply Hall. simpl in Hj. lia.
      * left. split; [reflexivity|]. intros [|j] Hj; [exact E|].
        simpl. apply Hall. simpl in Hj. lia.
    + rewrite Hk.
      destruct (i + 1 + Z.of_nat k =? -1) eqn:E1; [apply Z.eqb_eq in E1; lia|].
      right. exists (S k). split; [lia|]. split; [simpl; lia|].
      split; [exact Hm|]. intros [|j] Hj; [lia|]. simpl. apply Hafter.
      simpl in Hj. lia.
Qed.

(** A text that continues with the pattern after [a] has its first match at
    or before the end of [a]. *)
Lemma indexOf_found (a p t : str) :
  ∃ k, JS.indexOf (a ++ p ++ t) p = Z.of_nat k ∧ (k <= length a)%nat ∧
       JS.startsWith (drop k (a ++ p ++ t)) p = true ∧
       ∀ j, (j < k)%nat → JS.startsWith (drop j (a ++ p ++ t)) p = false.
Proof.
  unfold JS.indexOf.
  assert (Hat : JS.startsWith (drop (length a) (a ++ p ++ t)) p = true).
  { rewrite drop_app_length. apply startsWith_app. }
  destruct (indexOf_from_spec p (a ++ p ++ t) 0)
    as [[_ Hall]|(k & Hk & Hle & Hm & Hbefore)].
  - rewrite Hall in Hat; [discriminate|]. rewrite length_app. lia.
  - exists k. rewrite Hk. split; [lia|]. split; [|split; assumption].
    destruct (le_lt_dec k (length a)) as [H|H]; [exact H|].
    rewrite (Hbefore (length a) H) in Hat. discriminate.
Qed.

End SearchFacts.

(** ** String slices *)

Section StringSliceFacts.

Context {A : Type}.
Implicit Types l : list A.

Lemma slice_take l k :
  0 <= k → JS.slice l 0 k = take (Z.to_nat k) l.
Proof.
  intros Hk. destruct (Z_le_gt_dec k (Z.of_nat (length l))) as [H|H].
  - apply slice_prefix. lia.
  - rewrite slice_all by lia. symmetry. apply take_ge. lia.
Qed.

Lemma slice_from_drop l k :
  0 <= k <= Z.of_nat (length l) → JS.slice_from l k = drop (Z.to_nat k) l.
Proof.
  intros Hk. unfold JS.slice_from, JS.slice, JS.rel_index.
  destruct (k <? 0) eqn:Ek; [apply Z.ltb_lt in Ek; lia|].
  destruct (Z.of_nat (length l) <? 0) eqn:El; [apply Z.ltb_lt in El; lia|].
  rewrite Z.min_id. rewrite Z.min_l by lia.
  apply take_ge. rewrite length_drop. lia.
Qed.

End StringSliceFacts.

(** ** Context builder *)

Section TruncationFacts.

Import Context.

(** A match that ends within the first [w] characters is a match in the
    first [w] characters. *)
Lemma startsWith_in_take (s p : str) (j w : nat) :
  JS.startsWith (drop j s) p = true → (j + length p <= w)%nat →
  JS.startsWith (drop j (take w s)) p = true.
Proof.
  intros Hm Hw. rewrite skipn_firstn_comm.
  apply startsWith_prefix in Hm. rewrite Hm.
  rewrite take_app_ge by lia. apply startsWith_app.
Qed.

Lemma startsWith_of_take (s p : str) (j w : nat) :
  JS.startsWith (drop j (take w s)) p = true →
  JS.startsWith (drop j s) p = true.
Proof.
  rewrite skipn_firstn_comm. apply startsWith_take.
Qed.

(** The cases of [truncateContext] on a context that is over the limit and
    contains a separator. *)
Lemma truncateContext_cases (context : str) (maxTokens : Z) (e : nat) :
  maxTokens * 4 < Z.of_nat (length context) →
  JS.indexOf context separator = Z.of_nat e →
  (e <= length context)%nat →
  ∃ middle notice,
    truncateContext context maxTokens = take e context ++ middle ++ notice ∧
    truncation_shape maxTokens context e middle notice.
Proof.
  intros Hlong Hidx He. unfold truncateContext, truncation_shape, window.
  cbv zeta.
  destruct (Z.of_nat (length context) <=? maxTokens * 4) eqn:E0;
    [apply Z.leb_le in E0; lia|].
  rewrite Hidx.
  destruct (Z.of_nat e =? -1) eqn:E1; [apply Z.eqb_eq in E1; lia|].
  rewrite slice_take by lia. rewrite Nat2Z.id.
  rewrite slice_from_drop by lia. rewrite Nat2Z.id.
  rewrite length_take_le by exact He.
  set (rmc := maxTokens * 4 - Z.of_nat e - 50).
  set (rest := drop e context).
  destruct (rmc <=? 0) eqn:E2.
  - apply Z.leb_le in E2. exists [], notice_details.
    split; [reflexivity|]. left. split; [lia|]. split; reflexivity.
  - apply Z.leb_gt in E2. rewrite slice_take by lia.
    set (w := Z.to_nat rmc). set (tr := take w rest).
    assert (Hw : (0 < w)%nat) by (unfold w; lia).
    assert (Htr : length tr = Nat.min w (length rest))
      by (unfold tr; apply length_take).
    unfold JS.lastIndexOf.
    destruct (lastIndexOf_from_spec separator tr 0)
      as [[Hn Hall]|(k & Hk & Hle & Hm & Hafter)]; [lia| |].
    + rewrite Hn. change (0 <? -1) with false. cbv iota.
      exists tr, notice_context. split; [reflexivity|].
      right. right. split; [exact Hw|]. split; [reflexivity|].
      split; [|reflexivity]. intros j Hj Hfit.
      destruct (JS.startsWith (drop j rest) separator) eqn:Es; [|reflexivity].
      apply (startsWith_in_take rest separator j w) in Es; [|lia].
      fold tr in Es. rewrite Hall in Es; [discriminate|]. lia.
    + rewrite Hk, Z.add_0_l.
      destruct (0 <? Z.of_nat k) eqn:E3.
      * apply Z.ltb_lt in E3. rewrite slice_take by lia. rewrite Nat2Z.id.
        exists (take k tr), notice_some. split; [reflexivity|].
        right. left. exists k.
        pose proof (startsWith_length _ _ Hm) as Hlen.
        rewrite length_drop, Htr in Hlen.
        split; [lia|]. split; [lia|].
        split; [unfold tr; rewrite take_take; f_equal; lia|].
        split; [apply (startsWith_of_take rest separator k w), Hm|].
        split; [|reflexivity]. intros j Hj Hfit.
        destruct (JS.startsWith (drop j rest) separator) eqn:Es; [|reflexivity].
        apply (startsWith_in_take rest separator j w) in Es; [|lia].
        fold tr in Es. rewrite Hafter in Es; [discriminate|]. lia.
      * apply Z.ltb_ge in E3. assert (k = 0%nat) by lia. subst k.
        exists tr, notice_context. split; [reflexivity|].
        right. right. split; [exact Hw|]. split; [reflexivity|].
        split; [|reflexivity]. intros j Hj Hfit.
        destruct (JS.startsWith (drop j rest) separator) eqn:Es; [|reflexivity].
        apply (startsWith_in_take rest separator j w) in Es; [|lia].
        fold tr in Es. rewrite Hafter in Es; [discriminate|]. lia.
Qed.

Lemma estimate_over_budget (text : str) :
  MAX_CONTEXT_TOKENS < estimateTokenCount text ↔
  MAX_CONTEXT_TOKENS * 4 < Z.of_nat (length text).
Proof.
  unfold estimateTokenCount, MAX_CONTEXT_TOKENS. split; intros H.
  - destruct (Z_le_gt_dec (Z.of_nat (length text)) 200000) as [Hle|Hgt]; [|lia].
    assert ((Z.of_nat (length text) + 3) / 4 < 50001); [|lia].
    apply Z.div_lt_upper_bound; lia.
  - assert (50001 <= (Z.of_nat (length text) + 3) / 4); [|lia].
    apply Z.div_le_lower_bound; lia.
Qed.

Variable formatDuration : Q → str.
Variable formatBytes : Z → str.
Variable JSON_parse : str → option JSON.
Variable JSON_stringify : JSON → str.

Let summaryOf := buildSummarySection formatDuration formatBytes.
Let sectionsOf :=
  requestSections formatDuration formatBytes JSON_parse JSON_stringify.
Let build := buildContext formatDuration formatBytes JSON_parse JSON_stringify.

(** C4, as the builder implements it.  Whenever the estimate of the joined
    document exceeds the budget of 50,000 tokens, the returned document is
    the text before the first separator, which is the summary section in
    full unless a separator starts inside the summary, followed by a part of
    the rest of the document and by one of three truncation notices.  The
    part kept is empty when the summary leaves no room; it ends right before
    the last separator within the window when there is one besides the first;
    and otherwise it is the whole window, which ends wherever the budget
    does. *)
Theorem buildContext_truncation (requests : list Sanitizer.SanitizedRequest) :
  let summary := summaryOf requests in
  let context := JS.join separator (summary :: sectionsOf requests 1) in
  requests ≠ [] →
  MAX_CONTEXT_TOKENS < estimateTokenCount context →
  ∃ e middle notice,
    JS.indexOf context separator = Z.of_nat e ∧
    (e <= length summary)%nat ∧
    ((∀ j, (j < length summary)%nat →
           JS.startsWith (drop j context) separator = false) →
     take e summary = summary) ∧
    build requests = take e summary ++ middle ++ notice ∧
    notice ∈ [notice_details; notice_some; notice_context] ∧
    truncation_shape MAX_CONTEXT_TOKENS context e middle notice.
Proof.
  intros summary context Hne Hover.
  destruct requests as [|r rest]; [congruence|].
  assert (Hctx : ∃ t, context = summary ++ separator ++ t).
  { unfold context, sectionsOf. simpl. eexists. reflexivity. }
  destruct Hctx as [t Hctx].
  destruct (indexOf_found summary separator t) as (e & Hidx & He & Hm & Hbefore).
  rewrite <- Hctx in Hidx, Hm, Hbefore.
  assert (Hlen : (e <= length context)%nat)
    by (rewrite Hctx, length_app; lia).
  apply estimate_over_budget in Hover as Hlong.
  destruct (truncateContext_cases context MAX_CONTEXT_TOKENS e Hlong Hidx Hlen)
    as (middle & notice & Htr & Hshape).
  exists e, middle, notice.
  split; [exact Hidx|]. split; [exact He|]. split; [|split; [|split]].
  - intros Hfree. apply take_ge.
    destruct (le_lt_dec (length summary) e) as [H|H]; [exact H|].
    rewrite (Hfree e H) in Hm. discriminate.
  - unfold build, buildContext. fold summaryOf sectionsOf. fold summary.
    fold context. apply Z.ltb_lt in Hover. rewrite Hover, Htr.
    rewrite Hctx, (take_app_le summary _ e He). reflexivity.
  - destruct Hshape as [(_ & _ & ->)|[(k & _ & _ & _ & _ & _ & ->)|(_ & _ & _ & ->)]];
      rewrite !elem_of_cons; auto.
  - exact Hshape.
Qed.

Lemma buildSummarySection_nonempty (requests : list Sanitizer.SanitizedRequest) :
  (0 < length (summaryOf requests))%nat.
Proof.
  unfold summaryOf, buildSummarySection. cbv zeta.
  change (lit "# Request Summary") with ("#"%char :: lit " Request Summary").
  repeat match goal with
         | |- context [if ?b then _ else _] => destruct b
         end;
    rewrite ?length_app; simpl length; lia.
Qed.

Lemma join_cons_length (sep a : str) (rest : list str) :
  (length a <= length (JS.join sep (a :: rest)))%nat.
Proof.
  destruct rest as [|b rest]; [reflexivity|].
  change (JS.join sep (a :: b :: rest)) with (a ++ sep ++ JS.join sep (b :: rest)).
  rewrite length_app. lia.
Qed.

(** Every branch of [truncateContext] beyond its first ends with a notice. *)
Lemma truncateContext_nonempty (context : str) (maxTokens : Z) :
  maxTokens * 4 < Z.of_nat (length context) →
  (0 < length (truncateContext context maxTokens))%nat.
Proof.
  intros Hlong. unfold truncateContext. cbv zeta.
  destruct (Z.of_nat (length context) <=? maxTokens * 4) eqn:E0;
    [apply Z.leb_le in E0; lia|].
  repeat match goal with
         | |- context [if ?b then _ else _] => destruct b
         end;
    rewrite ?length_app;
    change (length notice_context) with 33%nat;
    change (length notice_details) with 41%nat;
    change (length notice_some) with 39%nat; lia.
Qed.

(** C9.  For an empty list the document is the text [No requests
    provided.]: 21 characters, an estimate of 6 tokens, which is within the
    budget, and no truncation notice at its end.  [buildContext] is a total
    function, the one host call of its body that can throw being caught: it
    returns a document, and never an empty one, for every list. *)
Theorem buildContext_empty :
  build [] = lit "No requests provided." ∧
  estimateTokenCount (build []) = 6 ∧
  estimateTokenCount (build []) <= MAX_CONTEXT_TOKENS ∧
  (∀ notice, notice ∈ [notice_details; notice_some; notice_context] →
     ∀ before, build [] ≠ before ++ notice) ∧
  (∀ requests, ∃ c document, build requests = c :: document).
Proof.
  split; [reflexivity|]. split; [reflexivity|].
  split; [vm_compute; discriminate|]. split.
  - intros notice Hn before Heq.
    assert (Hrev : rev (build []) = rev notice ++ rev before)
      by (rewrite Heq; apply rev_app_distr).
    rewrite !elem_of_cons, elem_of_nil in Hn.
    destruct Hn as [->|[->|[->|[]]]]; vm_compute in Hrev; discriminate Hrev.
  - intros requests.
    assert (Hpos : (0 < length (build requests))%nat).
    { destruct requests as [|r rest]; [vm_compute; lia|].
      unfold build, buildContext. fold summaryOf sectionsOf.
      set (context := JS.join separator
                        (summaryOf (r :: rest) :: sectionsOf (r :: rest) 1)).
      destruct (MAX_CONTEXT_TOKENS <? estimateTokenCount context) eqn:E.
      - apply truncateContext_nonempty, estimate_over_budget, Z.ltb_lt, E.
      - pose proof (buildSummarySection_nonempty (r :: rest)).
        pose proof (join_cons_length separator (summaryOf (r :: rest))
                      (sectionsOf (r :: rest) 1)).
        fold context in H0. lia. }
    destruct (build requests) as [|c document]; [simpl in Hpos; lia|].
    exists c, document. reflexivity.
Qed.

End TruncationFacts.

Section TruncationExamples.

Import Context.

Lemma join_two (sep a b : str) : JS.join sep [a; b] = a ++ sep ++ b.
Proof. reflexivity. Qed.

Lemma buildContext_single fd fb parse stringify r :
  buildContext fd fb parse stringify [r]
  = let context := JS.join separator
                     [buildSummarySection fd fb [r];
                      buildRequestSection fd fb parse stringify r 1] in
    if MAX_CONTEXT_TOKENS <? estimateTokenCount context
    then truncateContext context MAX_CONTEXT_TOKENS else context.
Proof. reflexivity. Qed.

(** The two sections of the document for one sample request, for any host
    that prints a duration and a size of zero as [format.ts] does. *)
Lemma sample_sections (fd : Q → str) (fb : Z → str) parse stringify (u : str) :
  fd 0%Q = lit "0ms" → fb 0 = lit "0 B" →
  buildSummarySection fd fb [Sample.sanitized u] = Sample.summaryText ∧
  buildRequestSection fd fb parse stringify (Sample.sanitized u) 1
  = Sample.sectionText u.
Proof.
  intros Hfd Hfb. vm_compute in Hfd, Hfb.
  split; vm_compute; rewrite ?Hfd, ?Hfb; reflexivity.
Qed.

Lemma long_document_over_budget :
  MAX_CONTEXT_TOKENS
  < estimateTokenCount
      (Sample.summaryText ++ separator ++ Sample.sectionText Sample.longUrl).
Proof. vm_compute. reflexivity. Qed.

Lemma long_document_truncated :
  truncateContext
    (Sample.summaryText ++ separator ++ Sample.sectionText Sample.longUrl)
    MAX_CONTEXT_TOKENS
  = Sample.summaryText ++ separator
    ++ take (Z.to_nat 199795) (Sample.sectionText Sample.longUrl)
    ++ notice_context.
Proof. refine (bool_decide_eq_true_1 _ _). vm_compute. reflexivity. Qed.

End TruncationExamples.

(** A single request with a URL of 200,000 characters is over the budget;
    its document is truncated as the theorem says. *)
Lemma buildContext_truncation_witness :
  let requests := [Sample.sanitized Sample.longUrl] in
  let summary :=
    Context.buildSummarySection Sample.formatDuration Sample.formatBytes
      requests in
  let context :=
    JS.join Context.separator
      (summary :: Context.requestSections Sample.formatDuration
                    Sample.formatBytes (λ _, None) (λ _, []) requests 1) in
  ∃ e middle notice,
    JS.indexOf context Context.separator = Z.of_nat e ∧
    (e <= length summary)%nat ∧
    ((∀ j, (j < length summary)%nat →
           JS.startsWith (drop j context) Context.separator = false) →
     take e summary = summary) ∧
    Context.buildContext Sample.formatDuration Sample.formatBytes
      (λ _, None) (λ _, []) requests
    = take e summary ++ middle ++ notice ∧
    notice ∈ [Context.notice_details; Context.notice_some;
              Context.notice_context] ∧
    Context.truncation_shape Context.MAX_CONTEXT_TOKENS context e middle notice.
Proof.
  apply (buildContext_truncation Sample.formatDuration Sample.formatBytes
           (λ _, None) (λ _, []) [Sample.sanitized Sample.longUrl]).
  - discriminate.
  - vm_compute. reflexivity.
Defined.

(** C4 as stated fails: for a single request with a URL of 200,000
    characters the estimate exceeds the budget, and the returned document
    holds the summary, the separator and the first 199,795 characters of the
    one request section, cut in the middle of its heading line, before the
    notice.  This holds for every host whose formatters print a duration and
    a size of zero as [format.ts] does, as the sample formatters do. *)
Lemma truncation_cuts_inside_section :
  Z.of_nat (length Sample.longUrl) = 200000 ∧
  Sample.formatDuration 0 = lit "0ms" ∧ Sample.formatBytes 0 = lit "0 B" ∧
  ∀ fd fb parse stringify, fd 0%Q = lit "0ms" → fb 0 = lit "0 B" →
    let r := Sample.sanitized Sample.longUrl in
    let summary := Context.buildSummarySection fd fb [r] in
    let section := Context.buildRequestSection fd fb parse stringify r 1 in
    let document := Context.buildContext fd fb parse stringify [r] in
    Context.MAX_CONTEXT_TOKENS
    < Context.estimateTokenCount (JS.join Context.separator [summary; section]) ∧
    (∃ k, (0 <? k)%nat = true ∧ (k <? length section)%nat = true ∧
          document = summary ++ Context.separator ++ take k section
                     ++ Context.notice_context) ∧
    (∀ n notice,
       notice ∈ [Context.notice_details; Context.notice_some;
                 Context.notice_context] →
       document ≠ JS.join Context.separator (summary :: take n [section])
                  ++ notice).
Proof.
  split; [vm_compute; reflexivity|].
  split; [reflexivity|]. split; [reflexivity|].
  intros fd fb parse stringify Hfd Hfb r summary section document.
  destruct (sample_sections fd fb parse stringify Sample.longUrl Hfd Hfb)
    as [Hs Hsec].
  assert (Hdoc : document
                 = Sample.summaryText ++ Context.separator
                   ++ take (Z.to_nat 199795) (Sample.sectionText Sample.longUrl)
                   ++ Context.notice_context).
  { unfold document, r. rewrite buildContext_single. cbv zeta.
    rewrite Hs, Hsec, join_two.
    pose proof long_document_over_budget as Hover.
    apply Z.ltb_lt in Hover. rewrite Hover.
    apply long_document_truncated. }
  unfold summary, section, r. rewrite Hs, Hsec, join_two.
  split; [exact long_document_over_budget|]. split.
  - exists (Z.to_nat 199795).
    split; [vm_compute; reflexivity|]. split; [vm_compute; reflexivity|].
    exact Hdoc.
  - intros n notice Hn Heq.
    assert (Hlen : Z.of_nat (length document) = 199983)
      by (rewrite Hdoc; vm_compute; reflexivity).
    rewrite Heq in Hlen. clear Heq Hdoc.
    rewrite !elem_of_cons, elem_of_nil in Hn.
    destruct n as [|n].
    + change (take 0 [Sample.sectionText Sample.longUrl]) with (@nil str) in Hlen.
      destruct Hn as [->|[->|[->|[]]]]; vm_compute in Hlen; discriminate Hlen.
    + change (take (S n) [Sample.sectionText Sample.longUrl])
        with (Sample.sectionText Sample.longUrl :: take n []) in Hlen.
      rewrite take_nil in Hlen.
      destruct Hn as [->|[->|[->|[]]]]; vm_compute in Hlen; discriminate Hlen.
Qed.

(* ================================================================== *)
(** * Part III: further properties of the code *)
(* ================================================================== *)

(** * Further properties of the capture store *)

Section StoreExtras.

Import Store.

(** A run of the store: the actions applied in order. *)
Lemma run_snoc (actions : list Action) (a : Action) (s : RequestsState) :
  fold_left (λ st b, step b st) (actions ++ [a]) s
  = step a (fold_left (λ st b, step b st) actions s).
Proof. rewrite fold_left_app. reflexivity. Qed.

Lemma maxRequests_step (a : Action) (s : RequestsState) :
  maxRequests (step a s)
  = match a with SetMaxRequests m => m | _ => maxRequests s end.
Proof.
  destruct a; try reflexivity; simpl.
  - unfold addRequest. destruct (isPaused s); [reflexivity|].
    destruct (_ <? _); reflexivity.
  - unfold setMaxRequests. destruct (_ <? _); reflexivity.
Qed.

(** X1.  The store never holds more records than its bound: from the initial
    store, after any sequence of actions in which every bound set is
    positive, the sequence is at most [maxRequests] long. *)
Theorem capacity_never_exceeded (actions : list Action) :
  Forall (λ a, ∀ m, a = SetMaxRequests m → 0 < m) actions →
  let s := fold_left (λ st a, step a st) actions initial in
  0 < maxRequests s ∧ Z.of_nat (length (requests s)) <= maxRequests s.
Proof.
  intros Hall. cbv zeta.
  induction actions as [|a actions IH] using rev_ind.
  - simpl. lia.
  - apply Forall_app in Hall as [Hall Ha].
    apply Forall_cons in Ha as [Ha _].
    destruct (IH Hall) as [Hpos Hcap]. rewrite run_snoc.
    split.
    + rewrite maxRequests_step. destruct a; try exact Hpos.
      apply (Ha max eq_refl).
    + apply (within_capacity_preserved a _ Hpos Ha Hcap).
Qed.

Lemma capacity_never_exceeded_witness :
  let s := fold_left (λ st a, step a st)
             [AddRequest (Sample.request "1" "https://a.example/");
              AddRequest (Sample.request "2" "https://b.example/");
              SetMaxRequests 1;
              AddRequest (Sample.request "3" "https://c.example/")] initial in
  0 < maxRequests s ∧ Z.of_nat (length (requests s)) <= maxRequests s.
Proof.
  apply capacity_never_exceeded.
  repeat constructor; intros m Hm; try discriminate Hm.
  injection Hm as <-. lia.
Defined.

Lemma find_id_none (l : list NetworkRequest) (i : str) :
  List.find (λ r, JS.str_eqb (id r) i) l = None ↔ ∀ r, r ∈ l → id r ≠ i.
Proof.
  induction l as [|x l IH]; simpl.
  - split; [intros _ r Hr; inversion Hr|reflexivity].
  - unfold JS.str_eqb at 1. destruct (bool_decide_reflect (id x = i)) as [E|E].
    + split; [discriminate|]. intros H. exfalso. apply (H x); [left|exact E].
    + rewrite IH. split.
      * intros H r Hr. apply elem_of_cons in Hr as [->|Hr]; auto.
      * intros H r Hr. apply H. right. exact Hr.
Qed.

Lemma find_id_filter_other (l : list NetworkRequest) (i j : str) :
  j ≠ i →
  List.find (λ r, JS.str_eqb (id r) j)
            (List.filter (λ r, negb (JS.str_eqb (id r) i)) l)
  = List.find (λ r, JS.str_eqb (id r) j) l.
Proof.
  intros Hj. induction l as [|x l IH]; [reflexivity|].
  cbn [List.filter List.find].
  destruct (JS.str_eqb (id x) i) eqn:Ei; cbn [negb List.find].
  - apply str_eqb_eq in Ei.
    destruct (JS.str_eqb (id x) j) eqn:Ej; [|exact IH].
    apply str_eqb_eq in Ej. congruence.
  - rewrite IH. reflexivity.
Qed.

(** X2.  [removeRequest] forgets the id everywhere, and only that id: no record
    with the id is left, the id is in neither side table, and every other id
    is looked up and flagged as before. *)
Theorem removeRequest_forgets (i : str) (s : RequestsState) :
  let s' := removeRequest i s in
  getRequestById i s' = None ∧ (i ∉ favorites s') ∧ (i ∉ selected s') ∧
  ∀ j : str, j ≠ i →
    getRequestById j s' = getRequestById j s ∧
    (j ∈ favorites s' ↔ j ∈ favorites s) ∧
    (j ∈ selected s' ↔ j ∈ selected s).
Proof.
  cbv zeta. unfold getRequestById. simpl.
  split; [|split; [|split]].
  - apply find_id_none. intros r Hr.
    apply list_elem_of_In, List.filter_In in Hr as [_ Hr].
    apply negb_true_iff in Hr. unfold JS.str_eqb in Hr.
    apply bool_decide_eq_false in Hr. exact Hr.
  - rewrite elem_of_difference, elem_of_singleton. tauto.
  - rewrite elem_of_difference, elem_of_singleton. tauto.
  - intros j Hj. split; [apply find_id_filter_other, Hj|].
    rewrite !elem_of_difference, !elem_of_singleton. tauto.
Qed.

Lemma find_app_none {A} (f : A → bool) (l k : list A) :
  List.find f l = None → List.find f (l ++ k) = List.find f k.
Proof.
  induction l as [|x l IH]; simpl; [reflexivity|].
  destruct (f x); [discriminate|]. exact IH.
Qed.

(** X3.  A record admitted under a fresh id is found by that id: on an un-paused
    store with a positive bound, [getRequestById] after [addRequest] returns
    the record itself. *)
Theorem addRequest_then_getRequestById (r : NetworkRequest) (s : RequestsState) :
  isPaused s = false → 0 < maxRequests s →
  getRequestById (id r) s = None →
  getRequestById (id r) (addRequest r s) = Some r.
Proof.
  intros Hp Hc Hfresh. unfold getRequestById in *.
  assert (Hlast : ∀ l : list NetworkRequest,
            List.find (λ x, JS.str_eqb (id x) (id r)) l = None →
            List.find (λ x, JS.str_eqb (id x) (id r)) (l ++ [r]) = Some r).
  { intros l Hl. rewrite (find_app_none _ _ _ Hl). simpl.
    unfold JS.str_eqb. rewrite bool_decide_eq_true_2 by reflexivity.
    reflexivity. }
  unfold addRequest. rewrite Hp.
  destruct (maxRequests s <? Z.of_nat (length (requests s ++ [r]))) eqn:E;
    simpl; [|apply Hlast, Hfresh].
  apply Z.ltb_lt in E. rewrite slice_from_suffix by lia.
  rewrite length_app in *. simpl in *.
  rewrite drop_app_le by lia. apply Hlast.
  apply find_id_none. intros x Hx.
  apply (proj1 (find_id_none _ _) Hfresh).
  apply (subseteq_drop _ _ _ Hx).
Qed.

Lemma addRequest_then_getRequestById_witness :
  getRequestById (lit "2")
    (addRequest (Sample.request "2" "https://b.example/")
       (setMaxRequests 1
          (addRequest (Sample.request "1" "https://a.example/") initial)))
  = Some (Sample.request "2" "https://b.example/").
Proof.
  apply (addRequest_then_getRequestById (Sample.request "2" "https://b.example/"));
    [reflexivity | simpl; lia | reflexivity].
Defined.

Lemma toggle_toggle (i : str) (tbl : gset str) : toggle i (toggle i tbl) = tbl.
Proof.
  apply set_eq. intros j. rewrite !elem_of_toggle.
  destruct (decide (j = i)) as [->|Hne]; [|tauto].
  destruct (decide (i ∈ tbl)); tauto.
Qed.

(** X4.  Toggling twice is the identity: a second [toggleFavorite] or
    [toggleSelected] on the same id restores the store, whether or not the id
    was flagged and whether or not a record has it. *)
Theorem toggle_twice (i : str) (s : RequestsState) :
  toggleFavorite i (toggleFavorite i s) = s ∧
  toggleSelected i (toggleSelected i s) = s.
Proof.
  destruct s. unfold toggleFavorite, toggleSelected. simpl.
  rewrite !toggle_toggle. split; reflexivity.
Qed.

Lemma id_injective_on (l : list NetworkRequest) (x y : NetworkRequest) :
  NoDup (map id l) → x ∈ l → y ∈ l → id x = id y → x = y.
Proof.
  induction l as [|z l IH]; intros Hnd Hx Hy Hid; [inversion Hx|].
  simpl in Hnd. apply NoDup_cons in Hnd as [Hz Hnd].
  apply elem_of_cons in Hx as [->|Hx]; apply elem_of_cons in Hy as [->|Hy].
  - reflexivity.
  - exfalso. apply Hz. rewrite Hid. apply list_elem_of_fmap. eauto.
  - exfalso. apply Hz. rewrite <- Hid. apply list_elem_of_fmap. eauto.
  - apply IH; assumption.
Qed.

Lemma filter_by_filtered_ids (f : NetworkRequest → bool) (l : list NetworkRequest) :
  NoDup (map id l) →
  List.filter (λ r, bool_decide (id r ∈ idSet (List.filter f l))) l
  = List.filter f l.
Proof.
  intros Hnd. apply List.filter_ext_in. intros r Hr.
  apply list_elem_of_In in Hr.
  destruct (f r) eqn:Ef.
  - apply bool_decide_eq_true_2. apply elem_of_idSet. exists r.
    split; [|reflexivity]. apply list_elem_of_In, List.filter_In.
    split; [apply list_elem_of_In, Hr|exact Ef].
  - apply bool_decide_eq_false_2. intros Hin.
    apply elem_of_idSet in Hin as (r' & Hr' & Hid).
    apply list_elem_of_In, List.filter_In in Hr' as [Hr' Ef'].
    apply list_elem_of_In in Hr'.
    rewrite (id_injective_on l r' r Hnd Hr' Hr Hid) in Ef'. congruence.
Qed.

(** X5.  With distinct ids, [selectAll] selects what the search shows:
    [getSelectedRequests] after [selectAll] is [getFilteredRequests], in the
    same order, and the records, the favorites and the query are untouched. *)
Theorem selectAll_selects_filtered (s : RequestsState) :
  NoDup (map id (requests s)) →
  getSelectedRequests (selectAll s) = getFilteredRequests s ∧
  getFilteredRequests (selectAll s) = getFilteredRequests s ∧
  favorites (selectAll s) = favorites s.
Proof.
  intros Hnd. split; [|split; reflexivity].
  unfold getSelectedRequests, selectAll. simpl.
  unfold getFilteredRequests.
  destruct (negb (JS.truthy (JS.trim (searchQuery s)))).
  - pose proof (filter_by_filtered_ids (λ _, true) _ Hnd) as H.
    rewrite !List.filter_true in H. exact H.
  - apply filter_by_filtered_ids, Hnd.
Qed.

Lemma selectAll_selects_filtered_witness :
  let s := setSearchQuery (lit "B.EXAMPLE")
             (admitAll [Sample.request "1" "https://a.example/";
                        Sample.request "2" "https://b.example/"] initial) in
  getSelectedRequests (selectAll s) = getFilteredRequests s ∧
  getFilteredRequests (selectAll s) = getFilteredRequests s ∧
  favorites (selectAll s) = favorites s.
Proof.
  apply selectAll_selects_filtered.
  refine (bool_decide_eq_true_1 _ _). vm_compute. reflexivity.
Defined.

Lemma elem_of_without_idSet (tbl : gset str) (l : list NetworkRequest) (i : str) :
  i ∈ without tbl (idSet l) ↔ i ∈ tbl ∧ i ∉ map id l.
Proof.
  rewrite elem_of_without. unfold idSet. rewrite elem_of_list_to_set.
  reflexivity.
Qed.

(** X6.  Lowering the bound keeps the newest records: for a positive [max],
    [setMaxRequests max] leaves the last [max] records in order (all of them
    when there are no more than [max]), records [max] as the bound, and
    removes from the favorites and the selection exactly the ids of the
    records it dropped. *)
Theorem setMaxRequests_keeps_newest (max : Z) (s : RequestsState) :
  0 < max →
  let k := (length (requests s) - Z.to_nat max)%nat in
  let s' := setMaxRequests max s in
  requests s' = drop k (requests s) ∧
  maxRequests s' = max ∧
  (∀ i : str, i ∈ favorites s' ↔
              i ∈ favorites s ∧ i ∉ map id (take k (requests s))) ∧
  (∀ i : str, i ∈ selected s' ↔
              i ∈ selected s ∧ i ∉ map id (take k (requests s))).
Proof.
  intros Hmax. cbv zeta. unfold setMaxRequests.
  destruct (max <? Z.of_nat (length (requests s))) eqn:E; simpl.
  - apply Z.ltb_lt in E.
    rewrite slice_from_suffix by lia. rewrite slice_prefix by lia.
    replace (Z.to_nat (Z.of_nat (length (requests s)) - max))
      with (length (requests s) - Z.to_nat max)%nat by lia.
    split; [reflexivity|]. split; [reflexivity|].
    split; intros i; apply elem_of_without_idSet.
  - apply Z.ltb_ge in E.
    replace (length (requests s) - Z.to_nat max)%nat with 0%nat by lia.
    simpl. split; [reflexivity|]. split; [reflexivity|].
    split; intros i; (split; [intros H; split; [exact H|]|tauto]);
      intros Hin; inversion Hin.
Qed.

Lemma setMaxRequests_keeps_newest_witness :
  let s := toggleFavorite (lit "1")
             (admitAll [Sample.request "1" "https://a.example/";
                        Sample.request "2" "https://b.example/"] initial) in
  let k := (length (requests s) - Z.to_nat 1)%nat in
  let s' := setMaxRequests 1 s in
  requests s' = drop k (requests s) ∧
  maxRequests s' = 1 ∧
  (∀ i : str, i ∈ favorites s' ↔
              i ∈ favorites s ∧ i ∉ map id (take k (requests s))) ∧
  (∀ i : str, i ∈ selected s' ↔
              i ∈ selected s ∧ i ∉ map id (take k (requests s))).
Proof.
  apply (setMaxRequests_keeps_newest 1). lia.
Defined.

(** X7.  A bound of zero does not empty the store: [setMaxRequests 0] on a
    non-empty store keeps every record ([slice(-0)] is the whole array),
    while it removes the id of every record from the favorites and the
    selection. *)
Theorem setMaxRequests_zero_bound (s : RequestsState) :
  requests s ≠ [] →
  let s' := setMaxRequests 0 s in
  requests s' = requests s ∧ maxRequests s' = 0 ∧
  (∀ r, r ∈ requests s' → (id r ∉ favorites s') ∧ (id r ∉ selected s')).
Proof.
  intros Hne. cbv zeta. unfold setMaxRequests.
  destruct (0 <? Z.of_nat (length (requests s))) eqn:E.
  - simpl. rewrite slice_from_zero. rewrite Z.sub_0_r, slice_all by lia.
    split; [reflexivity|]. split; [reflexivity|].
    intros r Hr.
    split; intros Hin; apply elem_of_without in Hin as [_ Hin]; apply Hin;
      apply elem_of_idSet; eauto.
  - apply Z.ltb_ge in E. destruct (requests s); [congruence|simpl in E; lia].
Qed.

Lemma setMaxRequests_zero_bound_witness :
  let s := toggleFavorite (lit "1")
             (addRequest (Sample.request "1" "https://a.example/") initial) in
  let s' := setMaxRequests 0 s in
  requests s' = requests s ∧ maxRequests s' = 0 ∧
  (∀ r, r ∈ requests s' → (id r ∉ favorites s') ∧ (id r ∉ selected s')).
Proof.
  apply setMaxRequests_zero_bound. discriminate.
Defined.

End StoreExtras.

(** * Further properties of the HAR parser and of the capture handler *)

Section ParserExtras.

Import Parser.





Lemma nonneg_ge_0 (x : option Q) : (0 <= nonneg x)%Q.
Proof.
  unfold nonneg. destruct x as [q|]; [|apply Qle_refl].
  destruct (Qle_bool 0 q) eqn:E; [apply Qle_bool_iff, E|apply Qle_refl].
Qed.

Lemma nonneg_keeps (q : Q) : (0 <= q)%Q → nonneg (Some q) = q.
Proof.
  intros H. unfold nonneg. rewrite (proj2 (Qle_bool_iff 0 q) H). reflexivity.
Qed.

(** X9.  No phase of [parseTiming] is negative, whatever the entry holds: the
    [-1] that a HAR entry uses for a phase that does not apply, and a missing
    phase or a missing [timings] object, all give [0]; and each of the seven
    phases that is reported non-negative is kept as it is. *)
Theorem parseTiming_nonnegative (entry : HarEntry) :
  let t := parseTiming entry in
  ((0 <= blocked t)%Q ∧ (0 <= dns t)%Q ∧ (0 <= connect t)%Q ∧ (0 <= ssl t)%Q ∧
   (0 <= send t)%Q ∧ (0 <= wait t)%Q ∧ (0 <= receive t)%Q) ∧
  (∀ h q, timings entry = Some h → (0 <= q)%Q →
          (t_blocked h = Some q → blocked t = q) ∧
          (t_dns h = Some q → dns t = q) ∧
          (t_connect h = Some q → connect t = q) ∧
          (t_ssl h = Some q → ssl t = q) ∧
          (t_send h = Some q → send t = q) ∧
          (t_wait h = Some q → wait t = q) ∧
          (t_receive h = Some q → receive t = q)).
Proof.
  cbv zeta. unfold parseTiming. split.
  - destruct (timings entry) as [h|]; simpl;
      repeat split; try apply nonneg_ge_0; apply Qle_refl.
  - intros h q -> Hpos. simpl.
    repeat split; intros ->; apply nonneg_keeps, Hpos.
Qed.

Variable byteLength : str → Z.
Variable JSON_parse : str → option JSON.

(** X10.  The size recorded for a request body is that of [postData.text] alone.
    A record without a request body has [requestBodySize = 0]; so has a
    record whose body was serialised from the form parameters
    ([name=value] pairs joined by [&]) because [postData.text] was empty or
    missing. *)
Theorem parseHarEntry_request_body_size (newId : str) (entry : HarEntry) :
  let r := parseHarEntry byteLength JSON_parse newId entry in
  (requestBody r = None → requestBodySize r = 0) ∧
  (∀ pd p ps, postData entry = Some pd → JS.truthy_opt (text pd) = false →
              params pd = Some (p :: ps) →
              requestBody r
              = Some (JS.join (lit "&")
                        (map (λ nv, fst nv ++ lit "=" ++ default [] (snd nv))
                             (p :: ps))) ∧
              requestBodySize r = 0) ∧
  (∀ pd c b, postData entry = Some pd → text pd = Some (c :: b) →
             requestBody r = Some (c :: b) ∧
             requestBodySize r = byteLength (c :: b)).
Proof.
  cbv zeta. unfold parseHarEntry. cbv zeta.
  assert (Hb : ∀ x y, requestBody (set_isGraphQL x y) = requestBody y)
    by reflexivity.
  assert (Hs : ∀ x y, requestBodySize (set_isGraphQL x y) = requestBodySize y)
    by reflexivity.
  unfold getRequestBody, getRequestBodySize.
  split; [|split].
  - destruct (match content_size entry with Some n => n | None => 0 end
              <=? MAX_BODY_SIZE); destruct (getContent entry);
      cbn [fst snd negb]; rewrite Hb, Hs; cbn [requestBody requestBodySize];
      (destruct (postData entry) as [pd|]; [|reflexivity]);
      (destruct (text pd) as [[|c b]|]; [reflexivity|discriminate|reflexivity]).
  - intros pd p ps Hpd Ht Hps.
    destruct (match content_size entry with Some n => n | None => 0 end
              <=? MAX_BODY_SIZE); destruct (getContent entry);
      cbn [fst snd negb]; rewrite Hb, Hs; cbn [requestBody requestBodySize];
      rewrite Hpd, Ht, Hps;
      (split; [reflexivity|]);
      (destruct (text pd) as [[|c b]|]; [reflexivity|discriminate|reflexivity]).
  - intros pd c b Hpd Ht.
    destruct (match content_size entry with Some n => n | None => 0 end
              <=? MAX_BODY_SIZE); destruct (getContent entry);
      cbn [fst snd negb]; rewrite Hb, Hs; cbn [requestBody requestBodySize];
      rewrite Hpd, Ht; split; reflexivity.
Qed.

End ParserExtras.

Section CaptureExtras.

Import Parser Capture.

Context {E : RegExpEngine}.
Variable URL_origin : str → option str.
Variable byteLength : str → Z.
Variable JSON_parse : str → option JSON.

Lemma matchesExclusionPattern_false (url_ : str) (patterns : list str) :
  matchesExclusionPattern url_ patterns = false ↔
  ∀ p, p ∈ patterns → patternMatches url_ p = false.
Proof.
  induction patterns as [|p ps IH]; simpl.
  - split; [intros _ p Hp; inversion Hp|reflexivity].
  - destruct (patternMatches url_ p) eqn:Ep.
    + split; [discriminate|]. intros H. rewrite <- Ep. apply H. left.
    + rewrite IH. split.
      * intros H q Hq. apply elem_of_cons in Hq as [->|Hq]; auto.
      * intros H q Hq. apply H. right. exact Hq.
Qed.

(** X11.  What the capture handler lets through.  A finished request reaches the
    store's [addRequest], as the record [parseHarEntry] builds from it, when
    the capture is running, no exclusion pattern matches its URL (a pattern
    is tried as a regular expression and, if it is not one, as a glob), and
    it is in scope: the page URL is not known yet, or the scope is [all], or
    the request has the origin of the page.  In every other case the store
    is left as it was. *)
Theorem capture_handler_gate (cap : CaptureState) (newId : str)
    (entry : HarEntry) :
  let url_ := request_url entry in
  let admitted :=
    isCapturing cap = true ∧
    (∀ p, p ∈ exclusionPatterns cap → patternMatches url_ p = false) ∧
    (pageUrl cap = [] ∨ scope cap = ScopeAll ∨
     getOrigin URL_origin url_ = getOrigin URL_origin (pageUrl cap)) in
  (admitted → ∀ store,
     handleRequestFinished URL_origin byteLength JSON_parse cap newId entry store
     = Store.addRequest (parseHarEntry byteLength JSON_parse newId entry) store) ∧
  (¬ admitted → ∀ store,
     handleRequestFinished URL_origin byteLength JSON_parse cap newId entry store
     = store).
Proof.
  cbv zeta. unfold handleRequestFinished, capturedRequest.
  destruct (isCapturing cap) eqn:Ec; cbn [negb].
  2:{ split; [intros [H _]; discriminate|reflexivity]. }
  destruct (matchesExclusionPattern (request_url entry) (exclusionPatterns cap))
    eqn:Em.
  { split; [|reflexivity]. intros (_ & H & _).
    apply (proj2 (matchesExclusionPattern_false _ _)) in H. congruence. }
  pose proof (proj1 (matchesExclusionPattern_false _ _) Em) as Hex.
  destruct (pageUrl cap) as [|c u] eqn:Eu; cbn [JS.truthy andb].
  { split; [reflexivity|]. intros H. exfalso. apply H. auto. }
  unfold shouldCaptureRequest.
  destruct (scope cap) eqn:Es; cbn [negb].
  3:{ split; [reflexivity|]. intros H. exfalso. apply H. auto. }
  all: destruct (JS.str_eqb (getOrigin URL_origin (request_url entry))
                            (getOrigin URL_origin (c :: u))) eqn:Eo;
    cbn [negb].
  all: try (split; [reflexivity|]; intros H; exfalso; apply H;
            apply str_eqb_eq in Eo; auto).
  all: split; [|reflexivity].
  all: intros (_ & _ & [H|[H|H]]); try discriminate H.
  all: apply str_eqb_eq in H; congruence.
Qed.

End CaptureExtras.

(** * Properties of the GraphQL operations *)

Section GraphqlExtras.

Import GraphqlOps.

Lemma not_quote (c : ascii) :
  c ≠ quote ∧ c ≠ apostrophe →
  Ascii.eqb c quote || Ascii.eqb c apostrophe = false.
Proof.
  intros [H1 H2]. apply orb_false_iff.
  split; apply Ascii.eqb_neq; assumption.
Qed.

(** The loop of [formatGraphQLQuery] outside a string: it throws at the
    first closing brace that has no opening brace before it, and not
    otherwise. *)
Lemma formatLoop_throws (query : str) : ∀ (prev : option ascii) (st : FormatState),
  quote_free query → inString st = false → 0 <= indentLevel st →
  match formatLoop prev query st with
  | Throw _ => closes_unopened (Z.to_nat (indentLevel st)) query = true
  | Normal _ => closes_unopened (Z.to_nat (indentLevel st)) query = false
  end.
Proof.
  induction query as [|c rest IH]; intros prev st Hq Hs Hl; [reflexivity|].
  apply Forall_cons in Hq as [Hc Hq].
  cbn [formatLoop closes_unopened]. unfold formatStep.
  rewrite (not_quote c Hc). cbn [andb]. rewrite Hs.
  destruct (Ascii.eqb c "{") eqn:E1.
  { unfold indent_repeat.
    destruct (indentLevel st + 1 <? 0) eqn:E; [apply Z.ltb_lt in E; lia|].
    cbn [mbind Completion_bind mret Completion_ret].
    assert (Hn : S (Z.to_nat (indentLevel st)) = Z.to_nat (indentLevel st + 1))
      by lia.
    rewrite Hn.
    apply (IH (Some c)
      {| formatted := (formatted st ++ lit " {" ++ JS.nl)
                      ++ concat (repeat (lit "  ") (Z.to_nat (indentLevel st + 1)));
         indentLevel := indentLevel st + 1;
         inString := false; stringChar := stringChar st |} Hq eq_refl).
    cbn [indentLevel]. lia. }
  destruct (Ascii.eqb c "}") eqn:E2.
  { unfold indent_repeat.
    destruct (indentLevel st - 1 <? 0) eqn:E.
    - apply Z.ltb_lt in E. cbn [mbind Completion_bind].
      replace (Z.to_nat (indentLevel st)) with 0%nat by lia. reflexivity.
    - apply Z.ltb_ge in E.
      cbn [mbind Completion_bind mret Completion_ret].
      destruct (Z.to_nat (indentLevel st)) as [|n] eqn:En; [lia|].
      assert (Hn : n = Z.to_nat (indentLevel st - 1)) by lia.
      rewrite Hn.
      apply (IH (Some c)
        {| formatted := formatted st
                        ++ (JS.nl
                            ++ concat (repeat (lit "  ")
                                         (Z.to_nat (indentLevel st - 1)))
                            ++ lit "}");
           indentLevel := indentLevel st - 1;
           inString := false; stringChar := stringChar st |} Hq eq_refl).
      cbn [indentLevel]. lia. }
  destruct (Ascii.eqb c linefeed).
  { cbn [mbind Completion_bind]. apply IH; assumption. }
  destruct (Ascii.eqb c " " || Ascii.eqb c tab).
  { destruct (JS.truthy (formatted st) && negb (endsWith (formatted st) (lit " "))
              && negb (endsWith (formatted st) JS.nl));
      cbn [mbind Completion_bind].
    - apply (IH (Some c)
        {| formatted := formatted st ++ lit " "; indentLevel := indentLevel st;
           inString := false; stringChar := stringChar st |} Hq eq_refl Hl).
    - apply IH; assumption. }
  cbn [mbind Completion_bind].
  apply (IH (Some c)
    {| formatted := formatted st ++ [c]; indentLevel := indentLevel st;
       inString := false; stringChar := stringChar st |} Hq eq_refl Hl).
Qed.

(** X12.  [formatGraphQLQuery] throws on unbalanced input.  On a query without
    string literals it throws (the [RangeError] of [indent.repeat] on a
    negative count) exactly when some closing brace comes without an opening
    brace before it; on every other such query it returns the formatted
    text. *)
Theorem formatGraphQLQuery_throws_iff (query : str) :
  quote_free query →
  (closes_unopened 0 query = true ↔ ∃ e, formatGraphQLQuery query = Throw e) ∧
  (closes_unopened 0 query = false ↔
   ∃ text, formatGraphQLQuery query = Normal text).
Proof.
  intros Hq. unfold formatGraphQLQuery.
  pose proof (formatLoop_throws query None
    {| formatted := []; indentLevel := 0; inString := false;
       stringChar := None |} Hq eq_refl (Z.le_refl 0)) as H.
  cbn [indentLevel] in H. change (Z.to_nat 0) with 0%nat in H.
  destruct (formatLoop None query _) as [st|e] eqn:El;
    cbn [mbind Completion_bind mret Completion_ret]; rewrite H.
  - split; (split; [try discriminate|]); eauto.
    intros [e He]. discriminate.
  - split; (split; [try discriminate|]); eauto.
    intros [s Hs]. discriminate.
Qed.

Lemma formatGraphQLQuery_throws_iff_witness :
  (closes_unopened 0 (lit "{ me } }") = true ↔
   ∃ e, formatGraphQLQuery (lit "{ me } }") = Throw e) ∧
  (closes_unopened 0 (lit "{ me } }") = false ↔
   ∃ text, formatGraphQLQuery (lit "{ me } }") = Normal text).
Proof.
  apply formatGraphQLQuery_throws_iff.
  unfold quote_free, lit. cbn [list_ascii_of_string].
  repeat (apply Forall_cons; split; [split; discriminate|]).
  apply Forall_nil_2.
Defined.

Lemma trimStart_spaces (ws s : str) :
  forallb JS.is_space ws = true → JS.trimStart (ws ++ s) = JS.trimStart s.
Proof.
  induction ws as [|c ws IH]; intros H; [reflexivity|].
  cbn [forallb] in H. apply andb_true_iff in H as [Hc H].
  cbn [app JS.trimStart]. rewrite Hc. apply IH, H.
Qed.

Lemma trimStart_split (s : str) :
  ∃ ws, s = ws ++ JS.trimStart s ∧ forallb JS.is_space ws = true.
Proof.
  induction s as [|c s (ws & Hs & Hws)]; [exists []; split; reflexivity|].
  cbn [JS.trimStart]. destruct (JS.is_space c) eqn:Ec.
  - exists (c :: ws). split; [cbn [app]; congruence|].
    cbn [forallb]. rewrite Ec. exact Hws.
  - exists []. split; reflexivity.
Qed.

Lemma word_not_space (c : ascii) : is_word c = true → JS.is_space c = false.
Proof.
  destruct c as [[] [] [] [] [] [] [] []]; vm_compute; congruence.
Qed.

Lemma space_not_initial (c : ascii) :
  JS.is_space c = true →
  Ascii.eqb "q" c = false ∧ Ascii.eqb "m" c = false ∧ Ascii.eqb "s" c = false.
Proof.
  destruct c as [[] [] [] [] [] [] [] []]; vm_compute; intros H;
    repeat split; congruence.
Qed.

Lemma takeWord_word (s : str) : forallb is_word (takeWord s) = true.
Proof.
  induction s as [|c s IH]; [reflexivity|]. cbn [takeWord].
  destruct (is_word c) eqn:Ec; [|reflexivity].
  cbn [forallb]. rewrite Ec. exact IH.
Qed.

Lemma takeWord_split (s : str) :
  ∃ rest, s = takeWord s ++ rest ∧ word_ends rest.
Proof.
  induction s as [|c s (rest & Hs & Hr)]; [exists []; split; [reflexivity|exact I]|].
  cbn [takeWord]. destruct (is_word c) eqn:Ec.
  - exists rest. split; [cbn [app]; congruence|exact Hr].
  - exists (c :: s). split; [reflexivity|exact Ec].
Qed.

Lemma takeWord_app (w rest : str) :
  forallb is_word w = true → word_ends rest → takeWord (w ++ rest) = w.
Proof.
  induction w as [|c w IH]; intros Hw Hr.
  - destruct rest as [|d rest]; [reflexivity|].
    cbn [app takeWord]. simpl in Hr. rewrite Hr. reflexivity.
  - cbn [forallb] in Hw. apply andb_true_iff in Hw as [Hc Hw].
    cbn [app takeWord]. rewrite Hc, IH by assumption. reflexivity.
Qed.

Lemma afterKeyword_iff (query x : str) :
  afterKeyword query = Some x ↔ ∃ kw, query = type_text kw ++ x.
Proof.
  split.
  - unfold afterKeyword.
    destruct (JS.startsWith query (lit "query")) eqn:E1.
    { intros [= <-]. exists Query. apply startsWith_prefix in E1. exact E1. }
    destruct (JS.startsWith query (lit "mutation")) eqn:E2.
    { intros [= <-]. exists Mutation. apply startsWith_prefix in E2. exact E2. }
    destruct (JS.startsWith query (lit "subscription")) eqn:E3; [|discriminate].
    intros [= <-]. exists Subscription. apply startsWith_prefix in E3. exact E3.
  - intros [kw ->]. unfold afterKeyword. destruct kw; cbn [type_text].
    + rewrite startsWith_app. reflexivity.
    + change (JS.startsWith (lit "mutation" ++ x) (lit "query")) with false.
      cbv iota. rewrite startsWith_app. reflexivity.
    + change (JS.startsWith (lit "subscription" ++ x) (lit "query")) with false.
      change (JS.startsWith (lit "subscription" ++ x) (lit "mutation")) with false.
      cbv iota. rewrite startsWith_app. reflexivity.
Qed.

(** X13.  [getGraphQLOperationName] is the match of
    [/^(?:query|mutation|subscription)\s+(\w+)/]: it returns [w] exactly when
    the query is one of the three keywords, then at least one white-space
    character, then the word [w], which is not empty and is not followed by a
    further word character. *)
Theorem getGraphQLOperationName_iff (query w : str) :
  getGraphQLOperationName query = Some w ↔
  ∃ kw ws rest,
    query = type_text kw ++ ws ++ w ++ rest ∧
    ws ≠ [] ∧ forallb JS.is_space ws = true ∧
    w ≠ [] ∧ forallb is_word w = true ∧ word_ends rest.
Proof.
  unfold getGraphQLOperationName. split.
  - destruct (afterKeyword query) as [[|c x]|] eqn:Ea; try discriminate.
    apply afterKeyword_iff in Ea as [kw ->].
    destruct (JS.is_space c) eqn:Ec; [|discriminate].
    destruct (trimStart_split x) as (ws & Hx & Hws).
    destruct (takeWord_split (JS.trimStart x)) as (rest & Ht & Hr).
    pose proof (takeWord_word (JS.trimStart x)) as Hw.
    destruct (takeWord (JS.trimStart x)) as [|d w'] eqn:Ew; [discriminate|].
    intros [= <-]. exists kw, (c :: ws), rest.
    split; [|split; [discriminate|split; [|split; [discriminate|split]]]].
    + rewrite Hx at 1. rewrite Ht. reflexivity.
    + cbn [forallb]. rewrite Ec. exact Hws.
    + exact Hw.
    + exact Hr.
  - intros (kw & ws & rest & -> & Hne & Hws & Hwne & Hw & Hr).
    rewrite (proj2 (afterKeyword_iff _ (ws ++ w ++ rest))) by eauto.
    destruct ws as [|c ws]; [congruence|].
    cbn [forallb] in Hws. apply andb_true_iff in Hws as [Hc Hws].
    cbn [app]. rewrite Hc, trimStart_spaces by exact Hws.
    destruct w as [|d w]; [congruence|].
    assert (Hd : JS.is_space d = false).
    { apply word_not_space. cbn [forallb] in Hw.
      apply andb_true_iff in Hw as [Hd _]. exact Hd. }
    cbn [app JS.trimStart]. rewrite Hd.
    change (d :: w ++ rest) with ((d :: w) ++ rest).
    rewrite takeWord_app by assumption. reflexivity.
Qed.

(** X14.  Leading white space is ignored by [getGraphQLOperationType], which trims
    the query, and defeats [getGraphQLOperationName], whose expression is
    anchored at the first character: a query that starts with white space has
    the type of the query without it, and no name. *)
Theorem leading_space_type_and_name (ws query : str) :
  ws ≠ [] → forallb JS.is_space ws = true →
  getGraphQLOperationType (ws ++ query) = getGraphQLOperationType query ∧
  getGraphQLOperationName (ws ++ query) = None.
Proof.
  intros Hne Hws. split.
  - unfold getGraphQLOperationType, JS.trim.
    rewrite trimStart_spaces by exact Hws. reflexivity.
  - destruct ws as [|c ws]; [congruence|].
    cbn [forallb] in Hws. apply andb_true_iff in Hws as [Hc _].
    destruct (space_not_initial c Hc) as (Hq & Hm & Hs).
    unfold getGraphQLOperationName, afterKeyword.
    cbn [app]. unfold lit. cbn [list_ascii_of_string JS.startsWith].
    rewrite Hq, Hm, Hs. reflexivity.
Qed.

Lemma leading_space_type_and_name_witness :
  getGraphQLOperationType (lit " " ++ lit "query Me { me }")
  = getGraphQLOperationType (lit "query Me { me }") ∧
  getGraphQLOperationName (lit " " ++ lit "query Me { me }") = None.
Proof.
  apply leading_space_type_and_name; [discriminate|reflexivity].
Defined.

Variable JSON_parse : str → option JSON.

Lemma type_text_nonempty (t : OperationType) (tail : str) :
  type_text t ++ tail ≠ [].
Proof. destruct t; discriminate. Qed.

(** X15.  When a request has a GraphQL summary.  [getGraphQLSummary] returns a
    summary exactly when the request has a non-empty body that parses as a
    JSON object with a string-typed [query]; so every request that the
    classifier flags on the strength of its body has one; and a summary is
    never the empty string. *)
Theorem getGraphQLSummary_defined (r : NetworkRequest) :
  (is_Some (getGraphQLSummary JSON_parse r) ↔
   ∃ body q, requestBody r = Some body ∧ body ≠ [] ∧
             Json.as_string
               (Json.get (Classifier.safeJsonParse JSON_parse body) (lit "query"))
             = Some q) ∧
  (Classifier.bodyLooksGraphQL JSON_parse r = true →
   is_Some (getGraphQLSummary JSON_parse r)) ∧
  (∀ s, getGraphQLSummary JSON_parse r = Some s → s ≠ []).
Proof.
  assert (Hop : ∀ body q,
            Json.as_string
              (Json.get (Classifier.safeJsonParse JSON_parse body) (lit "query"))
            = Some q →
            ∃ op, parseGraphQLOperation JSON_parse body = Some op).
  { intros body q Hq. unfold parseGraphQLOperation.
    destruct (Classifier.safeJsonParse JSON_parse body); try discriminate Hq.
    cbn [Json.truthy Json.is_object negb orb]. rewrite Hq. eauto. }
  assert (Hsome : ∀ body, body ≠ [] → requestBody r = Some body →
            ∀ op, parseGraphQLOperation JSON_parse body = Some op →
            ∃ s, getGraphQLSummary JSON_parse r = Some s ∧ s ≠ []).
  { intros body Hne Hb op Hp. unfold getGraphQLSummary. rewrite Hb.
    destruct body as [|c b]; [congruence|]. rewrite Hp.
    destruct (getGraphQLOperationType (op_query op)) as [t|].
    - destruct (match operationName op with
                | Some (n :: ns) => Some (n :: ns)
                | _ => getGraphQLOperationName (op_query op)
                end) as [n|]; eexists; (split; [reflexivity|]).
      + apply type_text_nonempty.
      + rewrite <- (app_nil_r (type_text t)). apply type_text_nonempty.
    - destruct (match operationName op with
                | Some (n :: ns) => Some (n :: ns)
                | _ => getGraphQLOperationName (op_query op)
                end); eexists; (split; [reflexivity|discriminate]). }
  assert (Hiff : is_Some (getGraphQLSummary JSON_parse r) ↔
            ∃ body q, requestBody r = Some body ∧ body ≠ [] ∧
              Json.as_string
                (Json.get (Classifier.safeJsonParse JSON_parse body) (lit "query"))
              = Some q).
  { split.
    - intros [s Hs]. unfold getGraphQLSummary in Hs.
      destruct (requestBody r) as [[|c b]|]; try discriminate Hs.
      exists (c :: b). unfold parseGraphQLOperation in Hs.
      destruct (negb _ || negb _); [discriminate|].
      destruct (Json.as_string _) as [q|]; [|discriminate].
      exists q. split; [reflexivity|]. split; [discriminate|reflexivity].
    - intros (body & q & Hb & Hne & Hq).
      destruct (Hop body q Hq) as [op Hp].
      destruct (Hsome body Hne Hb op Hp) as (s & Hs & _).
      exists s. exact Hs. }
  split; [exact Hiff|]. split.
  - intros Hc. apply Hiff. unfold Classifier.bodyLooksGraphQL in Hc.
    destruct (requestBody r) as [body|]; [|discriminate].
    destruct body as [|c b]; [discriminate|].
    destruct (JS.truthy (c :: b) && Classifier.isJsonContent r); [|discriminate].
    destruct (Json.truthy _ && Json.is_object _); [|discriminate].
    destruct (Json.as_string _) as [q|] eqn:Eq; [|discriminate].
    exists (c :: b), q. split; [reflexivity|]. split; [discriminate|exact Eq].
  - intros s Hs.
    assert (His : is_Some (getGraphQLSummary JSON_parse r)) by eauto.
    apply Hiff in His as (body & q & Hb & Hne & Hq).
    destruct (Hop body q Hq) as [op Hp].
    destruct (Hsome body Hne Hb op Hp) as (s' & Hs' & Hne').
    congruence.
Qed.

End GraphqlExtras.

(** * Further properties of the formatting helpers and of the context builder *)

Section FormatExtras.

Import Format.

(** X16.  [truncateUrl] keeps its promise from three characters up: for
    [maxLength >= 3] the result has [min(url.length, maxLength)] characters;
    it is the URL itself when that fits, and otherwise the first
    [maxLength - 3] characters of the URL followed by three dots. *)
Theorem truncateUrl_length (url_ : str) (maxLength : Z) :
  3 <= maxLength →
  Z.of_nat (length (truncateUrl url_ maxLength))
  = Z.min (Z.of_nat (length url_)) maxLength ∧
  (Z.of_nat (length url_) <= maxLength → truncateUrl url_ maxLength = url_) ∧
  (maxLength < Z.of_nat (length url_) →
   truncateUrl url_ maxLength
   = take (Z.to_nat (maxLength - 3)) url_ ++ lit "...").
Proof.
  intros Hm. unfold truncateUrl.
  destruct (Z.of_nat (length url_) <=? maxLength) eqn:E.
  - apply Z.leb_le in E. split; [lia|]. split; [reflexivity|lia].
  - apply Z.leb_gt in E. rewrite slice_take by lia.
    split; [|split; [lia|reflexivity]].
    rewrite length_app, length_take_le by lia.
    change (length (lit "...")) with 3%nat. lia.
Qed.

Lemma truncateUrl_length_witness :
  Z.of_nat (length (truncateUrl (lit "https://api.example.com/very/long/path") 30))
  = Z.min (Z.of_nat (length (lit "https://api.example.com/very/long/path"))) 30 ∧
  (Z.of_nat (length (lit "https://api.example.com/very/long/path")) <= 30 →
   truncateUrl (lit "https://api.example.com/very/long/path") 30
   = lit "https://api.example.com/very/long/path") ∧
  (30 < Z.of_nat (length (lit "https://api.example.com/very/long/path")) →
   truncateUrl (lit "https://api.example.com/very/long/path") 30
   = take (Z.to_nat (30 - 3)) (lit "https://api.example.com/very/long/path")
     ++ lit "...").
Proof.
  apply truncateUrl_length. lia.
Defined.

End FormatExtras.

Section BudgetFacts.

Import Context.

Lemma estimate_le (text : str) (maxTokens : Z) :
  estimateTokenCount text <= maxTokens ↔ Z.of_nat (length text) <= maxTokens * 4.
Proof.
  unfold estimateTokenCount. split; intros H.
  - pose proof (Z.mul_div_le (Z.of_nat (length text) + 3) 4 eq_refl).
    pose proof (Z.mod_pos_bound (Z.of_nat (length text) + 3) 4 eq_refl).
    pose proof (Z.div_mod (Z.of_nat (length text) + 3) 4). lia.
  - apply Z.lt_succ_r. apply Z.div_lt_upper_bound; lia.
Qed.

(** The length of a truncated context whose first separator is at [e]. *)
Lemma truncateContext_length (context : str) (maxTokens : Z) (e : nat) :
  maxTokens * 4 < Z.of_nat (length context) →
  JS.indexOf context separator = Z.of_nat e →
  Z.of_nat e + 41 <= maxTokens * 4 →
  Z.of_nat (length (truncateContext context maxTokens)) <= maxTokens * 4.
Proof.
  intros Hlong Hidx Hroom.
  assert (He : (e <= length context)%nat) by lia.
  destruct (truncateContext_cases context maxTokens e Hlong Hidx He)
    as (middle & notice & -> & Hshape).
  rewrite !length_app, length_take_le by exact He.
  unfold truncation_shape, window in Hshape. cbv zeta in Hshape.
  destruct Hshape as [(Hw & -> & ->)|[(k & Hk & Hkw & -> & _ & _ & ->)
                                     |(Hw & -> & _ & ->)]].
  - change (length notice_details) with 41%nat. simpl length. lia.
  - change (length notice_some) with 39%nat.
    change (length separator) with 7%nat in Hkw.
    rewrite length_take. lia.
  - change (length notice_context) with 33%nat.
    rewrite length_take. lia.
Qed.

(** X17.  Whether a truncated context fits the budget.  When the context holds a
    section separator and the text before the first one leaves room for a
    notice (41 characters), the result of [truncateContext] is estimated at
    no more than [maxTokens] tokens.  When a context over the limit holds no
    separator, the result is the first [maxTokens * 4] characters followed by
    a notice of 33 characters, and is estimated at [maxTokens + 9] tokens:
    over the budget it was cut to. *)
Theorem truncateContext_budget (context : str) (maxTokens : Z) :
  (JS.indexOf context separator ≠ -1 →
   JS.indexOf context separator + 41 <= maxTokens * 4 →
   estimateTokenCount (truncateContext context maxTokens) <= maxTokens) ∧
  (JS.indexOf context separator = -1 →
   0 <= maxTokens → maxTokens * 4 < Z.of_nat (length context) →
   truncateContext context maxTokens
   = take (Z.to_nat (maxTokens * 4)) context ++ notice_context ∧
   estimateTokenCount (truncateContext context maxTokens) = maxTokens + 9).
Proof.
  split.
  - intros Hfound Hroom. apply estimate_le.
    destruct (Z_le_gt_dec (Z.of_nat (length context)) (maxTokens * 4)) as [H|H].
    + unfold truncateContext. cbv zeta.
      rewrite (proj2 (Z.leb_le _ _) H). exact H.
    + destruct (indexOf_from_spec separator context 0)
        as [[Hnone _]|(k & Hk & _)]; [contradiction|].
      unfold JS.indexOf in *. rewrite Hk in Hroom.
      apply (truncateContext_length context maxTokens k); [lia|exact Hk|lia].
  - intros Hnone Hpos Hlong.
    assert (Heq : truncateContext context maxTokens
                  = take (Z.to_nat (maxTokens * 4)) context ++ notice_context).
    { unfold truncateContext. cbv zeta.
      rewrite (proj2 (Z.leb_gt _ _) Hlong), Hnone.
      change (-1 =? -1) with true. cbv iota.
      rewrite slice_take by lia. reflexivity. }
    split; [exact Heq|]. rewrite Heq. unfold estimateTokenCount.
    rewrite length_app, length_take_le by lia.
    change (length notice_context) with 33%nat.
    replace (Z.of_nat (Z.to_nat (maxTokens * 4) + 33) + 3)
      with ((maxTokens + 9) * 4) by lia.
    apply Z.div_mul. lia.
Qed.

Variable formatDuration : Q → str.
Variable formatBytes : Z → str.
Variable JSON_parse : str → option JSON.
Variable JSON_stringify : JSON → str.

(** X18.  The document built for the model fits the budget: for a non-empty list
    of requests whose summary section has at most 199,959 characters,
    [buildContext] returns a document estimated at no more than
    [MAX_CONTEXT_TOKENS] tokens, truncated or not. *)
Theorem buildContext_within_budget (requests : list Sanitizer.SanitizedRequest) :
  requests ≠ [] →
  Z.of_nat (length (buildSummarySection formatDuration formatBytes requests))
  + 41 <= MAX_CONTEXT_TOKENS * 4 →
  estimateTokenCount
    (buildContext formatDuration formatBytes JSON_parse JSON_stringify requests)
  <= MAX_CONTEXT_TOKENS.
Proof.
  intros Hne Hsum. unfold buildContext.
  destruct requests as [|r rs]; [congruence|].
  set (summary := buildSummarySection formatDuration formatBytes (r :: rs)) in *.
  cbv zeta.
  set (context := JS.join separator (summary :: _)).
  destruct (MAX_CONTEXT_TOKENS <? estimateTokenCount context) eqn:E.
  - apply Z.ltb_lt, estimate_over_budget in E. apply estimate_le.
    assert (Hctx : ∃ t, context = summary ++ separator ++ t).
    { unfold context. cbn [requestSections JS.join]. eauto. }
    destruct Hctx as [t Ht].
    destruct (indexOf_found summary separator t) as (k & Hk & Hks & _).
    rewrite <- Ht in Hk.
    apply (truncateContext_length context MAX_CONTEXT_TOKENS k);
      [exact E|exact Hk|lia].
  - apply Z.ltb_ge in E. exact E.
Qed.


End BudgetFacts.

Lemma buildContext_within_budget_witness :
  Context.estimateTokenCount
    (Context.buildContext Sample.formatDuration Sample.formatBytes
       (λ _, None) (λ _, [])
       [Sample.sanitized Sample.longUrl; Sample.sanitized Sample.longUrl])
  <= Context.MAX_CONTEXT_TOKENS.
Proof.
  apply buildContext_within_budget; [discriminate|].
  apply Z.leb_le. vm_compute. reflexivity.
Defined.

(** * Further properties of the redaction engine *)

Section SanitizerExtras.

Import Sanitizer.

Context {E : RegExpEngine}.

Lemma previewLoop_matched (value : str) (rules : list SanitizationRule) :
  ∀ acc matched,
    previewLoop value rules (acc, matched)
    = Normal (fold_left applyRule rules acc,
              matched ++ map name (List.filter (rule_matches value) rules)).
Proof.
  induction rules as [|rule rest IH]; intros acc matched.
  - simpl. rewrite app_nil_r. reflexivity.
  - cbn [previewLoop List.filter fold_left].
    unfold previewStep, new_RegExp, rule_matches at 1, applyRule at 2.
    destruct (compile (pattern rule)) as [re|];
      cbn [try_catch mbind Completion_bind mret Completion_ret fst snd].
    + rewrite IH. destruct (test re value); cbn [map].
      * rewrite <- app_assoc. reflexivity.
      * reflexivity.
    + apply IH.
Qed.

(** X20.  The rules a preview reports.  [matchedRules] lists the names of the
    enabled rules whose pattern compiles and matches the original input, in
    rule order: every rule is tested against the input as it was given, not
    against the text the earlier rules have produced, to which its
    replacement is applied. *)
Theorem previewSanitization_matchedRules (value : str)
    (rules : list SanitizationRule) :
  ∃ p, previewSanitization value rules = Normal p ∧
       original p = value ∧
       matchedRules p
       = map name (List.filter (rule_matches value) (List.filter enabled rules)) ∧
       sanitized p = fold_left applyRule (List.filter enabled rules) value.
Proof.
  unfold previewSanitization. rewrite previewLoop_matched.
  eexists. split; [reflexivity|]. repeat split.
Qed.

Lemma fold_applyRule_unmatched `{!RegExpLaws E} (value : str)
    (rules : list SanitizationRule) :
  (∀ r, r ∈ rules → rule_matches value r = false) →
  fold_left applyRule rules value = value.
Proof.
  induction rules as [|r rest IH]; intros H; [reflexivity|].
  cbn [fold_left].
  assert (Hr : applyRule value r = value).
  { specialize (H r (list_elem_of_here _ _)). unfold rule_matches in H.
    unfold applyRule. destruct (compile (pattern r)) as [re|]; [|reflexivity].
    apply replace_no_match, H. }
  rewrite Hr. apply IH. intros r' Hr'. apply H. right. exact Hr'.
Qed.

(** X21.  Where no rule matches, nothing changes: if no enabled rule that
    compiles has a match in the input, [sanitizeValue] returns the input, and
    the preview reports the input unchanged, no matched rule and no change. *)
Theorem unmatched_input_unchanged `{!RegExpLaws E} (value : str)
    (rules : list SanitizationRule) :
  (∀ r, r ∈ rules → enabled r = true → rule_matches value r = false) →
  sanitizeValue value rules = Normal value ∧
  previewSanitization value rules
  = Normal {| original := value; sanitized := value; matchedRules := [];
              hasChanges := false |}.
Proof.
  intros H.
  assert (H' : ∀ r, r ∈ List.filter enabled rules → rule_matches value r = false).
  { intros r Hr. apply list_elem_of_In, List.filter_In in Hr as [Hr He].
    apply H; [apply list_elem_of_In, Hr|exact He]. }
  split.
  - destruct value as [|c v]; [reflexivity|].
    rewrite sanitizeValue_nonempty by discriminate.
    unfold Sanitize_spec. rewrite fold_applyRule_unmatched by exact H'.
    reflexivity.
  - unfold previewSanitization. rewrite previewLoop_matched.
    cbn [mbind Completion_bind mret Completion_ret fst snd app].
    rewrite fold_applyRule_unmatched by exact H'.
    replace (List.filter (rule_matches value) (List.filter enabled rules))
      with (@nil SanitizationRule).
    + unfold JS.str_eqb. rewrite bool_decide_eq_true_2 by reflexivity.
      reflexivity.
    + symmetry. induction (List.filter enabled rules) as [|r rest IH];
        [reflexivity|].
      cbn [List.filter]. rewrite (H' r) by left.
      apply IH. intros r' Hr'. apply H'. right. exact Hr'.
Qed.

(** The outcome of [sanitizeValue], which never throws. *)
Lemma sanitizeValue_total (value : str) (rules : list SanitizationRule) :
  ∃ v, sanitizeValue value rules = Normal v.
Proof.
  destruct value as [|c s]; [exists []; reflexivity|].
  rewrite sanitizeValue_nonempty by discriminate. eauto.
Qed.

(** The text [sanitizeValue] returns. *)
Lemma sanitizeValue_result (rules : list SanitizationRule) :
  ∃ result : str → str, ∀ value, sanitizeValue value rules = Normal (result value).
Proof.
  exists (λ value, match sanitizeValue value rules with
                   | Normal v => v
                   | Throw _ => value
                   end).
  intros value. destruct (sanitizeValue_total value rules) as [v Hv].
  rewrite Hv. reflexivity.
Qed.

(** The loop of [sanitizeHeaders] is the filling of an object. *)
Lemma sanitizeEntries_fold (rules : list SanitizationRule) (result : str → str) :
  (∀ value, sanitizeValue value rules = Normal (result value)) →
  ∀ (entries : list (str * str)) (acc : Headers),
    sanitizeEntries entries rules acc
    = Normal (fold_left
                (λ obj kv, JS.record_set obj (fst kv) (result (snd kv)))
                entries acc).
Proof.
  intros Hres. induction entries as [|[k v] rest IH]; intros acc;
    [reflexivity|].
  cbn [sanitizeEntries fold_left fst snd]. rewrite Hres.
  cbn [mbind Completion_bind]. apply IH.
Qed.

(** On the entries of an object, [sanitizeHeaders] keeps the names and
    their order and sanitizes each value, but for an entry named
    [__proto__], which the assignment to the new object loses. *)
Lemma sanitizeHeaders_values (rules : list SanitizationRule) (headers : Headers) :
  JS.is_record headers →
  ∃ out, sanitizeHeaders headers rules = Normal out ∧
         Forall2 (λ kv kv', fst kv' = fst kv ∧
                            sanitizeValue (snd kv) rules = Normal (snd kv'))
                 (List.filter (λ kv, negb (JS.str_eqb (fst kv) JS.proto_key))
                              headers)
                 out.
Proof.
  intros [Hnd Hord]. destruct (sanitizeValue_result rules) as [result Hres].
  unfold sanitizeHeaders. rewrite (sanitizeEntries_fold rules result Hres).
  pose proof (fill_from_record (λ _, true) (λ kv, result (snd kv)) headers []
                Hnd Hord (not_elem_of_nil _)) as Hfill.
  cbv beta iota in Hfill. rewrite Hfill. clear Hfill.
  eexists. split; [reflexivity|]. cbn [app andb].
  induction (List.filter _ headers) as [|[k v] l IH]; [constructor|].
  cbn [map fst snd]. constructor; [|exact IH].
  split; [reflexivity|apply Hres].
Qed.

(** X22.  What [sanitizeRequest] touches.  It never throws.  The id, the method,
    the status and the sizes of the request are copied as they are, the
    sizes being those of the original bodies; the URL is sanitized; each
    header record keeps its names and their order, every value being the
    [sanitizeValue] of the original value, but for a header named
    [__proto__], which is lost; a body that is not empty is sanitized, and
    an absent or empty body is [null] in the result. *)
Theorem sanitizeRequest_shape (request : NetworkRequest)
    (rules : list SanitizationRule) :
  JS.is_record (requestHeaders request) →
  JS.is_record (responseHeaders request) →
  ∃ out, sanitizeRequest request rules = Normal out ∧
    s_id out = id request ∧ s_method out = method request ∧
    s_status out = status request ∧
    s_requestBodySize out = requestBodySize request ∧
    s_responseBodySize out = responseBodySize request ∧
    sanitizeValue (url request) rules = Normal (s_url out) ∧
    Forall2 (λ kv kv', fst kv' = fst kv ∧
                       sanitizeValue (snd kv) rules = Normal (snd kv'))
            (List.filter (λ kv, negb (JS.str_eqb (fst kv) JS.proto_key))
                         (requestHeaders request))
            (s_requestHeaders out) ∧
    Forall2 (λ kv kv', fst kv' = fst kv ∧
                       sanitizeValue (snd kv) rules = Normal (snd kv'))
            (List.filter (λ kv, negb (JS.str_eqb (fst kv) JS.proto_key))
                         (responseHeaders request))
            (s_responseHeaders out) ∧
    (∀ c b, requestBody request = Some (c :: b) →
            ∃ v, s_requestBody out = Some v ∧
                 sanitizeValue (c :: b) rules = Normal v) ∧
    (∀ c b, responseBody request = Some (c :: b) →
            ∃ v, s_responseBody out = Some v ∧
                 sanitizeValue (c :: b) rules = Normal v) ∧
    (JS.truthy_opt (requestBody request) = false → s_requestBody out = None) ∧
    (JS.truthy_opt (responseBody request) = false → s_responseBody out = None).
Proof.
  intros Hreq Hres. unfold sanitizeRequest.
  destruct (sanitizeValue_total (url request) rules) as [u Hu]. rewrite Hu.
  destruct (sanitizeHeaders_values rules (requestHeaders request) Hreq)
    as (h1 & Hh1 & Hall1).
  destruct (sanitizeHeaders_values rules (responseHeaders request) Hres)
    as (h2 & Hh2 & Hall2).
  rewrite Hh1, Hh2. cbn [mbind Completion_bind].
  assert (Hbody : ∀ body, ∃ body',
            sanitizeBody body rules = Normal body' ∧
            (∀ c b, body = Some (c :: b) →
                    ∃ v, body' = Some v ∧
                         sanitizeValue (c :: b) rules = Normal v) ∧
            (JS.truthy_opt body = false → body' = None)).
  { intros [[|c s]|].
    - exists None. split; [reflexivity|]. split; [discriminate|reflexivity].
    - cbn [sanitizeBody].
      destruct (sanitizeValue_total (c :: s) rules) as [v Hv]. rewrite Hv.
      eexists. split; [reflexivity|]. split; [|discriminate].
      intros c' b' [= <- <-]. eauto.
    - exists None. split; [reflexivity|]. split; [discriminate|reflexivity]. }
  destruct (Hbody (requestBody request)) as (b1 & Hb1 & Hs1 & Hn1).
  destruct (Hbody (responseBody request)) as (b2 & Hb2 & Hs2 & Hn2).
  rewrite Hb1, Hb2. cbn [mbind Completion_bind mret Completion_ret].
  eexists. split; [reflexivity|].
  cbn [s_id s_method s_status s_requestBodySize s_responseBodySize s_url
       s_requestHeaders s_responseHeaders s_requestBody s_responseBody].
  do 6 (split; [reflexivity|]).
  split; [exact Hall1|]. split; [exact Hall2|].
  split; [exact Hs1|]. split; [exact Hs2|]. split; [exact Hn1|exact Hn2].
Qed.

End SanitizerExtras.

Lemma unmatched_input_unchanged_witness :
  let E := Fragment.engine in
  Sanitizer.sanitizeValue (lit "GET /health") [Sample.rule "token" "[REDACTED]"]
  = Normal (lit "GET /health") ∧
  Sanitizer.previewSanitization (lit "GET /health")
    [Sample.rule "token" "[REDACTED]"]
  = Normal {| Sanitizer.original := lit "GET /health";
              Sanitizer.sanitized := lit "GET /health";
              Sanitizer.matchedRules := [];
              Sanitizer.hasChanges := false |}.
Proof.
  apply (@unmatched_input_unchanged Fragment.engine fragment_engine_laws).
  intros r Hr _. apply list_elem_of_singleton in Hr. subst r. reflexivity.
Defined.

(** The sanitization of [Sample.tokenRequest] under a rule that redacts the
    token: the URL, a header value and both bodies change, the names of the
    headers do not. *)
Lemma sanitizeRequest_shape_witness :
  let E := Fragment.engine in
  let request := Sample.tokenRequest in
  let rules := [Sample.rule "abc" "[X]"] in
  ∃ out, Sanitizer.sanitizeRequest request rules = Normal out ∧
    Sanitizer.s_id out = id request ∧ Sanitizer.s_method out = method request ∧
    Sanitizer.s_status out = status request ∧
    Sanitizer.s_requestBodySize out = requestBodySize request ∧
    Sanitizer.s_responseBodySize out = responseBodySize request ∧
    Sanitizer.sanitizeValue (url request) rules = Normal (Sanitizer.s_url out) ∧
    Forall2 (λ kv kv', fst kv' = fst kv ∧
               Sanitizer.sanitizeValue (snd kv) rules = Normal (snd kv'))
            (List.filter (λ kv, negb (JS.str_eqb (fst kv) JS.proto_key))
                         (requestHeaders request))
            (Sanitizer.s_requestHeaders out) ∧
    Forall2 (λ kv kv', fst kv' = fst kv ∧
               Sanitizer.sanitizeValue (snd kv) rules = Normal (snd kv'))
            (List.filter (λ kv, negb (JS.str_eqb (fst kv) JS.proto_key))
                         (responseHeaders request))
            (Sanitizer.s_responseHeaders out) ∧
    (∀ c b, requestBody request = Some (c :: b) →
            ∃ v, Sanitizer.s_requestBody out = Some v ∧
                 Sanitizer.sanitizeValue (c :: b) rules = Normal v) ∧
    (∀ c b, responseBody request = Some (c :: b) →
            ∃ v, Sanitizer.s_responseBody out = Some v ∧
                 Sanitizer.sanitizeValue (c :: b) rules = Normal v) ∧
    (JS.truthy_opt (requestBody request) = false →
     Sanitizer.s_requestBody out = None) ∧
    (JS.truthy_opt (responseBody request) = false →
     Sanitizer.s_responseBody out = None).
Proof.
  apply (@sanitizeRequest_shape Fragment.engine);
    (split; [|reflexivity]);
    refine (bool_decide_eq_true_1 _ _); vm_compute; reflexivity.
Defined.

(** What the witness computes: the token is redacted in the URL, in the
    value of [Authorization] and in both bodies. *)
Lemma sanitize_token_request_example :
  let E := Fragment.engine in
  ∃ out,
    Sanitizer.sanitizeRequest Sample.tokenRequest [Sample.rule "abc" "[X]"]
    = Normal out ∧
    Sanitizer.s_url out = lit "https://a.example/?token=[X]" ∧
    Sanitizer.s_requestHeaders out
    = [(lit "Authorization", lit "Bearer [X]"); (lit "X-Test", lit "a")] ∧
    Sanitizer.s_requestBody out = Some (lit "token=[X]") ∧
    Sanitizer.s_responseBody out = Some (lit "ok [X]").
Proof.
  eexists. split; [vm_compute; reflexivity|]. repeat split.
Qed.

(** * Properties of the settings store *)

Section SettingsExtras.

Import Settings.

(** X23.  Default rules cannot be deleted: [removeSanitizationRule] keeps every
    rule but the custom rules with the given id, so the default rules of the
    list are the same before and after, in order, and what is left is a
    rule of the list that has another id or is a default rule. *)
Theorem removeSanitizationRule_spares_defaults (i : str)
    (rules : list SanitizationRule) :
  List.filter isDefault (removeSanitizationRule i rules)
  = List.filter isDefault rules ∧
  (∀ r, r ∈ removeSanitizationRule i rules ↔
        r ∈ rules ∧ (rule_id r ≠ i ∨ isDefault r = true)).
Proof.
  unfold removeSanitizationRule. split.
  - induction rules as [|r rest IH]; [reflexivity|]. cbn [List.filter].
    destruct (isDefault r) eqn:Ed.
    + rewrite orb_true_r. cbn [List.filter]. rewrite Ed, IH. reflexivity.
    + rewrite orb_false_r.
      destruct (negb (JS.str_eqb (rule_id r) i)); [|exact IH].
      cbn [List.filter]. rewrite Ed. exact IH.
  - intros r. rewrite !list_elem_of_In, List.filter_In.
    rewrite orb_true_iff, negb_true_iff.
    unfold JS.str_eqb. rewrite bool_decide_eq_false. reflexivity.
Qed.

(** X24.  The protection rests on the flag alone, and the flag can be updated: a
    rule whose [isDefault] an update has cleared is removed like a custom
    rule.  After [updateSanitizationRule] with [isDefault: false] (and no new
    id) and [removeSanitizationRule] on the same id, no rule of the list has
    that id. *)
Theorem update_then_remove_deletes (i : str) (updates : RuleUpdates)
    (rules : list SanitizationRule) :
  u_isDefault updates = Some false → u_id updates = None →
  ∀ r, r ∈ removeSanitizationRule i (updateSanitizationRule i updates rules) →
       rule_id r ≠ i.
Proof.
  intros Hd Hi r Hr.
  unfold removeSanitizationRule, updateSanitizationRule in Hr.
  apply list_elem_of_In, List.filter_In in Hr as [Hr Hkeep].
  apply in_map_iff in Hr as (r0 & <- & _).
  destruct (JS.str_eqb (rule_id r0) i) eqn:E0.
  - unfold applyUpdates in Hkeep. cbn [rule_id isDefault] in Hkeep.
    rewrite Hd, Hi in Hkeep. cbn [default] in Hkeep.
    rewrite E0 in Hkeep. discriminate.
  - unfold JS.str_eqb in E0. apply bool_decide_eq_false in E0. exact E0.
Qed.

Lemma update_then_remove_deletes_witness :
  let builtin := {| rule_id := lit "jwt"; name := lit "JWT Tokens";
                    pattern := lit "eyJ.*"; replacement := lit "[JWT]";
                    enabled := true; isDefault := true |} in
  let updates := {| u_id := None; u_name := None; u_pattern := None;
                    u_replacement := None; u_enabled := None;
                    u_isDefault := Some false |} in
  Forall (λ r, rule_id r ≠ lit "jwt")
    (removeSanitizationRule (lit "jwt")
       (updateSanitizationRule (lit "jwt") updates [builtin])).
Proof.
  apply Forall_forall.
  apply update_then_remove_deletes; reflexivity.
Defined.

Lemma ruleMap_get_Some (rules : list SanitizationRule) (i : str)
    (r : SanitizationRule) :
  ruleMap_get rules i = Some r → r ∈ rules ∧ rule_id r = i.
Proof.
  induction rules as [|x rest IH]; [discriminate|]. cbn [ruleMap_get].
  destruct (ruleMap_get rest i) as [r'|].
  - intros [= <-]. destruct (IH eq_refl) as [H1 H2].
    split; [right; exact H1|exact H2].
  - destruct (JS.str_eqb (rule_id x) i) eqn:Ex; [|discriminate].
    intros [= <-]. apply str_eqb_eq in Ex. split; [left|exact Ex].
Qed.

Lemma ruleMap_get_NoDup (rules : list SanitizationRule) (r : SanitizationRule) :
  NoDup (map rule_id rules) → r ∈ rules →
  ruleMap_get rules (rule_id r) = Some r.
Proof.
  induction rules as [|x rest IH]; intros Hnd Hr; [inversion Hr|].
  cbn [map] in Hnd. apply NoDup_cons in Hnd as [Hx Hnd].
  cbn [ruleMap_get]. apply elem_of_cons in Hr as [->|Hr].
  - destruct (ruleMap_get rest (rule_id x)) as [r'|] eqn:Eg.
    + apply ruleMap_get_Some in Eg as [H1 H2]. exfalso. apply Hx.
      rewrite <- H2. apply list_elem_of_fmap. eauto.
    + unfold JS.str_eqb. rewrite bool_decide_eq_true_2 by reflexivity.
      reflexivity.
  - rewrite (IH Hnd Hr). reflexivity.
Qed.

Lemma elem_of_reorder (ruleIds : list str) (rules : list SanitizationRule)
    (r : SanitizationRule) :
  r ∈ reorderSanitizationRules ruleIds rules ↔
  ∃ i, i ∈ ruleIds ∧ ruleMap_get rules i = Some r.
Proof.
  unfold reorderSanitizationRules.
  rewrite list_elem_of_In, in_flat_map. split.
  - intros (i & Hi & Hr). exists i. split; [apply list_elem_of_In, Hi|].
    destruct (ruleMap_get rules i) as [r'|]; [|inversion Hr].
    destruct Hr as [->|[]]. reflexivity.
  - intros (i & Hi & Hr). exists i. split; [apply list_elem_of_In, Hi|].
    rewrite Hr. left. reflexivity.
Qed.

(** X25.  Reordering drops what is not listed: every rule of the result of
    [reorderSanitizationRules] is a rule of the list whose id is among the
    ids given, so a rule whose id is missing from them, a default rule
    included, is no longer in the list. *)
Theorem reorderSanitizationRules_drops_unlisted (ruleIds : list str)
    (rules : list SanitizationRule) :
  (∀ r, r ∈ reorderSanitizationRules ruleIds rules →
        r ∈ rules ∧ rule_id r ∈ ruleIds) ∧
  (∀ r, r ∈ rules → rule_id r ∉ ruleIds →
        r ∉ reorderSanitizationRules ruleIds rules).
Proof.
  split.
  - intros r Hr. apply elem_of_reorder in Hr as (i & Hi & Hr).
    apply ruleMap_get_Some in Hr as [H1 H2]. subst i. auto.
  - intros r _ Hid Hr. apply elem_of_reorder in Hr as (i & Hi & Hr).
    apply ruleMap_get_Some in Hr as [_ H2]. subst i. auto.
Qed.

(** X26.  Reordering by a permutation of the ids: when the rules have distinct
    ids and the ids given are a permutation of them,
    [reorderSanitizationRules] returns the same rules, in the order of the
    ids given. *)
Theorem reorderSanitizationRules_permutation (ruleIds : list str)
    (rules : list SanitizationRule) :
  NoDup (map rule_id rules) → ruleIds ≡ₚ map rule_id rules →
  map rule_id (reorderSanitizationRules ruleIds rules) = ruleIds ∧
  reorderSanitizationRules ruleIds rules ≡ₚ rules.
Proof.
  intros Hnd Hperm.
  assert (Hids : ∀ ids, (∀ i, i ∈ ids → i ∈ map rule_id rules) →
            map rule_id (reorderSanitizationRules ids rules) = ids).
  { induction ids as [|i ids IH]; intros Hin; [reflexivity|].
    unfold reorderSanitizationRules. cbn [flat_map].
    destruct (proj1 (list_elem_of_fmap _ _ _) (Hin i (list_elem_of_here _ _)))
      as (r & -> & Hr).
    rewrite (ruleMap_get_NoDup rules r Hnd Hr). cbn [app map].
    f_equal. apply IH. intros j Hj. apply Hin. right. exact Hj. }
  assert (Hmap : map rule_id (reorderSanitizationRules ruleIds rules) = ruleIds).
  { apply Hids. intros i Hi. rewrite <- Hperm. exact Hi. }
  split; [exact Hmap|].
  apply NoDup_Permutation.
  - apply (NoDup_fmap_1 rule_id). change (fmap rule_id) with (map rule_id).
    rewrite Hmap, Hperm. exact Hnd.
  - apply (NoDup_fmap_1 rule_id). exact Hnd.
  - intros r. rewrite elem_of_reorder. split.
    + intros (i & _ & Hr). apply ruleMap_get_Some in Hr as [Hr _]. exact Hr.
    + intros Hr. exists (rule_id r). split.
      * rewrite Hperm. apply list_elem_of_fmap. eauto.
      * apply ruleMap_get_NoDup; assumption.
Qed.

Lemma reorderSanitizationRules_permutation_witness :
  let a := Sanitizer.createSanitizationRule (lit "a") (lit "A") (lit "x") (lit "y") in
  let b := Sanitizer.createSanitizationRule (lit "b") (lit "B") (lit "z") (lit "w") in
  map rule_id (reorderSanitizationRules [lit "b"; lit "a"] [a; b])
  = [lit "b"; lit "a"] ∧
  reorderSanitizationRules [lit "b"; lit "a"] [a; b] ≡ₚ [a; b].
Proof.
  apply reorderSanitizationRules_permutation.
  - refine (bool_decide_eq_true_1 _ _). vm_compute. reflexivity.
  - apply perm_swap.
Defined.

(** X27.  Adding and removing an exclusion pattern: [removeExclusionPattern]
    removes every occurrence of the pattern, so removing a pattern that was
    just added gives the list without it, which is the list as it was when
    the pattern was new. *)
Theorem removeExclusionPattern_after_add (pattern_ : str) (patterns : list str) :
  (pattern_ ∉ removeExclusionPattern pattern_ patterns) ∧
  removeExclusionPattern pattern_ (addExclusionPattern pattern_ patterns)
  = removeExclusionPattern pattern_ patterns ∧
  (pattern_ ∉ patterns →
   removeExclusionPattern pattern_ (addExclusionPattern pattern_ patterns)
   = patterns).
Proof.
  unfold removeExclusionPattern, addExclusionPattern.
  assert (Hself : negb (JS.str_eqb pattern_ pattern_) = false).
  { unfold JS.str_eqb. rewrite bool_decide_eq_true_2 by reflexivity.
    reflexivity. }
  assert (Hadd : List.filter (λ p, negb (JS.str_eqb p pattern_))
                             (patterns ++ [pattern_])
                 = List.filter (λ p, negb (JS.str_eqb p pattern_)) patterns).
  { rewrite List.filter_app. cbn [List.filter]. rewrite Hself.
    apply app_nil_r. }
  split; [|split].
  - intros Hin. apply list_elem_of_In, List.filter_In in Hin as [_ Hin].
    congruence.
  - exact Hadd.
  - intros Hnew. rewrite Hadd. clear Hadd.
    induction patterns as [|p ps IH]; [reflexivity|]. cbn [List.filter].
    destruct (JS.str_eqb p pattern_) eqn:Ep.
    + apply str_eqb_eq in Ep. subst p. exfalso. apply Hnew. left.
    + cbn [negb]. f_equal. apply IH. intros H. apply Hnew. right. exact H.
Qed.

End SettingsExtras.

(** * Further properties of the replay executor *)

Section ReplayExtras.

Import Replay.

Lemma upper_char_idem (c : ascii) :
  JS.upper_char (JS.upper_char c) = JS.upper_char c.
Proof. destruct c as [[] [] [] [] [] [] [] []]; reflexivity. Qed.

(** The capital of a character has no sharp s and only capitals. *)
Lemma toUpperCase_char (c : ascii) :
  JS.toUpperCase (JS.toUpperCase [c]) = JS.toUpperCase [c].
Proof. destruct c as [[] [] [] [] [] [] [] []]; reflexivity. Qed.

Lemma toUpperCase_app (s t : str) :
  JS.toUpperCase (s ++ t) = JS.toUpperCase s ++ JS.toUpperCase t.
Proof. unfold JS.toUpperCase. apply flat_map_app. Qed.

Lemma toUpperCase_idem (s : str) :
  JS.toUpperCase (JS.toUpperCase s) = JS.toUpperCase s.
Proof.
  induction s as [|c s IH]; [reflexivity|].
  change (c :: s) with ([c] ++ s).
  rewrite !toUpperCase_app, toUpperCase_char, IH. reflexivity.
Qed.

Variable URL_parses : str → bool.
Variable fetch : str → RequestInit → Completion Response.
Variable JSON_parse : str → option JSON.
Variable byteLength : str → Z.
Variable number_sub : Q → Q → Q.
Variable number_mul : Q → Q → Q.

(** X28.  The result of a replay.  [replayRequest] never throws: it reports
    success with a record and no error, or failure with an error message and
    no record, and a URL that does not parse gives [Invalid URL].  The
    record of a successful replay is marked replayed, carries the method in
    upper case, the URL, the headers as they were supplied (the forbidden
    ones included, which the outbound call left out) and the body as
    supplied, and holds the whole response body.  Its duration is the
    difference of the two clock readings as the host computes it; of its
    phases, [wait] and [receive] are the products of that duration with
    [0.8] and with [0.2], as the host computes them, and the other five are
    zero. *)
Theorem replayRequest_result_shape (env : Readings) (options : ReplayOptions) :
  let result :=
    fst (replayRequest URL_parses fetch JSON_parse byteLength
           number_sub number_mul env options) in
  (success result = true ↔ is_Some (request result)) ∧
  (success result = false ↔ is_Some (error result)) ∧
  (URL_parses (o_url options) = false →
   error result = Some (lit "Invalid URL")) ∧
  (∀ r, request result = Some r →
        id r = newId env ∧
        method r = JS.toUpperCase (o_method options) ∧
        url r = o_url options ∧
        requestHeaders r = o_headers options ∧
        requestBody r = o_body options ∧
        isReplayed r = true ∧ isWebSocket r = false ∧
        hasFullResponseBody r = true ∧ getFullResponseBody r = None ∧
        is_Some (responseBody r) ∧
        duration r = number_sub (endTime env) (startTime env) ∧
        wait (timing r) = number_mul (duration r) double_0_8 ∧
        receive (timing r) = number_mul (duration r) double_0_2 ∧
        blocked (timing r) = 0%Q ∧ dns (timing r) = 0%Q ∧
        connect (timing r) = 0%Q ∧ ssl (timing r) = 0%Q ∧
        send (timing r) = 0%Q).
Proof.
  cbv zeta. unfold replayRequest.
  destruct (URL_parses (o_url options)); cbn [negb fst].
  2:{ cbn. repeat split; try discriminate; eauto.
      intros [x Hx]; discriminate. }
  destruct (fetch (o_url options) (fetchOptions options)) as [response|e];
    cbn [mbind Completion_bind].
  - destruct (resp_text response) as [responseText|e];
      cbn [mbind Completion_bind mret Completion_ret].
    + cbn [success request error].
      split; [split; eauto|]. split; [split; [discriminate|]|].
      { intros [x Hx]; discriminate. }
      split; [discriminate|].
      intros r [= <-].
      cbn [id method url requestHeaders requestBody isReplayed isWebSocket
           hasFullResponseBody getFullResponseBody responseBody duration
           timing wait receive blocked dns connect ssl send].
      do 9 (split; [reflexivity|]). split; [eauto|].
      repeat split.
    + destruct (JS.includes _ _); cbn [success request error];
        (split; [split; [discriminate|intros [x Hx]; discriminate]|]);
        (split; [split; eauto|]); (split; [discriminate|]); discriminate.
  - destruct (JS.includes _ _); cbn [success request error];
      (split; [split; [discriminate|intros [x Hx]; discriminate]|]);
      (split; [split; eauto|]); (split; [discriminate|]); discriminate.
Qed.

(** X29.  Replaying a replay repeats the call: the options that
    [createReplayOptions] derives from the record of a successful replay
    give the same outbound call as the options of that replay (the same
    headers after filtering, the same body decision, the same redirect and
    credentials settings), with the method in upper case. *)
Theorem replay_of_replay_same_call (env : Readings) (options : ReplayOptions)
    (r : NetworkRequest) :
  request (fst (replayRequest URL_parses fetch JSON_parse byteLength
                  number_sub number_mul env options))
  = Some r →
  o_url (createReplayOptions r) = o_url options ∧
  fetchOptions (createReplayOptions r)
  = {| init_method := JS.toUpperCase (o_method options);
       init_headers := init_headers (fetchOptions options);
       init_body := init_body (fetchOptions options);
       init_redirect := init_redirect (fetchOptions options);
       init_credentials := init_credentials (fetchOptions options) |}.
Proof.
  unfold replayRequest.
  destruct (URL_parses (o_url options)); cbn [negb fst]; [|discriminate].
  destruct (fetch (o_url options) (fetchOptions options)) as [response|e];
    cbn [mbind Completion_bind].
  - destruct (resp_text response) as [responseText|e];
      cbn [mbind Completion_bind mret Completion_ret].
    + intros [= <-]. split; [reflexivity|].
      unfold fetchOptions, createReplayOptions, carries_body.
      cbn [o_method o_url o_headers o_body method url requestHeaders requestBody
           init_headers init_body init_redirect init_credentials].
      rewrite toUpperCase_idem. reflexivity.
    + destruct (JS.includes _ _); discriminate.
  - destruct (JS.includes _ _); discriminate.
Qed.

End ReplayExtras.

Lemma replay_of_replay_same_call_witness :
  let fetch := λ (_ : str) (_ : Replay.RequestInit),
    Normal {| Replay.resp_status := 200; Replay.resp_statusText := lit "OK";
              Replay.resp_headers := []; Replay.resp_text := Normal (lit "ok") |} in
  ∃ r,
    Replay.request
      (fst (Replay.replayRequest (λ _, true) fetch (λ _, None)
              (λ s, Z.of_nat (length s)) Qminus Qmult
              Sample.readings Sample.login))
    = Some r ∧
    Replay.o_url (Replay.createReplayOptions r) = Replay.o_url Sample.login ∧
    Replay.fetchOptions (Replay.createReplayOptions r)
    = {| Replay.init_method := JS.toUpperCase (Replay.o_method Sample.login);
         Replay.init_headers := Replay.init_headers (Replay.fetchOptions Sample.login);
         Replay.init_body := Replay.init_body (Replay.fetchOptions Sample.login);
         Replay.init_redirect :=
           Replay.init_redirect (Replay.fetchOptions Sample.login);
         Replay.init_credentials :=
           Replay.init_credentials (Replay.fetchOptions Sample.login) |}.
Proof.
  intros fetch. eexists. split; [reflexivity|].
  apply (replay_of_replay_same_call (λ _, true) fetch (λ _, None)
           (λ s, Z.of_nat (length s)) Qminus Qmult
           Sample.readings Sample.login).
  reflexivity.
Defined.
